(** * RTSP multi-stream capture: a shallow embedding of the three streamer
      variants and the properties of their connect / capture / release code.

    Sources embedded here:
    - [run_ffmpeg_oop_multi.py]                    (module [Multi])
    - [run_ffmpeg_oop_multi_thread_report_way1.py] (module [Way1])
    - [run_ffmpeg_oop_multi_thread_report_way2.py] (module [Way2])

    OpenCV ([cv2.VideoCapture], [cv2.imshow], [cv2.waitKey]), the wall clock
    and the keyboard are external collaborators.  They are modelled by a
    [World]: per-URL scripts that say what every decoder call answers, a
    clock oracle, and a chronological trace of the calls the program made. *)

From Stdlib Require Import Ascii String DecimalString ZArith QArith.
From stdpp Require Import base option list gmap strings.

Local Open Scope Z_scope.
Local Open Scope nat_scope.
Local Open Scope string_scope.
Local Open Scope list_scope.

(** ** The decoder collaborator *)

(** What the FPS expression [n / elapsed if elapsed > 0 else 0.0] evaluates
    to: the float zero, or the binary64 quotient of the frame count by the
    elapsed time, kept as its two operands (its rounding is not computed). *)
Inductive fps_value : Type :=
| FpsZero
| FpsQuotient (frames : nat) (elapsed : Q).

(** The texts [cv2.putText] draws on a frame, by what they show. *)
Inductive overlay_text : Type :=
| TxtFps (fps : fps_value)
| TxtLatency (seconds : Q)
| TxtFrameCount (window : string) (frames : nat)
| TxtTime (now : Q).

(** A frame is an image array: the bytes the decoder delivered and the texts
    drawn on that array since, in order.  [cv2.putText] draws in place. *)
Record Frame : Type := {
  pixels : list Byte.byte;
  drawn : list overlay_text
}.

(** A frame as the decoder delivers it. *)
Definition decoded_frame (bytes : list Byte.byte) : Frame :=
  {| pixels := bytes; drawn := [] |}.

(** [cv2.putText(frame, text, ...)] *)
Definition put_text (txt : overlay_text) (f : Frame) : Frame :=
  {| pixels := pixels f; drawn := drawn f ++ [txt] |}.

(** [cv2.VideoCapture(url)] either raises or returns a capture object, which
    may or may not be opened. *)
Inductive open_outcome : Type :=
| OpenRaises
| Opened (is_open : bool).

(** [cap.read()] either raises or returns the pair [(ret, frame)]. *)
Inductive read_outcome : Type :=
| ReadRaises
| ReadReturns (ret : bool) (frame : option Frame).

(** What one camera will answer, call after call. *)
Record Camera : Type := {
  opens : list open_outcome;
  reads : list read_outcome
}.

(** A capture object: its identity, the URL it was built for and what
    [isOpened()] answers right after construction. *)
Record handle : Type := {
  hid : nat;
  hurl : string;
  hopen : bool
}.

#[global] Instance handle_eq_dec : EqDecision handle.
Proof. solve_decision. Defined.

(** The lines the programs print, one constructor per [print] site. *)
Inductive message : Type :=
| MsgException (window : string) (attempt : nat)
| MsgReadRetry (window : string) (attempt : nat)
| MsgConnectFailed (window : string)
| MsgReadFailed (window : string)
| MsgStreamRetry (window : string)
| MsgQuitKey
| MsgInterrupt
| MsgThreadCount
| MsgThreadList
| MsgNoFrame (window : string)
| MsgDurationOver
| MsgReportHeader
| MsgAverageFps (window : string) (fps : fps_value) (frames : nat)
| MsgNeverConnected (window : string)
| MsgOpenFailed (url : string).

(** Calls made to the outside, in the order they happen.  [EvPoll],
    [EvReconnect] and [EvRemove] are ghost events of the supervisor loop of
    [Multi.main]: which streamer object the loop variable is bound to and
    what the loop decided for it. *)
Inductive event : Type :=
| EvOpen (h : handle)
| EvOpenRaised (url : string)
| EvRead (h : handle) (r : read_outcome)
| EvClose (h : handle)
| EvSleep (seconds : Q)
| EvJoin (timeout : Q)
| EvSpawn (window : string)
| EvWaitKey (key : Z)
| EvNamedWindow (window : string)
| EvShow (window : string) (f : Frame)
| EvDestroyAllWindows
| EvPrint (m : message)
| EvPoll (sid : nat) (ok : bool)
| EvReconnect (sid : nat) (ok : bool)
| EvRemove (sid : nat).

Record World : Type := {
  cameras : gmap string Camera;
  next_id : nat;
  clock : nat -> Q;
  ticks : nat;
  trace : list event
}.

Definition no_camera : Camera := {| opens := []; reads := [] |}.

Definition camera_of (w : World) (url : string) : Camera :=
  default no_camera (cameras w !! url).

Definition log (e : event) (w : World) : World :=
  {| cameras := cameras w; next_id := next_id w; clock := clock w;
     ticks := ticks w; trace := trace w ++ [e] |}.

Definition set_camera (url : string) (c : Camera) (w : World) : World :=
  {| cameras := <[url := c]> (cameras w); next_id := next_id w;
     clock := clock w; ticks := ticks w; trace := trace w |}.

Definition bump_id (w : World) : World :=
  {| cameras := cameras w; next_id := S (next_id w); clock := clock w;
     ticks := ticks w; trace := trace w |}.

Definition bump_ticks (w : World) : World :=
  {| cameras := cameras w; next_id := next_id w; clock := clock w;
     ticks := S (ticks w); trace := trace w |}.

(** ** Programs: state passing with Python's exceptions and [exit()] *)

Inductive exn : Type :=
| DecoderError
| AttributeError
| TypeError
| ValueError
| KeyboardInterrupt.

Inductive outcome (A : Type) : Type :=
| Ok (a : A)
| Raised (e : exn)
| Exited.
Arguments Ok {A} a.
Arguments Raised {A} e.
Arguments Exited {A}.

Definition Prog (St A : Type) : Type := St -> outcome A * St.

Definition ret {St A} (a : A) : Prog St A := fun st => (Ok a, st).

Definition bind {St A B} (m : Prog St A) (k : A -> Prog St B) : Prog St B :=
  fun st =>
    match m st with
    | (Ok a, st') => k a st'
    | (Raised e, st') => (Raised e, st')
    | (Exited, st') => (Exited, st')
    end.

Definition raise {St A} (e : exn) : Prog St A := fun st => (Raised e, st).

Definition sys_exit {St A} : Prog St A := fun st => (Exited, st).

(** [except Exception] catches what the decoder and the interpreter raise,
    not [KeyboardInterrupt] and not the [SystemExit] of [exit()]. *)
Definition is_Exception (e : exn) : bool :=
  match e with
  | KeyboardInterrupt => false
  | _ => true
  end.

Definition is_KeyboardInterrupt (e : exn) : bool :=
  match e with
  | KeyboardInterrupt => true
  | _ => false
  end.

(** [try: m  except <caught> as e: handler e] *)
Definition try_except {St A} (m : Prog St A) (caught : exn -> bool)
    (handler : exn -> Prog St A) : Prog St A :=
  fun st =>
    match m st with
    | (Raised e, st') => if caught e then handler e st' else (Raised e, st')
    | r => r
    end.

(** [try: m  finally: cleanup] *)
Definition try_finally {St A} (m : Prog St A) (cleanup : Prog St unit)
    : Prog St A :=
  fun st =>
    match m st with
    | (r, st') =>
        match cleanup st' with
        | (Ok _, st'') => (r, st'')
        | (Raised e, st'') => (Raised e, st'')
        | (Exited, st'') => (Exited, st'')
        end
    end.

Declare Scope prog_scope.
Delimit Scope prog_scope with prog.
Notation "x <- m ;; k" := (bind m (fun x => k))
  (at level 100, m at next level, right associativity) : prog_scope.
Notation "m ;; k" := (bind m (fun _ => k))
  (at level 100, right associativity) : prog_scope.
Local Open Scope prog_scope.

(** A method runs on its object and the world; [self] is the first
    component of the state. *)
Definition in_world {S A} (m : Prog World A) : Prog (S * World) A :=
  fun st =>
    match m (snd st) with
    | (r, w') => (r, (fst st, w'))
    end.

Definition get_self {S} : Prog (S * World) S := fun st => (Ok (fst st), st).

Definition set_self {S} (f : S -> S) : Prog (S * World) unit :=
  fun st => (Ok tt, (f (fst st), snd st)).

(** Objects live in a store; lists of streamers hold their indices, so that
    [streamers] and [active_streamers] share the objects as in Python. *)
Definition call {S A} (sid : nat) (m : Prog (S * World) A)
    : Prog (list S * World) A :=
  fun st =>
    match fst st !! sid with
    | None => (Raised AttributeError, st)
    | Some self =>
        match m (self, snd st) with
        | (r, (self', w')) => (r, (<[sid := self']> (fst st), w'))
        end
    end.

Definition new_object {S} (o : S) : Prog (list S * World) nat :=
  fun st => (Ok (length (fst st)), (fst st ++ [o], snd st)).

(** *** Primitive calls *)

Definition emit (e : event) : Prog World unit := fun w => (Ok tt, log e w).

Definition print (m : message) : Prog World unit := emit (EvPrint m).

(** [time.sleep(seconds)]: a negative length is refused with a
    [ValueError], and nothing is slept. *)
Definition sleep (seconds : Q) : Prog World unit :=
  if Qle_bool 0 seconds then emit (EvSleep seconds) else raise ValueError.

(** [time.time()]: the next reading of the clock. *)
Definition time_time : Prog World Q :=
  fun w => (Ok (clock w (ticks w)), bump_ticks w).

(** [cv2.VideoCapture(url)].  An exhausted script answers like an
    unreachable camera: a capture object that is not opened. *)
Definition VideoCapture (url : string) : Prog World handle :=
  fun w =>
    let cam := camera_of w url in
    match opens cam with
    | OpenRaises :: rest =>
        (Raised DecoderError,
         log (EvOpenRaised url)
           (set_camera url {| opens := rest; reads := reads cam |} w))
    | Opened b :: rest =>
        let h := {| hid := next_id w; hurl := url; hopen := b |} in
        (Ok h,
         log (EvOpen h)
           (bump_id (set_camera url {| opens := rest; reads := reads cam |} w)))
    | [] =>
        let h := {| hid := next_id w; hurl := url; hopen := false |} in
        (Ok h, log (EvOpen h) (bump_id w))
    end.

(** What the next [read()] on a capture of this URL will answer.  An
    exhausted script answers [(False, None)]. *)
Definition next_read (w : World) (url : string) : read_outcome :=
  match reads (camera_of w url) with
  | r :: _ => r
  | [] => ReadReturns false None
  end.

Definition consume_read (url : string) (w : World) : World :=
  let cam := camera_of w url in
  match reads cam with
  | _ :: rest => set_camera url {| opens := opens cam; reads := rest |} w
  | [] => w
  end.

(** [cap.read()] *)
Definition cap_read (h : handle) : Prog World (bool * option Frame) :=
  fun w =>
    let r := next_read w (hurl h) in
    let w' := log (EvRead h r) (consume_read (hurl h) w) in
    match r with
    | ReadRaises => (Raised DecoderError, w')
    | ReadReturns ok frame => (Ok (ok, frame), w')
    end.

(** [cap.release()] *)
Definition cap_release (h : handle) : Prog World unit := emit (EvClose h).

(** [not ret or frame is None] *)
Definition read_failed (ok : bool) (frame : option Frame) : bool :=
  negb ok || bool_decide (frame = None).

(** [if not ret or frame is None: <fail> else: <use frame>]: the frame the
    [else] branch works on, [None] when the [if] branch is taken. *)
Definition good_frame (ok : bool) (frame : option Frame) : option Frame :=
  if read_failed ok frame then None else frame.

(** [cv2.waitKey(1) & 0xFF == ord('q')] *)
Definition is_quit_key (key : Z) : bool := (Z.land key 255 =? 113)%Z.

(** Counting events of one kind in a trace. *)
Definition count_events (p : event -> bool) (t : list event) : nat :=
  length (List.filter p t).

Definition is_close (e : event) : bool :=
  match e with
  | EvClose _ => true
  | _ => false
  end.

Definition is_open_event (e : event) : bool :=
  match e with
  | EvOpen _ => true
  | _ => false
  end.

Definition is_close_of (h : handle) (e : event) : bool :=
  match e with
  | EvClose h' => bool_decide (h' = h)
  | _ => false
  end.

(** A connect attempt starts with the call of the constructor, which
    returns a capture object or raises. *)
Definition is_attempt (e : event) : bool :=
  match e with
  | EvOpen _ | EvOpenRaised _ => true
  | _ => false
  end.

Definition is_raised_read (e : event) : bool :=
  match e with
  | EvRead _ ReadRaises => true
  | _ => false
  end.

Definition is_sleep (e : event) : bool :=
  match e with
  | EvSleep _ => true
  | _ => false
  end.

(** Capture objects released, built, released for one handle; attempts made;
    reads that raised. *)
Definition close_count : list event -> nat := count_events is_close.

Definition open_count : list event -> nat := count_events is_open_event.

Definition closes_of (h : handle) : list event -> nat :=
  count_events (is_close_of h).

Definition attempt_count : list event -> nat := count_events is_attempt.

Definition raised_read_count : list event -> nat :=
  count_events is_raised_read.

(** The [try] block of both [connect_server] methods:
    [cap = cv2.VideoCapture(self.rtsp_url); ret, frame = cap.read()]. *)
Definition open_and_read (url : string)
    : Prog World (handle * (bool * option Frame)) :=
  c <- VideoCapture url ;;
  r <- cap_read c ;;
  ret (c, r).

(** [url.split('/')[-1]]: what follows the last slash. *)
Fixpoint last_segment_from (acc s : string) : string :=
  match s with
  | EmptyString => acc
  | String c rest =>
      if Ascii.eqb c "/"%char then last_segment_from EmptyString rest
      else last_segment_from (acc ++ String c EmptyString) rest
  end.

Definition last_segment (url : string) : string :=
  last_segment_from EmptyString url.

(** ** [run_ffmpeg_oop_multi.py]: retry-only streamer, no threads *)

Module Multi.

Record RTSPstreamer : Type := {
  rtsp_url : string;
  window_name : string;
  cap : option handle
}.

Definition Method (A : Type) : Type := Prog (RTSPstreamer * World) A.

Definition __init__ (url window : string) : RTSPstreamer :=
  {| rtsp_url := url; window_name := window; cap := None |}.

Definition set_cap (c : option handle) (self : RTSPstreamer) : RTSPstreamer :=
  {| rtsp_url := rtsp_url self; window_name := window_name self; cap := c |}.

(** The [for i in range(try_times)] loop of [__connect_server]; [n] attempts
    are left and [i] is the loop index. *)
Fixpoint connect_attempts (n i : nat) (try_interval : Q) : Method bool :=
  match n with
  | O => ret false
  | S n' =>
      self <- get_self ;;
      r <- try_except
             (x <- in_world (open_and_read (rtsp_url self)) ;; ret (Some x))
             is_Exception
             (fun _ =>
                in_world (print (MsgException (window_name self) (i + 1))) ;;
                in_world (sleep try_interval) ;;
                ret None) ;;
      match r with
      | None => connect_attempts n' (S i) try_interval
      | Some (c, (ok, frame)) =>
          match good_frame ok frame with
          | None =>
              in_world (print (MsgReadRetry (window_name self) (i + 1))) ;;
              in_world (cap_release c) ;;
              in_world (sleep try_interval) ;;
              connect_attempts n' (S i) try_interval
          | Some _ =>
              set_self (set_cap (Some c)) ;;
              ret true
          end
      end
  end.

Definition __connect_server (try_times : Z) (try_interval : Q) : Method bool :=
  connect_attempts (Z.to_nat try_times) 0 try_interval.

Definition visualize_frame (frame : Frame) : Method unit :=
  self <- get_self ;;
  in_world (emit (EvShow (window_name self) frame)).

(** [self.cap.read()] *)
Definition self_cap_read : Method (bool * option Frame) :=
  self <- get_self ;;
  match cap self with
  | None => raise AttributeError
  | Some c => in_world (cap_read c)
  end.

(** [self.cap.release()] *)
Definition self_cap_release : Method unit :=
  self <- get_self ;;
  match cap self with
  | None => raise AttributeError
  | Some c => in_world (cap_release c)
  end.

Definition run (try_times : Z) (try_interval : Q) : Method bool :=
  connected <- __connect_server try_times try_interval ;;
  if negb connected then
    self <- get_self ;;
    in_world (print (MsgConnectFailed (window_name self))) ;;
    ret false
  else
    r <- self_cap_read ;;
    match good_frame (fst r) (snd r) with
    | None =>
        self <- get_self ;;
        in_world (print (MsgReadFailed (window_name self))) ;;
        self_cap_release ;;
        ret false
    | Some frame =>
        visualize_frame frame ;;
        ret true
    end.

Definition read_next_frame : Method (bool * option Frame) :=
  self <- get_self ;;
  match cap self with
  | None => ret (false, None)
  | Some c => in_world (cap_read c)
  end.

Definition release : Method unit :=
  self <- get_self ;;
  match cap self with
  | Some c =>
      in_world (cap_release c) ;;
      set_self (set_cap None)
  | None => ret tt
  end.

(** [release()] called [n] times in a row. *)
Fixpoint release_times (n : nat) : Method unit :=
  match n with
  | O => ret tt
  | S n' => release ;; release_times n'
  end.

(** *** [main] *)

Definition Main (A : Type) : Type := Prog (list RTSPstreamer * World) A.

(** [for url in rtsp_urls: streamers.append(RTSPstreamer(url, ...))] *)
Fixpoint create_streamers (rtsp_urls : list string) : Main (list nat) :=
  match rtsp_urls with
  | [] => ret []
  | url :: rest =>
      sid <- new_object (__init__ url ("Stream_" ++ last_segment url)) ;;
      sids <- create_streamers rest ;;
      ret (sid :: sids)
  end.

(** [for streamer in streamers: if streamer.run(2, 2): active.append(..)] *)
Fixpoint initialize (streamers : list nat) : Main (list nat) :=
  match streamers with
  | [] => ret []
  | sid :: rest =>
      ok <- call sid (run 2 (2 # 1)) ;;
      active <- initialize rest ;;
      ret (if ok then sid :: active else active)
  end.

(** [active_streamers.remove(streamer)]: drops the first occurrence, raises
    [ValueError] when there is none. *)
Fixpoint remove_first (sid : nat) (l : list nat) : option (list nat) :=
  match l with
  | [] => None
  | x :: rest =>
      if bool_decide (x = sid) then Some rest
      else option_map (cons x) (remove_first sid rest)
  end.

Definition list_remove {St} (sid : nat) (l : list nat) : Prog St (list nat) :=
  match remove_first sid l with
  | Some l' => ret l'
  | None => raise ValueError
  end.

(** The body of [for streamer in active_streamers] for the streamer object
    [sid]; it returns the list [active_streamers] as the body leaves it. *)
Definition poll_body (sid : nat) (active : list nat) : Main (list nat) :=
  r <- call sid read_next_frame ;;
  match good_frame (fst r) (snd r) with
  | Some frame =>
      in_world (emit (EvPoll sid true)) ;;
      call sid (visualize_frame frame) ;;
      ret active
  | None =>
      in_world (emit (EvPoll sid false)) ;;
      window <- call sid (self <- get_self ;; ret (window_name self)) ;;
      in_world (print (MsgStreamRetry window)) ;;
      call sid release ;;
      ok <- call sid (run 2 (2 # 1)) ;;
      in_world (emit (EvReconnect sid ok)) ;;
      if negb ok then
        active' <- list_remove sid active ;;
        in_world (emit (EvRemove sid)) ;;
        ret active'
      else ret active
  end.

(** [for streamer in active_streamers: ...] over the list that the body
    mutates: Python's list iterator keeps an index [i] and stops when it
    reaches the current length. *)
Fixpoint for_active (fuel i : nat) (active : list nat) : Main (list nat) :=
  match fuel with
  | O => ret active
  | S fuel' =>
      match active !! i with
      | None => ret active
      | Some sid =>
          active' <- poll_body sid active ;;
          for_active fuel' (S i) active'
      end
  end.

Definition poll_pass (active : list nat) : Main (list nat) :=
  for_active (length active) 0 active.

(** [while True: <pass>; if cv2.waitKey(1) & 0xFF == ord('q'): break].
    [keys] is what [waitKey] will return, call after call; when the script is
    over the user interrupts the program. *)
Fixpoint poll_loop (keys : list Z) (active : list nat) : Main unit :=
  active' <- poll_pass active ;;
  match keys with
  | [] => raise KeyboardInterrupt
  | key :: keys' =>
      in_world (emit (EvWaitKey key)) ;;
      if is_quit_key key then in_world (print MsgQuitKey)
      else poll_loop keys' active'
  end.

(** [for streamer in streamers: streamer.release()] *)
Fixpoint release_all (streamers : list nat) : Main unit :=
  match streamers with
  | [] => ret tt
  | sid :: rest => call sid release ;; release_all rest
  end.

Definition main (rtsp_urls : list string) (keys : list Z) : Main unit :=
  streamers <- create_streamers rtsp_urls ;;
  active_streamers <- initialize streamers ;;
  try_finally
    (try_except (poll_loop keys active_streamers)
       is_KeyboardInterrupt
       (fun _ => in_world (print MsgInterrupt)))
    (release_all streamers ;;
     in_world (emit EvDestroyAllWindows)).

End Multi.

(** ** [run_ffmpeg_oop_multi_thread_report_way1.py]: threaded, with metrics *)

Module Way1.

(** The capture thread of a streamer, as [self.thread] refers to it. *)
Inductive thread_state : Type :=
| Running
| Finished
| Crashed.

Record RTSPStreamer : Type := {
  rtsp_url : string;
  window_name : string;
  cap : option handle;
  first_start_time : option Q;
  frame_count : nat;
  latest_frame : option Frame;
  latest_timestamp : option Q;
  stopped : bool;
  thread : option thread_state
}.

Definition Method (A : Type) : Type := Prog (RTSPStreamer * World) A.

Definition set_cap (c : option handle) (s : RTSPStreamer) : RTSPStreamer :=
  {| rtsp_url := rtsp_url s; window_name := window_name s; cap := c;
     first_start_time := first_start_time s; frame_count := frame_count s;
     latest_frame := latest_frame s; latest_timestamp := latest_timestamp s;
     stopped := stopped s; thread := thread s |}.

Definition set_first_start_time (t : option Q) (s : RTSPStreamer)
    : RTSPStreamer :=
  {| rtsp_url := rtsp_url s; window_name := window_name s; cap := cap s;
     first_start_time := t; frame_count := frame_count s;
     latest_frame := latest_frame s; latest_timestamp := latest_timestamp s;
     stopped := stopped s; thread := thread s |}.

Definition set_frame_count (n : nat) (s : RTSPStreamer) : RTSPStreamer :=
  {| rtsp_url := rtsp_url s; window_name := window_name s; cap := cap s;
     first_start_time := first_start_time s; frame_count := n;
     latest_frame := latest_frame s; latest_timestamp := latest_timestamp s;
     stopped := stopped s; thread := thread s |}.

Definition set_latest_frame (f : option Frame) (s : RTSPStreamer)
    : RTSPStreamer :=
  {| rtsp_url := rtsp_url s; window_name := window_name s; cap := cap s;
     first_start_time := first_start_time s; frame_count := frame_count s;
     latest_frame := f; latest_timestamp := latest_timestamp s;
     stopped := stopped s; thread := thread s |}.

Definition set_latest_timestamp (t : option Q) (s : RTSPStreamer)
    : RTSPStreamer :=
  {| rtsp_url := rtsp_url s; window_name := window_name s; cap := cap s;
     first_start_time := first_start_time s; frame_count := frame_count s;
     latest_frame := latest_frame s; latest_timestamp := t;
     stopped := stopped s; thread := thread s |}.

Definition set_stopped (b : bool) (s : RTSPStreamer) : RTSPStreamer :=
  {| rtsp_url := rtsp_url s; window_name := window_name s; cap := cap s;
     first_start_time := first_start_time s; frame_count := frame_count s;
     latest_frame := latest_frame s; latest_timestamp := latest_timestamp s;
     stopped := b; thread := thread s |}.

Definition set_thread (t : option thread_state) (s : RTSPStreamer)
    : RTSPStreamer :=
  {| rtsp_url := rtsp_url s; window_name := window_name s; cap := cap s;
     first_start_time := first_start_time s; frame_count := frame_count s;
     latest_frame := latest_frame s; latest_timestamp := latest_timestamp s;
     stopped := stopped s; thread := t |}.

(** The object [__init__] leaves behind. *)
Definition fresh (url window : string) : RTSPStreamer :=
  {| rtsp_url := url; window_name := window; cap := None;
     first_start_time := None; frame_count := 0;
     latest_frame := None; latest_timestamp := None;
     stopped := false; thread := None |}.

(** [RTSPStreamer(url, window)]: the fields, then [cv2.namedWindow] and
    [cv2.resizeWindow] on the window. *)
Definition __init__ (url window : string) : Prog World RTSPStreamer :=
  emit (EvNamedWindow window) ;;
  ret (fresh url window).

Definition visualize_frame (frame : Frame) : Method unit :=
  self <- get_self ;;
  in_world (emit (EvShow (window_name self) frame)).

(** [with self.lock: self.latest_frame = frame;
                     self.latest_timestamp = time.time()] *)
Definition publish (frame : Frame) : Method unit :=
  set_self (set_latest_frame (Some frame)) ;;
  now <- in_world time_time ;;
  set_self (set_latest_timestamp (Some now)).

(** The [for attempt in range(try_times)] loop of [connect_server] and the
    two lines after it; [n] attempts are left, [i] is the loop index. *)
Fixpoint connect_attempts (n i : nat) (try_interval : Q) : Method bool :=
  match n with
  | O =>
      self <- get_self ;;
      in_world (print (MsgConnectFailed (window_name self))) ;;
      ret false
  | S n' =>
      self <- get_self ;;
      r <- try_except
             (x <- in_world (open_and_read (rtsp_url self)) ;; ret (Some x))
             is_Exception
             (fun _ =>
                in_world (print (MsgException (window_name self) (i + 1))) ;;
                in_world (sleep try_interval) ;;
                ret None) ;;
      match r with
      | None => connect_attempts n' (S i) try_interval
      | Some (c, (ok, frame)) =>
          match good_frame ok frame with
          | None =>
              in_world (print (MsgReadRetry (window_name self) (i + 1))) ;;
              in_world (cap_release c) ;;
              in_world (sleep try_interval) ;;
              connect_attempts n' (S i) try_interval
          | Some f =>
              set_self (set_cap (Some c)) ;;
              (if bool_decide (first_start_time self = None) then
                 now <- in_world time_time ;;
                 set_self (set_first_start_time (Some now))
               else ret tt) ;;
              publish f ;;
              set_self (set_stopped false) ;;
              set_self (set_thread (Some Running)) ;;
              in_world (emit (EvSpawn (window_name self))) ;;
              ret true
          end
      end
  end.

Definition connect_server (try_times : Z) (try_interval : Q) : Method bool :=
  connect_attempts (Z.to_nat try_times) 0 try_interval.

(** The body of [while not self.stopped] in [_capture_loop]. *)
Definition capture_iteration : Method unit :=
  self <- get_self ;;
  match cap self with
  | None => raise AttributeError
  | Some c =>
      r <- in_world (cap_read c) ;;
      match r with
      | (true, Some frame) =>
          publish frame ;;
          self' <- get_self ;;
          set_self (set_frame_count (frame_count self' + 1))
      | _ => ret tt
      end
  end.

(** How a bounded observation of the capture loop ends. *)
Inductive loop_status : Type :=
| Returned
| StillLooping.

(** [_capture_loop], observed for at most [fuel] iterations. *)
Fixpoint _capture_loop (fuel : nat) : Method loop_status :=
  self <- get_self ;;
  if stopped self then ret Returned
  else
    match fuel with
    | O => ret StillLooping
    | S fuel' => capture_iteration ;; _capture_loop fuel'
    end.

Definition release : Method unit :=
  set_self (set_stopped true) ;;
  self <- get_self ;;
  (match thread self with
   | Some _ => in_world (emit (EvJoin (1 # 1)))
   | None => ret tt
   end) ;;
  match cap self with
  | Some c =>
      in_world (cap_release c) ;;
      set_self (set_cap None)
  | None => ret tt
  end.

Fixpoint release_times (n : nat) : Method unit :=
  match n with
  | O => ret tt
  | S n' => release ;; release_times n'
  end.

(** *** The streamer as seen by both threads

    Between two operations of the main thread the capture thread runs whole
    iterations of its loop.  [capture_step] is one turn of the capture
    thread: the test of [self.stopped], then one iteration; an exception
    ends that thread only. *)
Definition capture_step (st : RTSPStreamer * World) : RTSPStreamer * World :=
  match thread (fst st) with
  | Some Running =>
      if stopped (fst st) then (set_thread (Some Finished) (fst st), snd st)
      else
        match capture_iteration st with
        | (Ok _, st') => st'
        | (_, (s', w')) => (set_thread (Some Crashed) s', w')
        end
  | _ => st
  end.

(** [with streamer.lock: frame = streamer.latest_frame;
                         frame_time = streamer.latest_timestamp] *)
Definition read_slot (s : RTSPStreamer) : option Frame * option Q :=
  (latest_frame s, latest_timestamp s).

Inductive op : Type :=
| OpConnect (try_times : Z) (try_interval : Q)
| OpCapture
| OpRelease.

Definition exec_op (o : op) (st : RTSPStreamer * World)
    : RTSPStreamer * World :=
  match o with
  | OpConnect try_times try_interval =>
      snd (connect_server try_times try_interval st)
  | OpCapture => capture_step st
  | OpRelease => snd (release st)
  end.

Definition exec_ops (ops : list op) (st : RTSPStreamer * World)
    : RTSPStreamer * World :=
  fold_left (fun st o => exec_op o st) ops st.

(** *** [process_streamers] and [main] *)

Definition Main (A : Type) : Type := Prog (list RTSPStreamer * World) A.

(** [streamer.frame_count / elapsed if elapsed > 0 else 0.0] *)
Definition fps_of (frames : nat) (elapsed : Q) : fps_value :=
  if Qle_bool elapsed 0 then FpsZero else FpsQuotient frames elapsed.

(** [time.time() - streamer.first_start_time
       if streamer.first_start_time else 0] *)
Definition elapsed_since {S} (first_start : option Q) : Prog (S * World) Q :=
  match first_start with
  | None => ret 0%Q
  | Some t0 =>
      if Qeq_bool t0 0 then ret 0%Q
      else now <- in_world time_time ;; ret (now - t0)%Q
  end.

(** [cv2.putText(frame, text, ...)] in [process_streamers].  [frame] is the
    array the slot of the streamer refers to (on this thread nothing has
    replaced it since the locked read), so the drawing shows in the slot. *)
Definition putText (sid : nat) (frame : Frame) (txt : overlay_text)
    : Main Frame :=
  call sid (set_self (set_latest_frame (Some (put_text txt frame)))) ;;
  ret (put_text txt frame).

(** The body of [for streamer in active_streamers[:]] for the object [sid].
    The latency text shows [latency * 1000]; [time.localtime()] reads the
    clock as [time.time()] does. *)
Definition show_latest (sid : nat) : Main unit :=
  self <- call sid get_self ;;
  match read_slot self with
  | (None, _) => in_world (print (MsgNoFrame (window_name self)))
  | (Some frame, frame_time) =>
      now <- in_world time_time ;;
      match frame_time with
      | None => raise TypeError
      | Some t =>
          let latency := (now - t)%Q in
          self1 <- call sid get_self ;;
          elapsed <- elapsed_since (first_start_time self1) ;;
          self2 <- call sid get_self ;;
          let fps := fps_of (frame_count self2) elapsed in
          frame <- putText sid frame (TxtFps fps) ;;
          frame <- putText sid frame (TxtLatency latency) ;;
          timestamp <- in_world time_time ;;
          self3 <- call sid get_self ;;
          frame <- putText sid frame
                     (TxtFrameCount (window_name self3) (frame_count self3)) ;;
          frame <- putText sid frame (TxtTime timestamp) ;;
          call sid (visualize_frame frame)
      end
  end.

Fixpoint for_each {St} (l : list nat) (body : nat -> Prog St unit)
    : Prog St unit :=
  match l with
  | [] => ret tt
  | x :: rest => body x ;; for_each rest body
  end.

(** [while time.time() - overall_start < duration: ...]; [keys] is what
    [waitKey] returns call after call, and the user interrupts the program
    when the script is over. *)
Fixpoint process_loop (keys : list Z) (overall_start duration : Q)
    (active : list nat) : Main unit :=
  now <- in_world time_time ;;
  if Qle_bool duration (now - overall_start) then ret tt
  else
    for_each active show_latest ;;
    match keys with
    | [] => raise KeyboardInterrupt
    | key :: keys' =>
        in_world (emit (EvWaitKey key)) ;;
        if is_quit_key key then in_world (print MsgQuitKey)
        else process_loop keys' overall_start duration active
    end.

Definition process_streamers (keys : list Z) (active : list nat)
    (try_times : Z) (try_interval duration : Q) : Main unit :=
  in_world (print MsgThreadCount) ;;
  in_world (print MsgThreadList) ;;
  overall_start <- in_world time_time ;;
  process_loop keys overall_start duration active ;;
  in_world (print MsgDurationOver).

Definition decimal (n : nat) : string :=
  NilEmpty.string_of_uint (Nat.to_uint n).

(** [for idx, url in enumerate(rtsp_urls, start=1): ...] *)
Fixpoint create_streamers (idx : nat) (rtsp_urls : list string)
    : Main (list nat) :=
  match rtsp_urls with
  | [] => ret []
  | url :: rest =>
      o <- in_world
             (__init__ url
                ("Stream_" ++ last_segment url ++ "_id=" ++ decimal idx)) ;;
      sid <- new_object o ;;
      sids <- create_streamers (S idx) rest ;;
      ret (sid :: sids)
  end.

(** [for streamer in all_streamers:
       if streamer.connect_server(try_times=2, try_interval=2): ...] *)
Fixpoint connect_all (streamers : list nat) : Main (list nat) :=
  match streamers with
  | [] => ret []
  | sid :: rest =>
      ok <- call sid (connect_server 2 (2 # 1)) ;;
      active <- connect_all rest ;;
      ret (if ok then sid :: active else active)
  end.

(** One line of the final report. *)
Definition report (end_time : Q) (sid : nat) : Main unit :=
  self <- call sid get_self ;;
  match first_start_time self with
  | None => in_world (print (MsgNeverConnected (window_name self)))
  | Some t0 =>
      if Qeq_bool t0 0 then
        in_world (print (MsgNeverConnected (window_name self)))
      else
        let total_time := (end_time - t0)%Q in
        in_world (print (MsgAverageFps (window_name self)
                           (fps_of (frame_count self) total_time)
                           (frame_count self)))
  end.

Definition main (rtsp_urls : list string) (keys : list Z) : Main unit :=
  all_streamers <- create_streamers 1 rtsp_urls ;;
  active_streamers <- connect_all all_streamers ;;
  try_finally
    (try_except
       (process_streamers keys active_streamers 2 (2 # 1) (300 # 1))
       is_KeyboardInterrupt
       (fun _ => in_world (print MsgInterrupt)))
    (end_time <- in_world time_time ;;
     in_world (print MsgReportHeader) ;;
     for_each all_streamers (report end_time) ;;
     for_each all_streamers (fun sid => call sid release) ;;
     in_world (emit EvDestroyAllWindows)).

End Way1.

(** ** [run_ffmpeg_oop_multi_thread_report_way2.py]: minimal threaded reader *)

Module Way2.

Record VideoStream : Type := {
  url : string;
  cap : handle;
  frame : option Frame;
  stopped : bool
}.

Definition Method (A : Type) : Type := Prog (VideoStream * World) A.

Definition set_frame (f : option Frame) (s : VideoStream) : VideoStream :=
  {| url := url s; cap := cap s; frame := f; stopped := stopped s |}.

Definition set_stopped (b : bool) (s : VideoStream) : VideoStream :=
  {| url := url s; cap := cap s; frame := frame s; stopped := b |}.

(** [VideoStream(url)] *)
Definition __init__ (u : string) : Prog World VideoStream :=
  c <- VideoCapture u ;;
  if negb (hopen c) then
    print (MsgOpenFailed u) ;;
    sys_exit
  else
    emit (EvSpawn u) ;;
    ret {| url := u; cap := c; frame := None; stopped := false |}.

(** The body of [while not self.stopped] in [update]. *)
Definition update_iteration : Method unit :=
  self <- get_self ;;
  r <- in_world (cap_read (cap self)) ;;
  if fst r then set_self (set_frame (snd r)) else ret tt.

Inductive loop_status : Type :=
| Returned
| StillLooping.

(** [update], observed for at most [fuel] iterations. *)
Fixpoint update (fuel : nat) : Method loop_status :=
  self <- get_self ;;
  if stopped self then ret Returned
  else
    match fuel with
    | O => ret StillLooping
    | S fuel' => update_iteration ;; update fuel'
    end.

Definition read : Method (option Frame) :=
  self <- get_self ;;
  ret (frame self).

Definition stop : Method unit :=
  set_self (set_stopped true) ;;
  self <- get_self ;;
  in_world (cap_release (cap self)).

(** [streams = [VideoStream(url) for url in rtsp_urls]] *)
Fixpoint create_streams (rtsp_urls : list string)
    : Prog (list VideoStream * World) (list nat) :=
  match rtsp_urls with
  | [] => ret []
  | u :: rest =>
      o <- in_world (__init__ u) ;;
      sid <- new_object o ;;
      sids <- create_streams rest ;;
      ret (sid :: sids)
  end.

End Way2.

(** ** Vocabulary of the statements *)

Definition with_trace (t : list event) (w : World) : World :=
  {| cameras := cameras w; next_id := next_id w; clock := clock w;
     ticks := ticks w; trace := t |}.

(** What one call of [Way1.release] appends to the trace before it looks at
    the handle: a join with the one-second timeout when a capture thread was
    ever started. *)
Definition join_of (s : Way1.RTSPStreamer) : list event :=
  match Way1.thread s with
  | Some _ => [EvJoin (1 # 1)]
  | None => []
  end.

(** What closing the handle held in [c] appends to the trace. *)
Definition close_of (c : option handle) : list event :=
  match c with
  | Some h => [EvClose h]
  | None => []
  end.

Definition held (c : option handle) : nat :=
  match c with
  | Some _ => 1
  | None => 0
  end.

Definition released (s : Way1.RTSPStreamer) : Way1.RTSPStreamer :=
  Way1.set_cap None (Way1.set_stopped true s).

Definition multi_released (s : Multi.RTSPstreamer) : Multi.RTSPstreamer :=
  Multi.set_cap None s.

(** An attempt to open [url]: the constructor returned or raised. *)
Definition is_open_attempt (url : string) (e : event) : bool :=
  match e with
  | EvOpen h => bool_decide (hurl h = url)
  | EvOpenRaised u => bool_decide (u = url)
  | _ => false
  end.

(** The world after one [cap.read()] on [c]. *)
Definition after_read (c : handle) (w : World) : World :=
  log (EvRead c (next_read w (hurl c))) (consume_read (hurl c) w).

(** The frame that the next turn of the capture thread publishes, if it
    publishes one: the thread is running, the stop flag is not set, a handle
    is held and the decoder's next answer is [(True, frame)]. *)
Definition capture_publishes (s : Way1.RTSPStreamer) (w : World)
    : option Frame :=
  match Way1.thread s, Way1.stopped s, Way1.cap s with
  | Some Way1.Running, false, Some c =>
      match next_read w (hurl c) with
      | ReadReturns true (Some f) => Some f
      | _ => None
      end
  | _, _, _ => None
  end.

(** Number of publishes by the capture thread along a run of operations. *)
Fixpoint publish_count (ops : list Way1.op) (st : Way1.RTSPStreamer * World)
    : nat :=
  match ops with
  | [] => 0
  | o :: rest =>
      match o, capture_publishes (fst st) (snd st) with
      | Way1.OpCapture, Some _ => 1
      | _, _ => 0
      end + publish_count rest (Way1.exec_op o st)
  end.

(** ** Concrete inputs *)

Definition frame_a : Frame := decoded_frame [Byte.x01; Byte.x02; Byte.x03].

Definition frame_b : Frame := decoded_frame [Byte.x0a; Byte.x0b; Byte.x0c].

(** A clock that shows one more second at every reading. *)
Definition steady_clock (n : nat) : Q := inject_Z (Z.of_nat n).

Definition world_of (cams : list (string * Camera)) : World :=
  {| cameras := list_to_map cams; next_id := 0; clock := steady_clock;
     ticks := 0; trace := [] |}.

Definition url_101 : string := "rtsp://camera/Streaming/Channels/101".

Definition url_201 : string := "rtsp://camera/Streaming/Channels/201".

(** A camera that opens, delivers [frame_a], fails one read and then
    delivers [frame_b]. *)
Definition hiccup_camera : Camera :=
  {| opens := [Opened true];
     reads := [ReadReturns true (Some frame_a); ReadReturns false None;
               ReadReturns true (Some frame_b)] |}.

(** The threaded streamer right after [connect_server(2, 2)] succeeded on
    [hiccup_camera]. *)
Definition connected_streamer : Way1.RTSPStreamer * World :=
  Eval vm_compute in
    Way1.exec_ops [Way1.OpConnect 2 (2 # 1)]
      (Way1.fresh url_101 "Stream_101_id=1",
       world_of [(url_101, hiccup_camera)]).

Definition handle_0 : handle := {| hid := 0; hurl := url_101; hopen := true |}.

(** A minimal threaded stream on a camera whose next read fails. *)
Definition way2_stream : Way2.VideoStream * World :=
  ({| Way2.url := url_101; Way2.cap := handle_0; Way2.frame := None;
      Way2.stopped := false |},
   world_of [(url_101,
              {| opens := [];
                 reads := [ReadReturns false None;
                           ReadReturns true (Some frame_b)] |})]).

Definition sleep_count : list event -> nat := count_events is_sleep.

Definition kept (b : bool) : nat := if b then 1 else 0.

(** The bookkeeping of a run of [connect_server] that was allowed [n]
    attempts on [url], returned [b] and appended [suf] to the trace: at most
    [n] attempts, all [n] of them when it failed; one sleep after every
    attempt that failed, each of [t] seconds; and every capture object built
    is accounted for: released, or left unreleased because its first read
    raised, or kept as [self.cap] on success. *)
Definition connect_accounting (n : nat) (url : string) (t : Q) (b : bool)
    (suf : list event) : Prop :=
  attempt_count suf <= n
  /\ (b = false -> attempt_count suf = n)
  /\ attempt_count suf = sleep_count suf + kept b
  /\ Forall (fun e => is_sleep e = true -> e = EvSleep t) suf
  /\ open_count suf = close_count suf + raised_read_count suf + kept b
  /\ (n <> 0 ->
      exists e rest, suf = e :: rest /\ is_open_attempt url e = true).

(** The streamer a ghost event of the supervisor loop is about. *)
Definition ghost_sid (e : event) : option nat :=
  match e with
  | EvPoll sid _ | EvReconnect sid _ | EvRemove sid => Some sid
  | _ => None
  end.

Definition is_ghost (e : event) : bool :=
  match ghost_sid e with
  | Some _ => true
  | None => false
  end.

(** What the supervisor loop did, in order: the ghost events of a trace. *)
Definition supervisor_log (t : list event) : list event :=
  List.filter is_ghost t.

(** A program that takes no decision of the supervisor loop. *)
Definition silent {X A : Type} (m : Prog (X * World) A) : Prop :=
  forall st : X * World,
    supervisor_log (trace (snd (snd (m st)))) =
      supervisor_log (trace (snd st)).

Definition silent_call {A : Type} (m : Prog World A) : Prop :=
  forall w : World,
    supervisor_log (trace (snd (m w))) = supervisor_log (trace w).

(** Once a streamer is removed, the log never mentions it again. *)
Definition never_after_removal (l : list event) : Prop :=
  forall (l1 : list event) (sid : nat) (l2 : list event),
    l = l1 ++ EvRemove sid :: l2 ->
    Forall (fun e => ghost_sid e <> Some sid) l2.

(** A reconnect that fails is followed at once by the removal. *)
Definition failed_reconnect_removes (l : list event) : Prop :=
  forall (l1 : list event) (sid : nat) (l2 : list event),
    l = l1 ++ EvReconnect sid false :: l2 ->
    exists l3, l2 = EvRemove sid :: l3.

(** Every removal comes right after a failed reconnect of that streamer. *)
Definition removal_only_after_failure (l : list event) : Prop :=
  forall (l1 : list event) (sid : nat) (l2 : list event),
    l = l1 ++ EvRemove sid :: l2 ->
    exists l0, l1 = l0 ++ [EvReconnect sid false].

Definition is_remove_of (sid : nat) (e : event) : bool :=
  match e with
  | EvRemove sid' => bool_decide (sid' = sid)
  | _ => false
  end.

Definition removals_of (sid : nat) : list event -> nat :=
  count_events (is_remove_of sid).

(** The log of one body of the supervisor loop that removes nothing. *)
Definition quiet_body_log (sid : nat) (l : list event) : Prop :=
  l = [] \/ l = [EvPoll sid true] \/ l = [EvPoll sid false]
  \/ l = [EvPoll sid false; EvReconnect sid true].

(** The log of one body that ends in the removal of the streamer. *)
Definition removal_log (sid : nat) : list event :=
  [EvPoll sid false; EvReconnect sid false; EvRemove sid].

(** A log of the supervisor loop run on the active list [active]: it speaks
    of streamers of that list only, a failed reconnect is followed at once by
    the removal, a removal only comes that way, and a removed streamer is
    never mentioned again. *)
Definition supervisor_log_ok (active : list nat) (l : list event) : Prop :=
  Forall (fun e => exists sid, ghost_sid e = Some sid /\ sid ∈ active) l
  /\ failed_reconnect_removes l
  /\ removal_only_after_failure l
  /\ never_after_removal l.

(** A camera that opens once, delivers two frames and then is gone, and a
    camera that keeps delivering. *)
Definition dying_camera : Camera :=
  {| opens := [Opened true];
     reads := [ReadReturns true (Some frame_a); ReadReturns true (Some frame_a)] |}.

Definition steady_camera : Camera :=
  {| opens := [Opened true];
     reads := replicate 8 (ReadReturns true (Some frame_b)) |}.

Definition two_cameras : World :=
  world_of [(url_101, dying_camera); (url_201, steady_camera)].

(** The store and the world of [Multi.main] right after both streamers of
    [two_cameras] are created and initialised. *)
Definition two_streamers : list Multi.RTSPstreamer * World :=
  Eval vm_compute in
    snd (bind (Multi.create_streamers [url_101; url_201]) Multi.initialize
           ([], two_cameras)).

(** A camera whose first capture object raises on its first read and whose
    second one answers [(False, None)]. *)
Definition raising_camera : Camera :=
  {| opens := [Opened true; Opened true];
     reads := [ReadRaises; ReadReturns false None] |}.

Definition handle_1 : handle := {| hid := 1; hurl := url_101; hopen := true |}.



(** What the supervisor loop of [Multi.main] leaves in the trace when no
    streamer is active: one [waitKey] per pass until the quit key, or the
    interrupt message when the keys are over. *)
Fixpoint idle_trace (keys : list Z) : list event :=
  match keys with
  | [] => [EvPrint MsgInterrupt]
  | key :: keys' =>
      EvWaitKey key ::
        (if is_quit_key key then [EvPrint MsgQuitKey] else idle_trace keys')
  end.

(** ** The frame slot under both threads

    The capture thread ([_capture_loop], lines 94-100) and the poll loop of
    the main thread ([process_streamers], lines 137-139) meet on the fields
    [latest_frame] and [latest_timestamp] of one streamer, both under
    [self.lock].  Each thread is a small program counter machine that
    executes one statement per step; a scheduler picks the thread.  A thread
    that waits for the lock does not move. *)

Module SlotProtocol.

Inductive thread_id : Type :=
| Capture
| Poll.

(** Where the capture thread stands; [f] is its local variable [frame]. *)
Inductive capture_pc : Type :=
| CTest                     (* while not self.stopped *)
| CRead                     (* ret, frame = self.cap.read() *)
| CAcquire (f : Frame)      (* with self.lock: *)
| CSetFrame (f : Frame)     (*   self.latest_frame = frame *)
| CSetTime (f : Frame)      (*   self.latest_timestamp = time.time() *)
| CRelease                  (* end of the with block *)
| CCount                    (* self.frame_count += 1 *)
| CDone.                    (* the loop is over or the thread died *)

(** Where the poll loop stands on this streamer; [f] and [t] are its local
    variables [frame] and [frame_time]. *)
Inductive poll_pc : Type :=
| PAcquire                                  (* with streamer.lock: *)
| PGetFrame                                 (*   frame = streamer.latest_frame *)
| PGetTime (f : option Frame)               (*   frame_time = streamer.latest_timestamp *)
| PRelease (f : option Frame) (t : option Q). (* end of the with block *)

Record Config : Type := {
  latest_frame : option Frame;
  latest_timestamp : option Q;
  frame_count : nat;
  stopped : bool;
  lock : option thread_id;
  cpc : capture_pc;
  ppc : poll_pc;
  decoder : list read_outcome;     (* what the next reads will answer *)
  now : nat -> Q;                  (* the clock *)
  tick : nat;
  observed : list (option Frame * option Q);  (* what the poll loop read *)
  published : list (Frame * Q)     (* ghost: what the capture thread wrote *)
}.

(** What the scheduler can pick: a step of a thread, or the main thread
    setting [self.stopped = True] (the first line of [release]). *)
Inductive action : Type :=
| Step (who : thread_id)
| Stop.

Definition capture_step (c : Config) : Config :=
  match cpc c with
  | CTest =>
      {| latest_frame := latest_frame c; latest_timestamp := latest_timestamp c;
         frame_count := frame_count c; stopped := stopped c; lock := lock c;
         cpc := if stopped c then CDone else CRead; ppc := ppc c;
         decoder := decoder c; now := now c; tick := tick c;
         observed := observed c; published := published c |}
  | CRead =>
      {| latest_frame := latest_frame c; latest_timestamp := latest_timestamp c;
         frame_count := frame_count c; stopped := stopped c; lock := lock c;
         cpc := match decoder c with
                | ReadReturns true (Some f) :: _ => CAcquire f
                | ReadRaises :: _ => CDone
                | _ => CTest
                end;
         ppc := ppc c; decoder := tail (decoder c); now := now c;
         tick := tick c; observed := observed c; published := published c |}
  | CAcquire f =>
      match lock c with
      | Some _ => c
      | None =>
          {| latest_frame := latest_frame c;
             latest_timestamp := latest_timestamp c;
             frame_count := frame_count c; stopped := stopped c;
             lock := Some Capture; cpc := CSetFrame f; ppc := ppc c;
             decoder := decoder c; now := now c; tick := tick c;
             observed := observed c; published := published c |}
      end
  | CSetFrame f =>
      {| latest_frame := Some f; latest_timestamp := latest_timestamp c;
         frame_count := frame_count c; stopped := stopped c; lock := lock c;
         cpc := CSetTime f; ppc := ppc c; decoder := decoder c; now := now c;
         tick := tick c; observed := observed c; published := published c |}
  | CSetTime f =>
      {| latest_frame := latest_frame c;
         latest_timestamp := Some (now c (tick c));
         frame_count := frame_count c; stopped := stopped c; lock := lock c;
         cpc := CRelease; ppc := ppc c; decoder := decoder c; now := now c;
         tick := S (tick c); observed := observed c;
         published := published c ++ [(f, now c (tick c))] |}
  | CRelease =>
      {| latest_frame := latest_frame c; latest_timestamp := latest_timestamp c;
         frame_count := frame_count c; stopped := stopped c; lock := None;
         cpc := CCount; ppc := ppc c; decoder := decoder c; now := now c;
         tick := tick c; observed := observed c; published := published c |}
  | CCount =>
      {| latest_frame := latest_frame c; latest_timestamp := latest_timestamp c;
         frame_count := frame_count c + 1; stopped := stopped c; lock := lock c;
         cpc := CTest; ppc := ppc c; decoder := decoder c; now := now c;
         tick := tick c; observed := observed c; published := published c |}
  | CDone => c
  end.

Definition poll_step (c : Config) : Config :=
  match ppc c with
  | PAcquire =>
      match lock c with
      | Some _ => c
      | None =>
          {| latest_frame := latest_frame c;
             latest_timestamp := latest_timestamp c;
             frame_count := frame_count c; stopped := stopped c;
             lock := Some Poll; cpc := cpc c; ppc := PGetFrame;
             decoder := decoder c; now := now c; tick := tick c;
             observed := observed c; published := published c |}
      end
  | PGetFrame =>
      {| latest_frame := latest_frame c; latest_timestamp := latest_timestamp c;
         frame_count := frame_count c; stopped := stopped c; lock := lock c;
         cpc := cpc c; ppc := PGetTime (latest_frame c);
         decoder := decoder c; now := now c; tick := tick c;
         observed := observed c; published := published c |}
  | PGetTime f =>
      {| latest_frame := latest_frame c; latest_timestamp := latest_timestamp c;
         frame_count := frame_count c; stopped := stopped c; lock := lock c;
         cpc := cpc c; ppc := PRelease f (latest_timestamp c);
         decoder := decoder c; now := now c; tick := tick c;
         observed := observed c; published := published c |}
  | PRelease f t =>
      {| latest_frame := latest_frame c; latest_timestamp := latest_timestamp c;
         frame_count := frame_count c; stopped := stopped c; lock := None;
         cpc := cpc c; ppc := PAcquire; decoder := decoder c; now := now c;
         tick := tick c; observed := observed c ++ [(f, t)];
         published := published c |}
  end.

Definition stop_step (c : Config) : Config :=
  {| latest_frame := latest_frame c; latest_timestamp := latest_timestamp c;
     frame_count := frame_count c; stopped := true; lock := lock c;
     cpc := cpc c; ppc := ppc c; decoder := decoder c; now := now c;
     tick := tick c; observed := observed c; published := published c |}.

Definition act (a : action) (c : Config) : Config :=
  match a with
  | Step Capture => capture_step c
  | Step Poll => poll_step c
  | Stop => stop_step c
  end.

Definition run (schedule : list action) (c : Config) : Config :=
  fold_left (fun c a => act a c) schedule c.

(** The streamer when the capture thread is started: the slot holds what
    [connect_server] put there ([seed]), nobody holds the lock, both threads
    are at the top of their loops. *)
Definition start (seed : option Frame * option Q) (reads : list read_outcome)
    (clk : nat -> Q) (t0 : nat) : Config :=
  {| latest_frame := fst seed; latest_timestamp := snd seed; frame_count := 0;
     stopped := false; lock := None; cpc := CTest; ppc := PAcquire;
     decoder := reads; now := clk; tick := t0; observed := [];
     published := [] |}.

(** The frames the decoder script holds. *)
Definition decoded (reads : list read_outcome) (f : Frame) : Prop :=
  ReadReturns true (Some f) ∈ reads.

(** A whole slot content: the seed, or a frame and the timestamp written
    with it by one iteration of the capture loop. *)
Definition whole (seed : option Frame * option Q) (pub : list (Frame * Q))
    (slot : option Frame * option Q) : Prop :=
  slot = seed \/ exists f t, slot = (Some f, Some t) /\ (f, t) ∈ pub.

(** The invariant of the protocol. *)
Definition protocol_inv (seed : option Frame * option Q)
    (reads : list read_outcome) (c : Config) : Prop :=
  (* the lock is held by the thread that is inside its with block *)
  match cpc c with
  | CSetFrame _ | CSetTime _ | CRelease => lock c = Some Capture
  | _ => lock c <> Some Capture
  end
  /\ match ppc c with
     | PAcquire => lock c <> Some Poll
     | _ => lock c = Some Poll
     end
  (* outside the capture thread's writes the slot is whole *)
  /\ match cpc c with
     | CSetTime f => latest_frame c = Some f
     | _ => whole seed (published c) (latest_frame c, latest_timestamp c)
     end
  (* what the poll loop has copied so far is the slot *)
  /\ match ppc c with
     | PGetTime f => f = latest_frame c
     | PRelease f t => f = latest_frame c /\ t = latest_timestamp c
     | _ => True
     end
  (* what it has read is whole *)
  /\ Forall (whole seed (published c)) (observed c)
  (* frames come from the decoder *)
  /\ (forall f, match cpc c with
                | CAcquire f' | CSetFrame f' | CSetTime f' => f = f'
                | _ => False
                end -> decoded reads f)
  /\ (forall f t, (f, t) ∈ published c -> decoded reads f)
  /\ (forall r, r ∈ decoder c -> r ∈ reads).

End SlotProtocol.

(** A schedule in which the poll loop reads the seed, the capture thread
    publishes [frame_b], and the poll loop reads again. *)
Definition sample_schedule : list SlotProtocol.action :=
  replicate 4 (SlotProtocol.Step SlotProtocol.Poll)
  ++ replicate 7 (SlotProtocol.Step SlotProtocol.Capture)
  ++ replicate 4 (SlotProtocol.Step SlotProtocol.Poll).

Definition sample_reads : list read_outcome :=
  [ReadReturns true (Some frame_b); ReadReturns false None].

Definition sample_seed : option Frame * option Q :=
  (Some frame_a, Some (1 # 1)).

(** A camera that opens and delivers exactly one frame. *)
Definition one_frame_camera : Camera :=
  {| opens := [Opened true]; reads := [ReadReturns true (Some frame_a)] |}.

(** [stop()] called [n] times in a row. *)
Fixpoint stop_times (n : nat) : Way2.Method unit :=
  match n with
  | O => ret tt
  | S n' => bind Way2.stop (fun _ => stop_times n')
  end.

(** Whether a string holds a slash. *)
Fixpoint has_slash (s : string) : bool :=
  match s with
  | EmptyString => false
  | String c rest => Ascii.eqb c "/"%char || has_slash rest
  end.

(** Calls to the decoder. *)
Definition is_decoder_event (e : event) : bool :=
  match e with
  | EvOpen _ | EvOpenRaised _ | EvRead _ _ | EvClose _ => true
  | _ => false
  end.

(** [w'] comes after [w] without any call to the decoder in between. *)
Definition decoder_untouched (w w' : World) : Prop :=
  cameras w' = cameras w
  /\ next_id w' = next_id w
  /\ exists suf, trace w' = trace w ++ suf
                 /\ count_events is_decoder_event suf = 0.

(** A program that only looks: it writes no field of any object of its
    state and does not call the decoder. *)
Definition onlooker {X A : Type} (m : Prog (X * World) A) : Prop :=
  forall st : X * World,
    (m st).2.1 = st.1 /\ decoder_untouched st.2 (m st).2.2.

(** Frames written to the slot by the capture thread that it has not
    counted yet. *)
Definition in_flight (pc : SlotProtocol.capture_pc) : nat :=
  match pc with
  | SlotProtocol.CRelease | SlotProtocol.CCount => 1
  | _ => 0
  end.

(** Whether a thread is inside its [with self.lock] block. *)
Definition capture_inside (pc : SlotProtocol.capture_pc) : bool :=
  match pc with
  | SlotProtocol.CSetFrame _ | SlotProtocol.CSetTime _
  | SlotProtocol.CRelease => true
  | _ => false
  end.

Definition poll_inside (pc : SlotProtocol.poll_pc) : bool :=
  match pc with
  | SlotProtocol.PAcquire => false
  | _ => true
  end.

(** A program of [main] that neither creates nor drops objects. *)
Definition keeps_store_size {S A : Type} (m : Prog (list S * World) A) : Prop :=
  forall st : list S * World, length (m st).2.1 = length st.1.

(** The ghost events of [l] all speak of streamers that satisfy [P]. *)
Definition about (P : nat -> Prop) (l : list event) : Prop :=
  Forall (fun e => exists s : nat, ghost_sid e = Some s /\ P s) l.

(** The slot of a streamer is written in pairs: where it holds a frame it
    holds the timestamp of that frame. *)
Definition slot_paired (s : Way1.RTSPStreamer) : Prop :=
  Way1.latest_frame s = None \/ is_Some (Way1.latest_timestamp s).

(** What follows a failed connect attempt: [time.sleep(try_interval)], then
    the rest of the loop. *)
Definition after_sleep {S A : Type} (t : Q) (k : Prog (S * World) A)
    : Prog (S * World) A :=
  in_world (sleep t) ;; k.

(** [f'] is the array [f] after some more [cv2.putText] calls. *)
Definition drawn_over (f f' : Frame) : Prop :=
  pixels f' = pixels f /\ drawn f `prefix_of` drawn f'.

(** [s'] is the streamer [s] except for texts drawn on the array in its
    slot: every field has its value, and the slot refers to the same array,
    with the same decoded bytes. *)
Definition only_drawn_on (s s' : Way1.RTSPStreamer) : Prop :=
  Way1.set_latest_frame None s' = Way1.set_latest_frame None s
  /\ match Way1.latest_frame s, Way1.latest_frame s' with
     | None, None => True
     | Some f, Some f' => drawn_over f f'
     | _, _ => False
     end.

(** A program of the threaded [main] that writes no field of any streamer,
    only draws on the arrays in the slots, and does not call the decoder. *)
Definition painter {A : Type} (m : Way1.Main A) : Prop :=
  forall st : list Way1.RTSPStreamer * World,
    Forall2 only_drawn_on st.1 (m st).2.1
    /\ decoder_untouched st.2 (m st).2.2.

(** The four texts one pass of the display loop draws on a frame. *)
Definition pass_texts (fps : fps_value) (latency : Q) (window : string)
    (frames : nat) (timestamp : Q) : list overlay_text :=
  [TxtFps fps; TxtLatency latency; TxtFrameCount window frames;
   TxtTime timestamp].

(** The streamer and the world at the moment the poll loop of [Multi.main]
    calls [run(2, 2)] to reconnect: after the [read_next_frame] that failed,
    the message and [release()]. *)
Definition before_reconnect (sid : nat) (st : Multi.RTSPstreamer * World)
    : Multi.RTSPstreamer * World :=
  let st1 := (Multi.read_next_frame st).2 in
  (Multi.release
     (st1.1,
      log (EvPrint (MsgStreamRetry (Multi.window_name st1.1)))
        (log (EvPoll sid false) st1.2))).2.

(** A read of the decoder raised somewhere in this stretch of the trace. *)
Definition read_raised (suf : list event) : Prop :=
  exists c, EvRead c ReadRaises ∈ suf.

(** A program that keeps the invariant [I] of its state, only appends to the
    trace, does not exit, and ends abnormally only with the exception of a
    decoder read that raised during its run; when it returns, the value
    satisfies [Q]. *)
Definition contained {X A : Type} (I : X -> Prop) (Q : A -> Prop)
    (m : Prog (X * World) A) : Prop :=
  forall (x : X) (w : World),
    I x ->
    exists r x' w' suf,
      m (x, w) = (r, (x', w'))
      /\ I x'
      /\ trace w' = trace w ++ suf
      /\ match r with
         | Ok a => Q a
         | Raised e => e = DecoderError /\ read_raised suf
         | Exited => False
         end.

(** A camera that opens and delivers one frame, and whose next read
    raises. *)
Definition late_raising_camera : Camera :=
  {| opens := [Opened true];
     reads := [ReadReturns true (Some frame_a); ReadRaises] |}.

(** * Properties *)

(** Unfolds the plumbing of [Prog] so that a program becomes a plain
    function of its state. *)
Ltac run_prog :=
  cbv beta iota delta
    [bind ret raise sys_exit in_world get_self set_self emit print sleep
     cap_release try_except try_finally fst snd].

Lemma count_events_app (p : event -> bool) (t u : list event) :
  count_events p (t ++ u) = count_events p t + count_events p u.
Proof. unfold count_events. by rewrite List.filter_app, length_app. Qed.

Lemma close_count_app (t u : list event) :
  close_count (t ++ u) = close_count t + close_count u.
Proof. apply count_events_app. Qed.

(** ** [release] *)

Section Release.

Lemma way1_release_run (s : Way1.RTSPStreamer) (w : World) :
  Way1.release (s, w) =
    (Ok tt,
     (released s,
      with_trace (trace w ++ join_of s ++ close_of (Way1.cap s)) w)).
Proof.
  unfold Way1.release, released, join_of, close_of. run_prog.
  destruct s as [u n c f k lf lt st th], w as [cm ni cl ti tr].
  destruct th, c; cbn; unfold with_trace, log; cbn;
    rewrite <- ?app_assoc, ?app_nil_r; reflexivity.
Qed.

Lemma way1_release_times_run (n : nat) (s : Way1.RTSPStreamer) (w : World) :
  Way1.release_times (S n) (s, w) =
    (Ok tt,
     (released s,
      with_trace
        (trace w ++ join_of s ++ close_of (Way1.cap s)
           ++ concat (replicate n (join_of s))) w)).
Proof.
  revert s w. induction n as [|n IH]; intros s w.
  - cbn [Way1.release_times]. unfold bind. rewrite way1_release_run.
    cbn. by rewrite app_nil_r.
  - change (Way1.release_times (S (S n)))
      with (bind Way1.release (fun _ => Way1.release_times (S n))).
    unfold bind at 1. rewrite way1_release_run, IH.
    f_equal. f_equal. unfold with_trace. cbn.
    rewrite <- !app_assoc. reflexivity.
Qed.

Lemma multi_release_run (s : Multi.RTSPstreamer) (w : World) :
  Multi.release (s, w) =
    (Ok tt,
     (multi_released s, with_trace (trace w ++ close_of (Multi.cap s)) w)).
Proof.
  unfold Multi.release, multi_released, close_of. run_prog.
  destruct s as [u n c], w as [cm ni cl ti tr].
  destruct c; cbn; unfold with_trace, log; cbn;
    rewrite ?app_nil_r; reflexivity.
Qed.

Lemma multi_release_times_run (n : nat) (s : Multi.RTSPstreamer) (w : World) :
  Multi.release_times (S n) (s, w) =
    (Ok tt,
     (multi_released s, with_trace (trace w ++ close_of (Multi.cap s)) w)).
Proof.
  revert s w. induction n as [|n IH]; intros s w.
  - cbn [Multi.release_times]. unfold bind. rewrite multi_release_run.
    reflexivity.
  - change (Multi.release_times (S (S n)))
      with (bind Multi.release (fun _ => Multi.release_times (S n))).
    unfold bind at 1. rewrite multi_release_run, IH.
    f_equal. f_equal. unfold with_trace. cbn.
    by rewrite app_nil_r.
Qed.

Lemma close_count_join_of (s : Way1.RTSPStreamer) : close_count (join_of s) = 0.
Proof. unfold join_of. by destruct (Way1.thread s). Qed.

Lemma close_count_joins (n : nat) (s : Way1.RTSPStreamer) :
  close_count (concat (replicate n (join_of s))) = 0.
Proof.
  induction n as [|n IH]; [reflexivity|].
  cbn [replicate concat]. by rewrite close_count_app, IH, close_count_join_of.
Qed.

Lemma close_count_close_of (c : option handle) :
  close_count (close_of c) = held c.
Proof. by destruct c. Qed.

(** X16. Calls of [release()] alone are idempotent in both variants that
    have it.  Called any number [S n] of times in a row from any state of
    the streamer, it never raises; it leaves the streamer in the state one
    call leaves it in (stop flag set, no handle held); in the threaded
    variant every call joins the capture thread, when there is one, with the
    one-second timeout; and these calls close the handle that was held once,
    in the first call, and close nothing when none was held.  (A release
    made before these calls, on a handle the streamer still holds, is not
    undone by them.) *)
Theorem release_idempotent :
  (forall (n : nat) (s : Way1.RTSPStreamer) (w : World),
      let r := Way1.release_times (S n) (s, w) in
      fst r = Ok tt
      /\ fst (snd r) = fst (snd (Way1.release (s, w)))
      /\ Way1.stopped (fst (snd r)) = true
      /\ Way1.cap (fst (snd r)) = None
      /\ trace (snd (snd r)) =
           trace w ++ join_of s ++ close_of (Way1.cap s)
             ++ concat (replicate n (join_of s))
      /\ close_count (trace (snd (snd r))) =
           close_count (trace w) + held (Way1.cap s))
  /\ (forall (n : nat) (s : Multi.RTSPstreamer) (w : World),
      let r := Multi.release_times (S n) (s, w) in
      fst r = Ok tt
      /\ snd r = snd (Multi.release (s, w))
      /\ Multi.cap (fst (snd r)) = None
      /\ trace (snd (snd r)) = trace w ++ close_of (Multi.cap s)
      /\ close_count (trace (snd (snd r))) =
           close_count (trace w) + held (Multi.cap s)).
Proof.
  split; intros n s w r; subst r.
  - rewrite way1_release_times_run, way1_release_run. cbn [fst snd trace with_trace].
    repeat split.
    rewrite !close_count_app, close_count_join_of, close_count_joins,
      close_count_close_of. lia.
  - rewrite multi_release_times_run, multi_release_run. cbn [fst snd trace with_trace].
    repeat split.
    by rewrite close_count_app, close_count_close_of.
Qed.

End Release.

(** ** [read_next_frame] without a handle *)

(** C10. [read_next_frame()] on a streamer that holds no handle returns
    [(False, None)], raises nothing and touches neither the streamer nor the
    decoder; a streamer that never connected and a streamer that has been
    released are in that state. *)
Theorem read_next_frame_without_handle :
  (forall (self : Multi.RTSPstreamer) (w : World),
      Multi.cap self = None ->
      Multi.read_next_frame (self, w) = (Ok (false, None), (self, w)))
  /\ (forall url window : string, Multi.cap (Multi.__init__ url window) = None)
  /\ (forall (self : Multi.RTSPstreamer) (w : World),
        Multi.cap (fst (snd (Multi.release (self, w)))) = None).
Proof.
  split; [|split].
  - intros self w Hcap. unfold Multi.read_next_frame. run_prog.
    by rewrite Hcap.
  - reflexivity.
  - intros self w. by rewrite multi_release_run.
Qed.

Lemma read_next_frame_without_handle_witness :
  let self := Multi.__init__ "rtsp://camera/101" "Stream_101" in
  let w := {| cameras := ∅; next_id := 0; clock := fun _ => 0%Q; ticks := 0;
              trace := [] |} in
  Multi.cap self = None
  /\ Multi.read_next_frame (self, w) = (Ok (false, None), (self, w)).
Proof.
  intros self w. split; [reflexivity|].
  apply (proj1 read_next_frame_without_handle self w). reflexivity.
Defined.

(** ** The decoder calls *)

Section Decoder.

Lemma VideoCapture_cases (url : string) (w : World) :
  (exists h w1,
      VideoCapture url w = (Ok h, w1) /\ hurl h = url
      /\ trace w1 = trace w ++ [EvOpen h])
  \/ (exists w1,
      VideoCapture url w = (Raised DecoderError, w1)
      /\ trace w1 = trace w ++ [EvOpenRaised url]).
Proof.
  unfold VideoCapture.
  destruct (opens (camera_of w url)) as [|[|b] rest].
  - left. eexists _, _. repeat split.
  - right. eexists. repeat split.
  - left. eexists _, _. repeat split.
Qed.

Lemma cap_read_cases (c : handle) (w : World) :
  (exists ok frame w1,
      cap_read c w = (Ok (ok, frame), w1)
      /\ next_read w (hurl c) = ReadReturns ok frame
      /\ trace w1 = trace w ++ [EvRead c (ReadReturns ok frame)])
  \/ (exists w1,
      cap_read c w = (Raised DecoderError, w1)
      /\ next_read w (hurl c) = ReadRaises
      /\ trace w1 = trace w ++ [EvRead c ReadRaises]).
Proof.
  unfold cap_read.
  destruct (next_read w (hurl c)) as [|ok frame] eqn:Hnext.
  - right. eexists. repeat split.
    unfold consume_read. by destruct (reads (camera_of w (hurl c))).
  - left. eexists _, _, _. repeat split.
    unfold consume_read. by destruct (reads (camera_of w (hurl c))).
Qed.

(** The [try] block of a connect attempt ends in one of three ways: both
    calls return, the open raises, or the read raises on the capture
    object that was just built. *)
Lemma open_and_read_cases (url : string) (w : World) :
  (exists c ok frame w1,
      open_and_read url w = (Ok (c, (ok, frame)), w1) /\ hurl c = url
      /\ trace w1 = trace w ++ [EvOpen c; EvRead c (ReadReturns ok frame)])
  \/ (exists w1,
      open_and_read url w = (Raised DecoderError, w1)
      /\ trace w1 = trace w ++ [EvOpenRaised url])
  \/ (exists c w1,
      open_and_read url w = (Raised DecoderError, w1) /\ hurl c = url
      /\ trace w1 = trace w ++ [EvOpen c; EvRead c ReadRaises]).
Proof.
  unfold open_and_read, bind.
  destruct (VideoCapture_cases url w) as [(h & w1 & -> & Hu & Ht)|(w1 & -> & Ht)].
  - destruct (cap_read_cases h w1)
      as [(ok & fr & w2 & -> & _ & Ht2)|(w2 & -> & _ & Ht2)].
    + left. exists h, ok, fr, w2. repeat split; [done|].
      by rewrite Ht2, Ht, <- app_assoc.
    + right. right. exists h, w2. repeat split; [done|].
      by rewrite Ht2, Ht, <- app_assoc.
  - right. left. by exists w1.
Qed.

End Decoder.

(** ** Bookkeeping of connect attempts *)

Lemma count_events_cons (p : event -> bool) (e : event) (t : list event) :
  count_events p (e :: t) = (if p e then 1 else 0) + count_events p t.
Proof. unfold count_events. cbn. by destruct (p e). Qed.

Ltac count_trace :=
  unfold attempt_count, open_count, close_count, raised_read_count,
    sleep_count in *;
  rewrite ?count_events_app, ?count_events_cons;
  cbn [is_attempt is_open_event is_close is_raised_read is_sleep].

Section Accounting.

Variables (url : string) (t : Q).

Lemma no_sleep_Forall (post : list event) :
  sleep_count post = 0 ->
  Forall (fun e => is_sleep e = true -> e = EvSleep t) post.
Proof.
  intros Hs. apply Forall_forall. intros e He Hsl. exfalso.
  unfold sleep_count, count_events in Hs.
  assert (Hin : e ∈ List.filter is_sleep post).
  { apply list_elem_of_In, List.filter_In. split; [|done].
    by apply list_elem_of_In. }
  destruct (List.filter is_sleep post); [by apply elem_of_nil in Hin|done].
Qed.

Lemma accounting_step (n : nat) (b : bool) (pre suf : list event) :
  attempt_count pre = 1 ->
  sleep_count pre = 1 ->
  open_count pre = close_count pre + raised_read_count pre ->
  Forall (fun e => is_sleep e = true -> e = EvSleep t) pre ->
  (exists e rest, pre = e :: rest /\ is_open_attempt url e = true) ->
  connect_accounting n url t b suf ->
  connect_accounting (S n) url t b (pre ++ suf).
Proof.
  intros Ha Hs Ho Hf (e & rest & Hpre & He) (Hle & Hall & Hsl & Hfa & Hbal & _).
  unfold connect_accounting.
  unfold attempt_count, sleep_count, open_count, close_count,
    raised_read_count in *.
  rewrite !count_events_app.
  split; [lia|]. split; [intros Hb; specialize (Hall Hb); lia|].
  split; [lia|]. split; [by apply Forall_app|]. split; [lia|].
  intros _. exists e, (rest ++ suf). by rewrite Hpre.
Qed.

Lemma accounting_failed_read (n : nat) (b : bool) (suf : list event)
    (c : handle) (ok : bool) (frame : option Frame) (m : message) :
  hurl c = url ->
  connect_accounting n url t b suf ->
  connect_accounting (S n) url t b
    ([EvOpen c; EvRead c (ReadReturns ok frame); EvPrint m; EvClose c;
      EvSleep t] ++ suf).
Proof.
  intros Hu. apply accounting_step; try reflexivity.
  - repeat constructor; discriminate.
  - eexists _, _. split; [reflexivity|]. by apply bool_decide_eq_true.
Qed.

Lemma accounting_open_raised (n : nat) (b : bool) (suf : list event)
    (m : message) :
  connect_accounting n url t b suf ->
  connect_accounting (S n) url t b
    ([EvOpenRaised url; EvPrint m; EvSleep t] ++ suf).
Proof.
  apply accounting_step; try reflexivity.
  - repeat constructor; discriminate.
  - eexists _, _. split; [reflexivity|]. by apply bool_decide_eq_true.
Qed.

Lemma accounting_read_raised (n : nat) (b : bool) (suf : list event)
    (c : handle) (m : message) :
  hurl c = url ->
  connect_accounting n url t b suf ->
  connect_accounting (S n) url t b
    ([EvOpen c; EvRead c ReadRaises; EvPrint m; EvSleep t] ++ suf).
Proof.
  intros Hu. apply accounting_step; try reflexivity.
  - repeat constructor; discriminate.
  - eexists _, _. split; [reflexivity|]. by apply bool_decide_eq_true.
Qed.

(** The attempt that succeeds, followed by events [post] that are no
    decoder calls and no sleeps. *)
Lemma accounting_success (n : nat) (c : handle) (ok : bool)
    (frame : option Frame) (post : list event) :
  hurl c = url ->
  attempt_count post = 0 -> sleep_count post = 0 -> open_count post = 0 ->
  close_count post = 0 -> raised_read_count post = 0 ->
  connect_accounting (S n) url t true
    ([EvOpen c; EvRead c (ReadReturns ok frame)] ++ post).
Proof.
  intros Hu Ha Hs Ho Hc Hr. unfold connect_accounting.
  unfold attempt_count, sleep_count, open_count, close_count,
    raised_read_count in *.
  rewrite !count_events_app, Ha, Hs, Ho, Hc, Hr. cbn.
  split; [lia|]. split; [done|]. split; [done|]. split.
  - do 2 (constructor; [discriminate|]). by apply no_sleep_Forall.
  - split; [done|]. intros _. eexists _, _. split; [reflexivity|].
    by apply bool_decide_eq_true.
Qed.

Lemma accounting_none (post : list event) :
  attempt_count post = 0 -> sleep_count post = 0 -> open_count post = 0 ->
  close_count post = 0 -> raised_read_count post = 0 ->
  connect_accounting 0 url t false post.
Proof.
  intros Ha Hs Ho Hc Hr. unfold connect_accounting.
  rewrite Ha, Hs, Ho, Hc, Hr. cbn.
  split; [lia|]. split; [done|]. split; [done|]. split; [|done].
  by apply no_sleep_Forall.
Qed.

End Accounting.

(** ** The threaded streamer *)

Section Way1Streamer.

Import Way1.

Lemma after_sleep_ok {S A} (t : Q) (k : Prog (S * World) A) (s : S)
    (w : World) :
  Qle_bool 0 t = true ->
  after_sleep t k (s, w) = k (s, log (EvSleep t) w).
Proof.
  intros Ht. unfold after_sleep, bind, in_world, sleep. by rewrite Ht.
Qed.

Lemma after_sleep_negative {S A} (t : Q) (k : Prog (S * World) A) (s : S)
    (w : World) :
  Qle_bool 0 t = false ->
  after_sleep t k (s, w) = (Raised ValueError, (s, w)).
Proof.
  intros Ht. unfold after_sleep, bind, in_world, sleep. by rewrite Ht.
Qed.

Lemma two_seconds_nonneg : (0 <= 2 # 1)%Q.
Proof. by cbv. Qed.

Lemma Qle_bool_nonneg (t : Q) : (0 <= t)%Q -> Qle_bool 0 t = true.
Proof. apply Qle_bool_iff. Qed.

Lemma Qle_bool_negative (t : Q) : Qle_bool 0 t = false -> (t < 0)%Q.
Proof.
  intros Ht. apply Qnot_le_lt. intros Hle.
  apply Qle_bool_iff in Hle. congruence.
Qed.

(** One more attempt of [connect_server], by the way its [try] block
    ends. *)
Lemma connect_attempts_step (n i : nat) (t : Q) (s : RTSPStreamer)
    (w : World) :
  connect_attempts (S n) i t (s, w) =
    match open_and_read (rtsp_url s) w with
    | (Ok (c, (ok, frame)), w1) =>
        match good_frame ok frame with
        | None =>
            after_sleep t (connect_attempts n (S i) t)
              (s, log (EvClose c)
                    (log (EvPrint (MsgReadRetry (window_name s) (i + 1))) w1))
        | Some f =>
            (bind (set_self (set_cap (Some c)))
               (fun _ =>
                  bind (if bool_decide (first_start_time s = None) then
                          bind (in_world time_time)
                            (fun now => set_self (set_first_start_time (Some now)))
                        else ret tt)
                    (fun _ =>
                       bind (publish f)
                         (fun _ =>
                            bind (set_self (set_stopped false))
                              (fun _ =>
                                 bind (set_self (set_thread (Some Running)))
                                   (fun _ =>
                                      bind (in_world (emit (EvSpawn (window_name s))))
                                        (fun _ => ret true))))))) (s, w1)
        end
    | (Raised e, w1) =>
        if is_Exception e then
          after_sleep t (connect_attempts n (S i) t)
            (s, log (EvPrint (MsgException (window_name s) (i + 1))) w1)
        else (Raised e, (s, w1))
    | (Exited, w1) => (Exited, (s, w1))
    end.
Proof.
  cbn [connect_attempts]. unfold bind at 1. unfold get_self at 1.
  unfold bind at 1. unfold try_except, bind at 1, in_world at 1. cbn [fst snd].
  destruct (open_and_read (rtsp_url s) w) as [[[c [ok frame]]|e|] w1];
    cbn [fst snd].
  - unfold ret at 1. cbv beta iota.
    destruct (good_frame ok frame); [reflexivity|].
    unfold after_sleep.
    unfold bind at 1, in_world at 1, print at 1, emit at 1. cbn [fst snd].
    unfold bind at 1, in_world at 1, cap_release at 1, emit at 1.
    reflexivity.
  - destruct (is_Exception e); [|reflexivity].
    unfold after_sleep.
    unfold bind at 1. unfold bind at 1, in_world at 1, print at 1, emit at 1.
    cbn [fst snd].
    unfold bind at 1, in_world at 1, sleep.
    destruct (Qle_bool 0 t); reflexivity.
  - reflexivity.
Qed.

Lemma connect_attempts_S (n i : nat) (t : Q) (s : RTSPStreamer) (w : World) :
  (0 <= t)%Q ->
  connect_attempts (S n) i t (s, w) =
    match open_and_read (rtsp_url s) w with
    | (Ok (c, (ok, frame)), w1) =>
        match good_frame ok frame with
        | None =>
            connect_attempts n (S i) t
              (s, log (EvSleep t)
                    (log (EvClose c)
                       (log (EvPrint (MsgReadRetry (window_name s) (i + 1))) w1)))
        | Some f =>
            (bind (set_self (set_cap (Some c)))
               (fun _ =>
                  bind (if bool_decide (first_start_time s = None) then
                          bind (in_world time_time)
                            (fun now => set_self (set_first_start_time (Some now)))
                        else ret tt)
                    (fun _ =>
                       bind (publish f)
                         (fun _ =>
                            bind (set_self (set_stopped false))
                              (fun _ =>
                                 bind (set_self (set_thread (Some Running)))
                                   (fun _ =>
                                      bind (in_world (emit (EvSpawn (window_name s))))
                                        (fun _ => ret true))))))) (s, w1)
        end
    | (Raised e, w1) =>
        if is_Exception e then
          connect_attempts n (S i) t
            (s, log (EvSleep t)
                  (log (EvPrint (MsgException (window_name s) (i + 1))) w1))
        else (Raised e, (s, w1))
    | (Exited, w1) => (Exited, (s, w1))
    end.
Proof.
  intros Ht. apply Qle_bool_nonneg in Ht. rewrite connect_attempts_step.
  destruct (open_and_read (rtsp_url s) w) as [[[c [ok frame]]|e|] w1].
  - destruct (good_frame ok frame); [reflexivity|]. by rewrite after_sleep_ok.
  - destruct (is_Exception e); [|reflexivity]. by rewrite after_sleep_ok.
  - reflexivity.
Qed.

(** [connect_server] always returns a boolean, whatever the decoder
    does; it only appends to the trace, keeps the books of
    [connect_accounting], leaves [frame_count] alone and never empties the
    frame slot. *)
Lemma connect_attempts_returns (n i : nat) (t : Q) (s : RTSPStreamer) (w : World) :
  (0 <= t)%Q ->
  exists b s' w' suf,
    connect_attempts n i t (s, w) = (Ok b, (s', w'))
    /\ trace w' = trace w ++ suf
    /\ frame_count s' = frame_count s
    /\ (is_Some (latest_frame s) -> is_Some (latest_frame s'))
    /\ (b = true -> is_Some (latest_frame s') /\ is_Some (cap s'))
    /\ connect_accounting n (rtsp_url s) t b suf.
Proof.
  intros Hnn. revert i s w. induction n as [|n IH]; intros i s w.
  - exists false, s, (log (EvPrint (MsgConnectFailed (window_name s))) w),
      [EvPrint (MsgConnectFailed (window_name s))].
    do 5 (split; [done|]). by apply accounting_none.
  - rewrite connect_attempts_S by done.
    destruct (open_and_read_cases (rtsp_url s) w)
      as [(c & ok & fr & w1 & -> & Hu & Ht)|[(w1 & -> & Ht)|(c & w1 & -> & Hu & Ht)]].
    + destruct (good_frame ok fr) as [f|].
      * run_prog. unfold publish, time_time. run_prog.
        destruct (bool_decide (first_start_time s = None)); cbn;
          exists true; eexists _, _,
            ([EvOpen c; EvRead c (ReadReturns ok fr)] ++ [EvSpawn (window_name s)]);
          (split; [reflexivity|]); cbn [fst snd trace log bump_ticks];
          rewrite Ht, <- app_assoc.
        all: split; [reflexivity|]; split; [done|];
          (split; [by eexists|]); (split; [by split; eexists|]);
          by apply accounting_success.
      * destruct (IH (S i) s
                    (log (EvSleep t) (log (EvClose c)
                       (log (EvPrint (MsgReadRetry (window_name s) (i + 1))) w1))))
          as (b & s' & w' & suf & -> & Ht' & Hfc & Hlf & Hb & Hacc).
        exists b, s', w',
          ([EvOpen c; EvRead c (ReadReturns ok fr);
            EvPrint (MsgReadRetry (window_name s) (i + 1)); EvClose c;
            EvSleep t] ++ suf).
        split; [reflexivity|].
        cbn in Ht'. rewrite Ht, <- !app_assoc in Ht'.
        split; [exact Ht'|]. do 3 (split; [done|]).
        by apply accounting_failed_read.
    + cbn [is_Exception].
      destruct (IH (S i) s
                  (log (EvSleep t)
                     (log (EvPrint (MsgException (window_name s) (i + 1))) w1)))
        as (b & s' & w' & suf & -> & Ht' & Hfc & Hlf & Hb & Hacc).
      exists b, s', w',
        ([EvOpenRaised (rtsp_url s);
          EvPrint (MsgException (window_name s) (i + 1)); EvSleep t] ++ suf).
      split; [reflexivity|].
      cbn in Ht'. rewrite Ht, <- !app_assoc in Ht'.
      split; [exact Ht'|]. do 3 (split; [done|]).
      by apply accounting_open_raised.
    + cbn [is_Exception].
      destruct (IH (S i) s
                  (log (EvSleep t)
                     (log (EvPrint (MsgException (window_name s) (i + 1))) w1)))
        as (b & s' & w' & suf & -> & Ht' & Hfc & Hlf & Hb & Hacc).
      exists b, s', w',
        ([EvOpen c; EvRead c ReadRaises;
          EvPrint (MsgException (window_name s) (i + 1)); EvSleep t] ++ suf).
      split; [reflexivity|].
      cbn in Ht'. rewrite Ht, <- !app_assoc in Ht'.
      split; [exact Ht'|]. do 3 (split; [done|]).
      by apply accounting_read_raised.
Qed.

(** How [connect_server] ends, for every interval: [False] with the
    streamer as before, [True] with the streamer connected, or the
    [ValueError] of a negative sleep after a failed attempt. *)
Lemma way1_connect_outcome (n i : nat) (t : Q) (s : Way1.RTSPStreamer)
    (w : World) :
  let r := Way1.connect_attempts n i t (s, w) in
  (fst r = Ok false /\ r.2.1 = s)
  \/ (fst r = Ok true
      /\ exists c f pre,
          Way1.cap r.2.1 = Some c
          /\ Way1.latest_frame r.2.1 = Some f
          /\ is_Some (Way1.latest_timestamp r.2.1)
          /\ Way1.stopped r.2.1 = false
          /\ Way1.thread r.2.1 = Some Way1.Running
          /\ Way1.frame_count r.2.1 = Way1.frame_count s
          /\ is_Some (Way1.first_start_time r.2.1)
          /\ (forall t0, Way1.first_start_time s = Some t0 ->
                         Way1.first_start_time r.2.1 = Some t0)
          /\ trace r.2.2 =
               pre ++ [EvOpen c; EvRead c (ReadReturns true (Some f));
                       EvSpawn (Way1.window_name s)])
  \/ (fst r = Raised ValueError /\ r.2.1 = s /\ (t < 0)%Q).
Proof.
  revert i s w. induction n as [|n IH]; intros i s w; [by left|].
  cbv zeta in *. rewrite connect_attempts_step.
  assert (Hretry : forall w1,
             let r := after_sleep t (Way1.connect_attempts n (S i) t) (s, w1) in
             (fst r = Ok false /\ r.2.1 = s)
             \/ (fst r = Ok true
                 /\ exists c f pre,
                     Way1.cap r.2.1 = Some c
                     /\ Way1.latest_frame r.2.1 = Some f
                     /\ is_Some (Way1.latest_timestamp r.2.1)
                     /\ Way1.stopped r.2.1 = false
                     /\ Way1.thread r.2.1 = Some Way1.Running
                     /\ Way1.frame_count r.2.1 = Way1.frame_count s
                     /\ is_Some (Way1.first_start_time r.2.1)
                     /\ (forall t0, Way1.first_start_time s = Some t0 ->
                                    Way1.first_start_time r.2.1 = Some t0)
                     /\ trace r.2.2 =
                          pre ++ [EvOpen c; EvRead c (ReadReturns true (Some f));
                                  EvSpawn (Way1.window_name s)])
             \/ (fst r = Raised ValueError /\ r.2.1 = s /\ (t < 0)%Q)).
  { intros w1. cbv zeta. destruct (Qle_bool 0 t) eqn:Ht.
    - rewrite after_sleep_ok by done. apply IH.
    - rewrite after_sleep_negative by done. right. right.
      split; [done|]. split; [done|]. by apply Qle_bool_negative. }
  cbv zeta in Hretry.
  destruct (open_and_read_cases (Way1.rtsp_url s) w)
    as [(c & ok & fr & w1 & -> & Hu & Ht)|[(w1 & -> & Ht)|(c & w1 & -> & Hu & Ht)]].
  - destruct (good_frame ok fr) as [f|] eqn:Hgood; [|apply Hretry].
    right. left. assert (ok = true /\ fr = Some f) as [-> ->].
    { unfold good_frame, read_failed in Hgood.
      destruct ok, fr; cbn in Hgood; by simplify_eq. }
    run_prog. unfold Way1.publish, time_time. run_prog.
    destruct (Way1.first_start_time s) as [t0|] eqn:Hfirst; cbn.
    + split; [done|]. exists c, f, (trace w).
      rewrite Ht, <- app_assoc. cbn. rewrite Hfirst.
      do 7 (split; [done|]). by split.
    + split; [done|]. exists c, f, (trace w).
      rewrite Ht, <- app_assoc. cbn.
      do 7 (split; [done|]). by split.
  - apply Hretry.
  - apply Hretry.
Qed.

(** Whatever the interval, [connect_server] leaves [frame_count] alone and
    never empties the frame slot. *)
Lemma connect_attempts_keeps (n i : nat) (t : Q) (s : RTSPStreamer)
    (w : World) :
  frame_count (connect_attempts n i t (s, w)).2.1 = frame_count s
  /\ (is_Some (latest_frame s) ->
      is_Some (latest_frame (connect_attempts n i t (s, w)).2.1)).
Proof.
  destruct (way1_connect_outcome n i t s w)
    as [[_ ->]|[(_ & c & f & pre & _ & Hf & _ & _ & _ & Hfc & _)|(_ & -> & _)]];
    [done| |done].
  split; [done|]. intros _. rewrite Hf. by eexists.
Qed.

Lemma capture_iteration_run (s : RTSPStreamer) (w : World) (c : handle) :
  cap s = Some c ->
  capture_iteration (s, w) =
    match next_read w (hurl c) with
    | ReadRaises => (Raised DecoderError, (s, after_read c w))
    | ReadReturns true (Some f) =>
        (Ok tt,
         (set_frame_count (frame_count s + 1)
            (set_latest_timestamp
               (Some (clock (after_read c w) (ticks (after_read c w))))
               (set_latest_frame (Some f) s)),
          bump_ticks (after_read c w)))
    | ReadReturns _ _ => (Ok tt, (s, after_read c w))
    end.
Proof.
  intros Hc. unfold capture_iteration. run_prog. rewrite Hc.
  unfold cap_read, after_read.
  destruct (next_read w (hurl c)) as [|[|] [f|]]; reflexivity.
Qed.

(** One turn of the capture thread: it publishes exactly when
    [capture_publishes] says so, and then the counter goes up by one. *)
Lemma capture_step_effect (s : RTSPStreamer) (w : World) :
  match capture_publishes s w with
  | Some f =>
      latest_frame (fst (capture_step (s, w))) = Some f
      /\ frame_count (fst (capture_step (s, w))) = frame_count s + 1
  | None =>
      read_slot (fst (capture_step (s, w))) = read_slot s
      /\ frame_count (fst (capture_step (s, w))) = frame_count s
  end.
Proof.
  unfold capture_publishes, capture_step. cbn [fst snd].
  destruct (thread s) as [[| |]|]; try done.
  destruct (stopped s); [done|].
  destruct (cap s) as [c|] eqn:Hc.
  - rewrite (capture_iteration_run s w c Hc).
    by destruct (next_read w (hurl c)) as [|[|] [f|]].
  - unfold capture_iteration. run_prog. by rewrite Hc.
Qed.

Lemma release_effect (s : RTSPStreamer) (w : World) :
  read_slot (fst (snd (release (s, w)))) = read_slot s
  /\ frame_count (fst (snd (release (s, w)))) = frame_count s.
Proof. by rewrite way1_release_run. Qed.

Lemma exec_op_frame_count (o : op) (st : RTSPStreamer * World) :
  frame_count (fst (exec_op o st)) =
    frame_count (fst st)
    + match o, capture_publishes (fst st) (snd st) with
      | OpCapture, Some _ => 1
      | _, _ => 0
      end.
Proof.
  destruct st as [s w]. destruct o as [n t| |]; cbn [exec_op fst snd].
  - unfold connect_server.
    destruct (connect_attempts_keeps (Z.to_nat n) 0 t s w) as [-> _]. lia.
  - pose proof (capture_step_effect s w) as H.
    destruct (capture_publishes s w); destruct H as [_ ->]; lia.
  - destruct (release_effect s w) as [_ ->]. lia.
Qed.

Lemma exec_op_keeps_frame (o : op) (st : RTSPStreamer * World) :
  is_Some (latest_frame (fst st)) ->
  is_Some (latest_frame (fst (exec_op o st))).
Proof.
  destruct st as [s w]. destruct o as [n t| |]; cbn [exec_op fst snd]; intros Hs.
  - unfold connect_server.
    by apply (connect_attempts_keeps (Z.to_nat n) 0 t s w).
  - pose proof (capture_step_effect s w) as H.
    destruct (capture_publishes s w); destruct H as [H _].
    + rewrite H. by eexists.
    + unfold read_slot in H. by injection H as -> _.
  - destruct (release_effect s w) as [H _].
    unfold read_slot in H. by injection H as -> _.
Qed.

Lemma exec_ops_cons (o : op) (ops : list op) (st : RTSPStreamer * World) :
  exec_ops (o :: ops) st = exec_ops ops (exec_op o st).
Proof. reflexivity. Qed.

(** C2. The publish counter [frame_count] is 0 in the object the
    constructor builds; a turn of the capture thread that publishes a frame
    into the slot adds exactly 1 to it and a turn that does not publish
    leaves it and the slot alone; along any run of operations on the
    streamer ([connect_server], capture turns, [release]) it equals its
    initial value plus the number of publishes by the capture thread, so
    it never decreases.  (The frame with which [connect_server] seeds the
    slot is the validating read, not a publish of the capture loop, and is
    not counted.) *)
Theorem frame_count_counts_publishes :
  (forall (url window : string) (w : World),
      exists w', __init__ url window w = (Ok (fresh url window), w')
                 /\ frame_count (fresh url window) = 0)
  /\ (forall (s : RTSPStreamer) (w : World),
        match capture_publishes s w with
        | Some f =>
            latest_frame (fst (capture_step (s, w))) = Some f
            /\ frame_count (fst (capture_step (s, w))) = frame_count s + 1
        | None =>
            read_slot (fst (capture_step (s, w))) = read_slot s
            /\ frame_count (fst (capture_step (s, w))) = frame_count s
        end)
  /\ (forall (ops : list op) (st : RTSPStreamer * World),
        frame_count (fst (exec_ops ops st)) =
          frame_count (fst st) + publish_count ops st)
  /\ (forall (ops : list op) (st : RTSPStreamer * World),
        frame_count (fst st) <= frame_count (fst (exec_ops ops st))).
Proof.
  assert (Hsum : forall (ops : list op) (st : RTSPStreamer * World),
             frame_count (fst (exec_ops ops st)) =
               frame_count (fst st) + publish_count ops st).
  { induction ops as [|o ops IH]; intros st.
    - cbn. lia.
    - rewrite exec_ops_cons, IH, exec_op_frame_count.
      cbn [publish_count]. lia. }
  split; [|split; [|split]].
  - intros url window w. eexists. split; reflexivity.
  - apply capture_step_effect.
  - exact Hsum.
  - intros ops st. rewrite Hsum. lia.
Qed.

End Way1Streamer.

(** ** The capture loops after a failed read *)

Lemma way2_update_iteration_run (s : Way2.VideoStream) (w : World) :
  Way2.update_iteration (s, w) =
    match next_read w (hurl (Way2.cap s)) with
    | ReadRaises => (Raised DecoderError, (s, after_read (Way2.cap s) w))
    | ReadReturns true frame =>
        (Ok tt, (Way2.set_frame frame s, after_read (Way2.cap s) w))
    | ReadReturns false _ => (Ok tt, (s, after_read (Way2.cap s) w))
    end.
Proof.
  unfold Way2.update_iteration. run_prog. unfold cap_read, after_read.
  destruct (next_read w (hurl (Way2.cap s))) as [|[|] fr]; reflexivity.
Qed.

Lemma capture_loop_returned (n : nat) (st st' : Way1.RTSPStreamer * World) :
  Way1._capture_loop n st = (Ok Way1.Returned, st') ->
  Way1.stopped st'.1 = true.
Proof.
  revert st. induction n as [|n IH]; intros [s w] H;
    cbn [Way1._capture_loop] in H; unfold bind at 1, get_self at 1 in H;
    cbn [fst snd] in H; destruct (Way1.stopped s) eqn:Hstop;
    try (unfold ret in H; by simplify_eq).
  unfold bind at 1 in H.
  destruct (Way1.capture_iteration (s, w)) as [[[]|e|] st1]; [|done..].
  by apply (IH st1).
Qed.

Lemma update_returned (n : nat) (st st' : Way2.VideoStream * World) :
  Way2.update n st = (Ok Way2.Returned, st') ->
  Way2.stopped st'.1 = true.
Proof.
  revert st. induction n as [|n IH]; intros [s w] H;
    cbn [Way2.update] in H; unfold bind at 1, get_self at 1 in H;
    cbn [fst snd] in H; destruct (Way2.stopped s) eqn:Hstop;
    try (unfold ret in H; by simplify_eq).
  unfold bind at 1 in H.
  destruct (Way2.update_iteration (s, w)) as [[[]|e|] st1]; [|done..].
  by apply (IH st1).
Qed.

(** C1, as the code has it.  When a read inside the capture loop returns
    not-ok or a null frame, the loop leaves the streamer as it is (there is
    no Failed state to set) and goes on with its next iteration on the world
    after that read, where it reads again.  The loop returns when it finds
    the stop flag set, and only then: whenever it has returned, the stop
    flag is set.  The same holds for [update] of the minimal variant, whose
    test is on [ret] alone. *)
Theorem capture_loop_after_failed_read :
  (forall (n : nat) (s : Way1.RTSPStreamer) (w : World) (c : handle)
          (ok : bool) (frame : option Frame),
      Way1.stopped s = false ->
      Way1.cap s = Some c ->
      next_read w (hurl c) = ReadReturns ok frame ->
      read_failed ok frame = true ->
      Way1._capture_loop (S n) (s, w) =
        Way1._capture_loop n (s, after_read c w))
  /\ (forall (n : nat) (s : Way1.RTSPStreamer) (w : World),
        Way1.stopped s = true ->
        Way1._capture_loop n (s, w) = (Ok Way1.Returned, (s, w)))
  /\ (forall (n : nat) (s : Way2.VideoStream) (w : World)
             (frame : option Frame),
        Way2.stopped s = false ->
        next_read w (hurl (Way2.cap s)) = ReadReturns false frame ->
        Way2.update (S n) (s, w) =
          Way2.update n (s, after_read (Way2.cap s) w))
  /\ (forall (n : nat) (s : Way2.VideoStream) (w : World),
        Way2.stopped s = true ->
        Way2.update n (s, w) = (Ok Way2.Returned, (s, w)))
  /\ (forall (n : nat) (st st' : Way1.RTSPStreamer * World),
        Way1._capture_loop n st = (Ok Way1.Returned, st') ->
        Way1.stopped st'.1 = true)
  /\ (forall (n : nat) (st st' : Way2.VideoStream * World),
        Way2.update n st = (Ok Way2.Returned, st') ->
        Way2.stopped st'.1 = true).
Proof.
  split; [|split; [|split; [|split; [|split]]]];
    [| | | |apply capture_loop_returned|apply update_returned].
  - intros n s w c ok frame Hrun Hcap Hnext Hfail.
    cbn [Way1._capture_loop]. unfold bind at 1, get_self at 1. cbn [fst].
    rewrite Hrun. unfold bind at 1.
    rewrite (capture_iteration_run s w c Hcap), Hnext.
    unfold read_failed in Hfail.
    destruct ok, frame as [f|]; try discriminate; reflexivity.
  - intros n s w Hstop.
    destruct n; cbn [Way1._capture_loop]; unfold bind, get_self; cbn [fst];
      by rewrite Hstop.
  - intros n s w frame Hrun Hnext.
    cbn [Way2.update]. unfold bind at 1, get_self at 1. cbn [fst].
    rewrite Hrun. unfold bind at 1.
    by rewrite way2_update_iteration_run, Hnext.
  - intros n s w Hstop.
    destruct n; cbn [Way2.update]; unfold bind, get_self; cbn [fst];
      by rewrite Hstop.
Qed.

Lemma capture_loop_after_failed_read_witness :
  Way1._capture_loop 2 (connected_streamer) =
    Way1._capture_loop 1
      (fst (connected_streamer),
       after_read handle_0 (snd (connected_streamer)))
  /\ Way1._capture_loop 3
       (Way1.set_stopped true (fst connected_streamer), snd connected_streamer) =
     (Ok Way1.Returned,
      (Way1.set_stopped true (fst connected_streamer), snd connected_streamer))
  /\ Way2.update 2 way2_stream =
       Way2.update 1
         (fst way2_stream, after_read handle_0 (snd way2_stream))
  /\ Way2.update 3 (Way2.set_stopped true (fst way2_stream), snd way2_stream) =
     (Ok Way2.Returned,
      (Way2.set_stopped true (fst way2_stream), snd way2_stream))
  /\ Way1.stopped (Way1.set_stopped true (fst connected_streamer)) = true
  /\ Way2.stopped (Way2.set_stopped true (fst way2_stream)) = true.
Proof.
  destruct capture_loop_after_failed_read as (H1 & H2 & H3 & H4 & H5 & H6).
  assert (E1 : Way1._capture_loop 3
                 (Way1.set_stopped true (fst connected_streamer),
                  snd connected_streamer) =
               (Ok Way1.Returned,
                (Way1.set_stopped true (fst connected_streamer),
                 snd connected_streamer))) by (apply H2; reflexivity).
  assert (E2 : Way2.update 3
                 (Way2.set_stopped true (fst way2_stream), snd way2_stream) =
               (Ok Way2.Returned,
                (Way2.set_stopped true (fst way2_stream), snd way2_stream)))
    by (apply H4; reflexivity).
  split; [|split; [|split; [|split; [|split]]]].
  - apply (H1 1 _ _ handle_0 false None); vm_compute; reflexivity.
  - exact E1.
  - apply (H3 1 (fst way2_stream) (snd way2_stream) None);
      vm_compute; reflexivity.
  - exact E2.
  - exact (H5 3 _ _ E1).
  - exact (H6 3 _ _ E2).
Defined.

(** C1 as stated fails: on [hiccup_camera] the first read of the capture
    loop fails, and the loop neither returns nor stops reading: it reads
    again, publishes [frame_b] and is still looping. *)
Lemma capture_loop_reads_again_after_failure :
  let r := Way1._capture_loop 2 connected_streamer in
  next_read (snd connected_streamer) url_101 = ReadReturns false None
  /\ fst r = Ok Way1.StillLooping
  /\ Way1.stopped (fst (snd r)) = false
  /\ Way1.latest_frame (fst (snd r)) = Some frame_b
  /\ Way1.frame_count (fst (snd r)) = 1
  /\ drop (length (trace (snd connected_streamer))) (trace (snd (snd r))) =
       [EvRead handle_0 (ReadReturns false None);
        EvRead handle_0 (ReadReturns true (Some frame_b))].
Proof. vm_compute. repeat split. Qed.

(** ** The frame slot across [release] *)

(** C4, as the code has it.  Once the slot of a streamer holds a frame, no
    operation on the streamer empties it again, [release()] included:
    [release()] stops the thread and closes the handle but leaves
    [latest_frame] and [latest_timestamp] as they are, so the slot goes on
    exposing the last frame after the release. *)
Theorem slot_never_emptied :
  (forall (ops : list Way1.op) (st : Way1.RTSPStreamer * World),
      is_Some (Way1.latest_frame (fst st)) ->
      is_Some (Way1.latest_frame (fst (Way1.exec_ops ops st))))
  /\ (forall (s : Way1.RTSPStreamer) (w : World),
        Way1.read_slot (fst (snd (Way1.release (s, w)))) = Way1.read_slot s).
Proof.
  split.
  - induction ops as [|o ops IH]; intros st Hs; [done|].
    rewrite exec_ops_cons. apply IH. by apply exec_op_keeps_frame.
  - intros s w. apply release_effect.
Qed.

Lemma slot_never_emptied_witness :
  is_Some (Way1.latest_frame (fst connected_streamer))
  /\ is_Some (Way1.latest_frame
                (fst (Way1.exec_ops
                        [Way1.OpCapture; Way1.OpCapture; Way1.OpRelease;
                         Way1.OpCapture]
                        connected_streamer))).
Proof.
  assert (H : is_Some (Way1.latest_frame (fst connected_streamer))).
  { exists frame_a. reflexivity. }
  split; [exact H|].
  exact (proj1 slot_never_emptied _ connected_streamer H).
Defined.

(** C4 as stated fails in its second half: after connecting, one failed and
    one good capture turn, [release()] leaves the published frame and its
    timestamp in the slot. *)
Lemma release_leaves_frame_in_slot :
  let st := Way1.exec_ops [Way1.OpCapture; Way1.OpCapture; Way1.OpRelease]
              connected_streamer in
  Way1.cap (fst st) = None
  /\ Way1.stopped (fst st) = true
  /\ Way1.read_slot (fst st) = (Some frame_b, Some (2 # 1)).
Proof. vm_compute. repeat split. Qed.

(** ** The retry-only streamer *)

Section MultiStreamer.

Import Multi.

Lemma multi_connect_attempts_step (n i : nat) (t : Q) (s : RTSPstreamer)
    (w : World) :
  connect_attempts (S n) i t (s, w) =
    match open_and_read (rtsp_url s) w with
    | (Ok (c, (ok, frame)), w1) =>
        match good_frame ok frame with
        | None =>
            after_sleep t (connect_attempts n (S i) t)
              (s, log (EvClose c)
                    (log (EvPrint (MsgReadRetry (window_name s) (i + 1))) w1))
        | Some _ => (Ok true, (set_cap (Some c) s, w1))
        end
    | (Raised e, w1) =>
        if is_Exception e then
          after_sleep t (connect_attempts n (S i) t)
            (s, log (EvPrint (MsgException (window_name s) (i + 1))) w1)
        else (Raised e, (s, w1))
    | (Exited, w1) => (Exited, (s, w1))
    end.
Proof.
  cbn [connect_attempts]. unfold bind at 1. unfold get_self at 1.
  unfold bind at 1. unfold try_except, bind at 1, in_world at 1. cbn [fst snd].
  destruct (open_and_read (rtsp_url s) w) as [[[c [ok frame]]|e|] w1];
    cbn [fst snd].
  - unfold ret at 1. cbv beta iota.
    destruct (good_frame ok frame); [reflexivity|].
    unfold after_sleep.
    unfold bind at 1, in_world at 1, print at 1, emit at 1. cbn [fst snd].
    unfold bind at 1, in_world at 1, cap_release at 1, emit at 1.
    reflexivity.
  - destruct (is_Exception e); [|reflexivity].
    unfold after_sleep.
    unfold bind at 1. unfold bind at 1, in_world at 1, print at 1, emit at 1.
    cbn [fst snd].
    unfold bind at 1, in_world at 1, sleep.
    destruct (Qle_bool 0 t); reflexivity.
  - reflexivity.
Qed.


(** How [__connect_server] ends, for every interval: [False] with the
    streamer as before, [True] with the capture object of the last attempt
    kept, or the [ValueError] of a negative sleep after a failed attempt. *)
Lemma multi_connect_outcome (n i : nat) (t : Q) (s : Multi.RTSPstreamer)
    (w : World) :
  let r := Multi.connect_attempts n i t (s, w) in
  (fst r = Ok false /\ r.2.1 = s)
  \/ (fst r = Ok true
      /\ exists c f pre,
          r.2.1 = Multi.set_cap (Some c) s
          /\ hurl c = Multi.rtsp_url s
          /\ trace r.2.2 =
               pre ++ [EvOpen c; EvRead c (ReadReturns true (Some f))])
  \/ (fst r = Raised ValueError /\ r.2.1 = s /\ (t < 0)%Q).
Proof.
  revert i s w. induction n as [|n IH]; intros i s w; [by left|].
  cbv zeta in *. rewrite multi_connect_attempts_step.
  assert (Hretry : forall w1,
             let r := after_sleep t (Multi.connect_attempts n (S i) t) (s, w1) in
             (fst r = Ok false /\ r.2.1 = s)
             \/ (fst r = Ok true
                 /\ exists c f pre,
                     r.2.1 = Multi.set_cap (Some c) s
                     /\ hurl c = Multi.rtsp_url s
                     /\ trace r.2.2 =
                          pre ++ [EvOpen c; EvRead c (ReadReturns true (Some f))])
             \/ (fst r = Raised ValueError /\ r.2.1 = s /\ (t < 0)%Q)).
  { intros w1. cbv zeta. destruct (Qle_bool 0 t) eqn:Ht.
    - rewrite after_sleep_ok by done. apply IH.
    - rewrite after_sleep_negative by done. right. right.
      split; [done|]. split; [done|]. by apply Qle_bool_negative. }
  cbv zeta in Hretry.
  destruct (open_and_read_cases (Multi.rtsp_url s) w)
    as [(c & ok & fr & w1 & -> & Hu & Ht)|[(w1 & -> & Ht)|(c & w1 & -> & Hu & Ht)]].
  - destruct (good_frame ok fr) as [f|] eqn:Hgood; [|apply Hretry].
    right. left. assert (ok = true /\ fr = Some f) as [-> ->].
    { unfold good_frame, read_failed in Hgood.
      destruct ok, fr; cbn in Hgood; by simplify_eq. }
    split; [done|]. by exists c, f, (trace w).
  - apply Hretry.
  - apply Hretry.
Qed.


End MultiStreamer.

(** ** Programs that take no supervisor decision *)

Section Silent.

Lemma supervisor_log_app (t u : list event) :
  supervisor_log (t ++ u) = supervisor_log t ++ supervisor_log u.
Proof. apply List.filter_app. Qed.

Lemma supervisor_log_log (e : event) (w : World) :
  supervisor_log (trace (log e w)) =
    supervisor_log (trace w) ++ (if is_ghost e then [e] else []).
Proof. cbn. rewrite supervisor_log_app. cbn. by destruct (is_ghost e). Qed.

Context {X : Type}.

Lemma silent_ret {A} (a : A) : silent (X := X) (ret a).
Proof. by intros st. Qed.

Lemma silent_raise {A} (e : exn) : silent (X := X) (A := A) (raise e).
Proof. by intros st. Qed.

Lemma silent_bind {A B} (m : Prog (X * World) A) (k : A -> Prog (X * World) B) :
  silent m -> (forall a, silent (k a)) -> silent (bind m k).
Proof.
  intros Hm Hk st. unfold bind. specialize (Hm st).
  destruct (m st) as [[a|e|] st1]; cbn in *; [|done|done].
  by rewrite Hk.
Qed.

Lemma silent_try_except {A} (m : Prog (X * World) A) (caught : exn -> bool)
    (handler : exn -> Prog (X * World) A) :
  silent m -> (forall e, silent (handler e)) ->
  silent (try_except m caught handler).
Proof.
  intros Hm Hh st. unfold try_except. specialize (Hm st).
  destruct (m st) as [[a|e|] st1]; cbn in *; [done| |done].
  destruct (caught e); [|done]. by rewrite Hh.
Qed.

Lemma silent_get_self : silent (X := X) get_self.
Proof. by intros st. Qed.

Lemma silent_set_self (f : X -> X) : silent (set_self f).
Proof. by intros st. Qed.

Lemma silent_in_world {A} (m : Prog World A) :
  silent_call m -> silent (X := X) (in_world m).
Proof.
  intros Hm st. unfold in_world. specialize (Hm (snd st)).
  by destruct (m (snd st)) as [r w1].
Qed.

End Silent.

Lemma silent_emit (e : event) : is_ghost e = false -> silent_call (emit e).
Proof.
  intros He w. unfold emit. cbn [snd]. rewrite supervisor_log_log, He.
  by rewrite app_nil_r.
Qed.

Lemma silent_time_time : silent_call time_time.
Proof. by intros w. Qed.

Lemma silent_VideoCapture (url : string) : silent_call (VideoCapture url).
Proof.
  intros w.
  destruct (VideoCapture_cases url w) as [(h & w1 & -> & _ & Ht)|(w1 & -> & Ht)];
    cbn [snd]; rewrite Ht, supervisor_log_app; cbn; by rewrite app_nil_r.
Qed.

Lemma silent_cap_read (c : handle) : silent_call (cap_read c).
Proof.
  intros w.
  destruct (cap_read_cases c w)
    as [(ok & fr & w1 & -> & _ & Ht)|(w1 & -> & _ & Ht)];
    cbn [snd]; rewrite Ht, supervisor_log_app; cbn; by rewrite app_nil_r.
Qed.

Lemma silent_open_and_read (url : string) : silent_call (open_and_read url).
Proof.
  intros w.
  destruct (open_and_read_cases url w)
    as [(c & ok & fr & w1 & -> & _ & Ht)|[(w1 & -> & Ht)|(c & w1 & -> & _ & Ht)]];
    cbn [snd]; rewrite Ht, supervisor_log_app; cbn; by rewrite app_nil_r.
Qed.

Lemma silent_method_call {S A} (sid : nat) (m : Prog (S * World) A) :
  silent m -> silent (call sid m).
Proof.
  intros Hm [heap w]. unfold call. cbn [fst snd].
  destruct (heap !! sid) as [self|]; [|done].
  specialize (Hm (self, w)). by destruct (m (self, w)) as [r [s1 w1]].
Qed.

(** Closes a [silent] goal by following the structure of the program. *)
Ltac silent_step :=
  first
    [ apply silent_ret
    | apply silent_raise
    | apply silent_get_self
    | apply silent_set_self
    | apply silent_bind; [|intros ?]
    | apply silent_try_except; [|intros ?]
    | apply silent_method_call
    | apply silent_in_world
    | apply silent_emit; reflexivity
    | apply silent_time_time
    | apply silent_VideoCapture
    | apply silent_cap_read
    | apply silent_open_and_read ].

Ltac silent_tac :=
  repeat (silent_step
          || match goal with
             | |- silent (match ?x with _ => _ end) => destruct x
             | |- silent (if ?x then _ else _) => destruct x
             | |- silent_call (match ?x with _ => _ end) => destruct x
             end).

Section MultiSilent.

Import Multi.

Lemma silent_connect_attempts (n i : nat) (t : Q) :
  silent (connect_attempts n i t).
Proof.
  revert i. induction n as [|n IH]; intros i; cbn [connect_attempts].
  - silent_tac.
  - unfold print, sleep, cap_release. silent_tac; apply IH.
Qed.

Lemma silent_read_next_frame : silent read_next_frame.
Proof. unfold read_next_frame. silent_tac. Qed.

Lemma silent_release : silent release.
Proof. unfold release, cap_release. silent_tac. Qed.

Lemma silent_visualize_frame (f : Frame) : silent (visualize_frame f).
Proof. unfold visualize_frame. silent_tac. Qed.

Lemma silent_run (n : Z) (t : Q) : silent (run n t).
Proof.
  unfold run, __connect_server, self_cap_read, self_cap_release,
    visualize_frame, print, cap_release.
  silent_tac; apply silent_connect_attempts.
Qed.

End MultiSilent.

(** ** The supervisor loop of [Multi.main] *)

Section Supervisor.

Import Multi.

Local Abbreviation glog st := (supervisor_log (trace (snd st))).

(** Runs the first program of a [bind] in [H] when it is [silent]. *)
Ltac bind_silent H lem :=
  match type of H with
  | bind ?m ?k ?st = _ =>
      let Hs := fresh "Hs" in
      pose proof (lem st) as Hs; unfold bind at 1 in H;
      destruct (m st) as [[?|?|] ?]; cbn [fst snd] in *
  end.

Ltac bind_emit H :=
  unfold bind at 1, in_world at 1, emit at 1 in H; cbn [fst snd] in H.

Lemma silent_window_name :
  silent (bind get_self (fun self : RTSPstreamer => ret (window_name self))).
Proof. silent_tac. Qed.

Lemma silent_print {X} (m : message) : silent (X := X) (in_world (print m)).
Proof. unfold print. silent_tac. Qed.

Lemma remove_first_elem (sid : nat) (l : list nat) :
  sid ∈ l -> is_Some (remove_first sid l).
Proof.
  induction l as [|x l IH]; intros Hin; [by apply elem_of_nil in Hin|].
  cbn. case_bool_decide; [by eexists|].
  apply elem_of_cons in Hin as [->|Hin]; [done|].
  destruct (IH Hin) as [l' ->]. by eexists.
Qed.

(** Follows the log back through the programs that were run. *)
Ltac chase_log :=
  cbn [fst snd];
  repeat (rewrite supervisor_log_log
          || match goal with
             | Hl : supervisor_log _ = _ |- _ => rewrite Hl; clear Hl
             end).

Lemma poll_body_log (sid : nat) (active : list nat)
    (st st' : list RTSPstreamer * World) (r : outcome (list nat)) :
  sid ∈ active ->
  poll_body sid active st = (r, st') ->
  exists l,
    glog st' = glog st ++ l
    /\ ((quiet_body_log sid l /\ forall active', r = Ok active' -> active' = active)
        \/ (l = removal_log sid
            /\ exists active', r = Ok active'
                              /\ remove_first sid active = Some active')).
Proof.
  intros Hin H. unfold poll_body in H.
  bind_silent H (silent_method_call sid _ silent_read_next_frame).
  2,3: simplify_eq; exists []; chase_log; rewrite app_nil_r;
    (split; [done|]); left; (split; [by left|done]).
  destruct (good_frame a.1 a.2) as [f|].
  - bind_emit H.
    bind_silent H (silent_method_call sid _ (silent_visualize_frame f)).
    all: unfold ret in H; simplify_eq; exists [EvPoll sid true];
      chase_log; cbn;
      (split; [done|]); left; split; [right; by left|congruence].
  - bind_emit H.
    bind_silent H (silent_method_call sid _ silent_window_name).
    2,3: simplify_eq; exists [EvPoll sid false];
      chase_log; cbn;
      (split; [done|]); left; split; [right; right; by left|congruence].
    bind_silent H (silent_print (X := list RTSPstreamer) (MsgStreamRetry a0)).
    2,3: simplify_eq; exists [EvPoll sid false];
      chase_log; cbn;
      (split; [done|]); left; split; [right; right; by left|congruence].
    bind_silent H (silent_method_call sid _ silent_release).
    2,3: simplify_eq; exists [EvPoll sid false];
      chase_log; cbn;
      (split; [done|]); left; split; [right; right; by left|congruence].
    bind_silent H (silent_method_call sid _ (silent_run 2 (2 # 1))).
    2,3: simplify_eq; exists [EvPoll sid false];
      chase_log; cbn;
      (split; [done|]); left; split; [right; right; by left|congruence].
    bind_emit H.
    match type of H with context [negb ?b] => destruct b end;
      cbn [negb] in H.
    + unfold ret in H. simplify_eq.
      exists [EvPoll sid false; EvReconnect sid true].
      chase_log. cbn. rewrite <- ?app_assoc. split; [done|].
      left. split; [by do 3 right|congruence].
    + destruct (remove_first_elem sid active Hin) as [active' Hrem].
      unfold bind at 1, list_remove at 1 in H. rewrite Hrem in H.
      unfold bind, ret, in_world, emit in H. cbn in H.
      simplify_eq. exists (removal_log sid).
      chase_log. cbn. rewrite <- ?app_assoc.
      split; [done|]. right. split; [done|]. by exists active'.
Qed.

Lemma remove_first_spec (sid : nat) (l l' : list nat) :
  remove_first sid l = Some l' ->
  l' ⊆ l /\ (NoDup l -> NoDup l' /\ sid ∉ l').
Proof.
  revert l'. induction l as [|x l IH]; intros l' H; [done|].
  cbn in H. case_bool_decide as Hx.
  - simplify_eq. split; [intros y Hy; by right|].
    intros Hnd. apply NoDup_cons in Hnd as [Hx Hnd]. done.
  - destruct (remove_first sid l) as [l0|]; [|done]. cbn in H. simplify_eq.
    destruct (IH l0 eq_refl) as [Hsub Hnd]. split.
    { intros y Hy. apply elem_of_cons in Hy as [->|Hy]; [by left|].
      right. by apply Hsub. }
    intros Hnd'. apply NoDup_cons in Hnd' as [Hx' Hnd'].
    destruct (Hnd Hnd') as [Hnd0 Hsid]. split.
    + apply NoDup_cons. split; [|done]. intros Hin. by apply Hx', Hsub.
    + intros Hin. apply elem_of_cons in Hin as [->|Hin]; done.
Qed.

(** Where an element sits in a concatenation. *)
Lemma app_split_at (l1 l2 a b : list event) (x : event) :
  l1 ++ l2 = a ++ x :: b ->
  (exists b', l1 = a ++ x :: b' /\ b = b' ++ l2)
  \/ (exists a', l2 = a' ++ x :: b /\ a = l1 ++ a').
Proof.
  revert a. induction l1 as [|y l1 IH]; intros a H.
  - right. by exists a.
  - destruct a as [|z a]; cbn in H.
    + left. exists l1. by simplify_eq.
    + assert (y = z /\ l1 ++ l2 = a ++ x :: b) as [-> H'] by (by inversion H).
      destruct (IH a H') as [(b' & -> & ->)|(a' & -> & ->)].
      * left. by exists b'.
      * right. by exists a'.
Qed.

Lemma log_ok_nil (active : list nat) : supervisor_log_ok active [].
Proof.
  split; [done|]. repeat split; intros l1 sid l2 H; by destruct l1.
Qed.

Lemma log_ok_no_trigger (active : list nat) (l : list event) :
  Forall (fun e => exists sid, ghost_sid e = Some sid /\ sid ∈ active) l ->
  (forall sid, EvRemove sid ∉ l) ->
  (forall sid, EvReconnect sid false ∉ l) ->
  supervisor_log_ok active l.
Proof.
  intros Hm Hr Hf. split; [done|].
  split; [|split]; intros l1 sid l2 ->; exfalso.
  - apply (Hf sid). apply elem_of_app. right. by left.
  - apply (Hr sid). apply elem_of_app. right. by left.
  - apply (Hr sid). apply elem_of_app. right. by left.
Qed.

Ltac not_in_list :=
  let Hin := fresh "Hin" in
  intros ? Hin;
  repeat (apply elem_of_cons in Hin as [Hin|Hin]; [discriminate Hin|]);
  by apply elem_of_nil in Hin.

Lemma quiet_no_removal (sid sid' : nat) (l : list event) :
  quiet_body_log sid l -> EvRemove sid' ∉ l.
Proof. intros [-> | [-> | [-> | ->]]]; revert sid'; not_in_list. Qed.

Lemma log_ok_quiet (sid : nat) (active : list nat) (l : list event) :
  sid ∈ active -> quiet_body_log sid l -> supervisor_log_ok active l.
Proof.
  intros Hin Hq. apply log_ok_no_trigger.
  - destruct Hq as [-> | [-> | [-> | ->]]]; repeat constructor; by exists sid.
  - intros sid'. by eapply quiet_no_removal.
  - destruct Hq as [-> | [-> | [-> | ->]]]; not_in_list.
Qed.

Lemma removal_log_split (sid sid' : nat) (l1 l2 : list event) (x : event) :
  removal_log sid = l1 ++ x :: l2 ->
  (l1 = [] /\ x = EvPoll sid false
   /\ l2 = [EvReconnect sid false; EvRemove sid])
  \/ (l1 = [EvPoll sid false] /\ x = EvReconnect sid false
      /\ l2 = [EvRemove sid])
  \/ (l1 = [EvPoll sid false; EvReconnect sid false] /\ x = EvRemove sid
      /\ l2 = []).
Proof.
  unfold removal_log. intros H.
  destruct l1 as [|e1 [|e2 [|e3 [|e4 l1]]]]; cbn in H; inversion H; subst.
  - by left.
  - right. by left.
  - right. by right.
Qed.

Lemma removal_log_removes (sid sid' : nat) :
  EvRemove sid' ∈ removal_log sid -> sid' = sid.
Proof.
  unfold removal_log. intros Hin.
  repeat (apply elem_of_cons in Hin as [Hin|Hin]; [by simplify_eq|]).
  by apply elem_of_nil in Hin.
Qed.

Lemma log_ok_removal (sid : nat) (active : list nat) :
  sid ∈ active -> supervisor_log_ok active (removal_log sid).
Proof.
  intros Hin. split; [repeat constructor; by exists sid|].
  split; [|split]; intros l1 sid' l2 H;
    destruct (removal_log_split sid sid' _ _ _ H)
      as [(-> & Hx & ->)|[(-> & Hx & ->)|(-> & Hx & ->)]]; simplify_eq.
  - by eexists.
  - by exists [EvPoll sid false].
  - done.
Qed.

Lemma log_ok_app (active active' : list nat) (l1 l2 : list event) :
  supervisor_log_ok active l1 ->
  supervisor_log_ok active' l2 ->
  active' ⊆ active ->
  (forall sid, EvRemove sid ∈ l1 -> sid ∉ active') ->
  supervisor_log_ok active (l1 ++ l2).
Proof.
  intros (Hm1 & Hf1 & Ho1 & Hn1) (Hm2 & Hf2 & Ho2 & Hn2) Hsub Hgone.
  split; [|split; [|split]].
  - apply Forall_app. split; [done|].
    eapply Forall_impl; [exact Hm2|]. intros e (sid & He & Hin).
    exists sid. split; [done|]. by apply Hsub.
  - intros a sid b H.
    destruct (app_split_at _ _ _ _ _ H) as [(b' & -> & ->)|(a' & -> & ->)].
    + destruct (Hf1 _ _ _ eq_refl) as [l3 ->]. by eexists.
    + by apply (Hf2 a').
  - intros a sid b H.
    destruct (app_split_at _ _ _ _ _ H) as [(b' & -> & ->)|(a' & -> & ->)].
    + by apply (Ho1 _ _ b').
    + destruct (Ho2 _ _ _ eq_refl) as [l0 ->].
      exists (l1 ++ l0). by rewrite app_assoc.
  - intros a sid b H.
    destruct (app_split_at _ _ _ _ _ H) as [(b' & -> & ->)|(a' & -> & ->)].
    + apply Forall_app. split; [by apply (Hn1 a)|].
      eapply Forall_impl; [exact Hm2|]. intros e (sid' & He & Hin) Heq.
      rewrite He in Heq. simplify_eq.
      apply (Hgone sid); [|done]. apply elem_of_app. right. by left.
    + by apply (Hn2 a').
Qed.

(** One pass over the active list. *)
Lemma for_active_log (fuel i : nat) (active : list nat)
    (st st' : list RTSPstreamer * World) (r : outcome (list nat)) :
  NoDup active ->
  for_active fuel i active st = (r, st') ->
  exists l,
    glog st' = glog st ++ l
    /\ supervisor_log_ok active l
    /\ forall active', r = Ok active' ->
          active' ⊆ active /\ NoDup active'
          /\ forall sid, EvRemove sid ∈ l -> sid ∉ active'.
Proof.
  revert i active st. induction fuel as [|fuel IH]; intros i active st Hnd H.
  - cbn in H. unfold ret in H. simplify_eq. exists [].
    rewrite app_nil_r. split; [done|]. split; [apply log_ok_nil|].
    intros active' ?. simplify_eq. split; [done|]. split; [done|].
    intros sid Hin. by apply elem_of_nil in Hin.
  - cbn [for_active] in H.
    destruct (active !! i) as [sid|] eqn:Hi.
    2:{ unfold ret in H. simplify_eq. exists [].
        rewrite app_nil_r. split; [done|]. split; [apply log_ok_nil|].
        intros active' ?. simplify_eq. split; [done|]. split; [done|].
        intros sid Hin. by apply elem_of_nil in Hin. }
    assert (Hin : sid ∈ active) by (by eapply list_elem_of_lookup_2).
    unfold bind in H.
    destruct (poll_body sid active st) as [r1 st1] eqn:Hbody.
    destruct (poll_body_log _ _ _ _ _ Hin Hbody)
      as (l1 & Hl1 & [[Hq Hsame]|(-> & active1 & -> & Hrem)]).
    + destruct r1 as [active1|e|].
      * rewrite (Hsame active1 eq_refl) in H.
        destruct (IH _ _ _ Hnd H) as (l2 & Hl2 & Hok2 & Hres).
        exists (l1 ++ l2). rewrite Hl2, Hl1, app_assoc. split; [done|].
        split.
        { apply (log_ok_app active active); [by eapply log_ok_quiet|done|done|].
          intros sid' Hrm. exfalso. by eapply quiet_no_removal. }
        intros active' ->. destruct (Hres active' eq_refl) as (? & ? & Hgone).
        do 2 (split; [done|]). intros sid' Hrm.
        apply elem_of_app in Hrm as [Hrm|Hrm]; [|by apply Hgone].
        exfalso. by eapply quiet_no_removal.
      * simplify_eq. exists l1. split; [done|].
        split; [by eapply log_ok_quiet|done].
      * simplify_eq. exists l1. split; [done|].
        split; [by eapply log_ok_quiet|done].
    + destruct (remove_first_spec _ _ _ Hrem) as [Hsub Hnd1].
      destruct (Hnd1 Hnd) as [Hnd' Hgone1].
      destruct (IH _ _ _ Hnd' H) as (l2 & Hl2 & Hok2 & Hres).
      exists (removal_log sid ++ l2). rewrite Hl2, Hl1, app_assoc.
      split; [done|]. split.
      { apply (log_ok_app active active1); [by apply log_ok_removal|done|done|].
        intros sid' Hrm. by rewrite (removal_log_removes _ _ Hrm). }
      intros active' ->. destruct (Hres active' eq_refl) as (Hs' & ? & Hgone).
      split; [intros y Hy; by apply Hsub, Hs'|]. split; [done|].
      intros sid' Hrm.
      apply elem_of_app in Hrm as [Hrm|Hrm]; [|by apply Hgone].
      rewrite (removal_log_removes _ _ Hrm). intros Hin'.
      by apply Hgone1, Hs'.
Qed.

Lemma poll_loop_log (keys : list Z) (active : list nat)
    (st st' : list RTSPstreamer * World) (r : outcome unit) :
  NoDup active ->
  poll_loop keys active st = (r, st') ->
  exists l, glog st' = glog st ++ l /\ supervisor_log_ok active l.
Proof.
  revert active st. induction keys as [|key keys IH]; intros active st Hnd H.
  - cbn [poll_loop] in H. unfold bind, poll_pass in H.
    destruct (for_active (length active) 0 active st) as [r1 st1] eqn:Hpass.
    destruct (for_active_log _ _ _ _ _ _ Hnd Hpass) as (l & Hl & Hok & _).
    exists l. split; [|done].
    destruct r1; unfold raise in H; by simplify_eq.
  - cbn [poll_loop] in H. unfold bind at 1, poll_pass in H.
    destruct (for_active (length active) 0 active st) as [r1 st1] eqn:Hpass.
    destruct (for_active_log _ _ _ _ _ _ Hnd Hpass) as (l1 & Hl1 & Hok1 & Hres).
    destruct r1 as [active1|e|].
    2,3: simplify_eq; by exists l1.
    destruct (Hres active1 eq_refl) as (Hsub & Hnd1 & Hgone).
    unfold bind at 1, in_world at 1, emit at 1 in H. cbn [fst snd] in H.
    destruct (is_quit_key key).
    + unfold in_world, print, emit in H. cbn in H. simplify_eq.
      exists l1. cbn [snd]. rewrite !supervisor_log_log. cbn.
      rewrite !app_nil_r. done.
    + destruct (IH _ _ Hnd1 H) as (l2 & Hl2 & Hok2).
      exists (l1 ++ l2). rewrite Hl2. cbn [snd].
      rewrite supervisor_log_log. cbn. rewrite app_nil_r, Hl1, app_assoc.
      split; [done|]. by apply (log_ok_app active active1).
Qed.

Lemma removals_at_most_once (sid : nat) (l : list event) :
  never_after_removal l -> removals_of sid l <= 1.
Proof.
  induction l as [|e l IH]; intros Hn; [cbn; lia|].
  assert (Hn' : never_after_removal l).
  { intros l1 sid' l2 ->. by apply (Hn (e :: l1)). }
  unfold removals_of in *. rewrite count_events_cons.
  destruct (is_remove_of sid e) eqn:He; [|by apply IH].
  destruct e; try discriminate. apply bool_decide_eq_true in He as ->.
  specialize (Hn [] sid l eq_refl).
  assert (count_events (is_remove_of sid) l = 0) as ->; [|lia].
  clear IH Hn'. induction Hn as [|e l He Hn IH]; [done|].
  rewrite count_events_cons, IH.
  destruct e; try done. cbn in *. case_bool_decide; [congruence|done].
Qed.

Lemma silent_new_object (o : RTSPstreamer) : silent (new_object o).
Proof. by intros st. Qed.

Lemma silent_create_streamers (urls : list string) :
  silent (create_streamers urls).
Proof.
  induction urls as [|u urls IH]; cbn [create_streamers]; [silent_tac|].
  apply silent_bind; [apply silent_new_object|]. intros sid.
  apply silent_bind; [apply IH|]. intros sids. silent_tac.
Qed.

Lemma silent_initialize (sids : list nat) : silent (initialize sids).
Proof.
  induction sids as [|sid sids IH]; cbn [initialize]; [silent_tac|].
  apply silent_bind; [apply silent_method_call, silent_run|]. intros ok.
  apply silent_bind; [apply IH|]. intros active. silent_tac.
Qed.

Lemma silent_release_all (sids : list nat) : silent (release_all sids).
Proof.
  induction sids as [|sid sids IH]; cbn [release_all]; [silent_tac|].
  apply silent_bind; [apply silent_method_call, silent_release|].
  intros _. apply IH.
Qed.

(** The streamers [main] creates are distinct objects. *)
Lemma create_streamers_run (urls : list string)
    (st : list RTSPstreamer * World) :
  exists heap',
    create_streamers urls st =
      (Ok (seq (length st.1) (length urls)), (heap', st.2))
    /\ length heap' = length st.1 + length urls.
Proof.
  revert st. induction urls as [|u urls IH]; intros [heap w].
  - exists heap. cbn. split; [done|lia].
  - cbn [create_streamers]. unfold bind at 1, new_object at 1. cbn [fst snd].
    destruct (IH (heap ++ [__init__ u ("Stream_" ++ last_segment u)], w))
      as (heap' & Hrun & Hlen).
    exists heap'. unfold bind at 1. rewrite Hrun. cbn [fst snd] in *.
    rewrite length_app in *. cbn [length] in *.
    replace (length heap + 1) with (S (length heap)) in * by lia.
    split; [done|lia].
Qed.

Lemma initialize_sublist (sids active : list nat)
    (st st' : list RTSPstreamer * World) :
  initialize sids st = (Ok active, st') -> sublist active sids.
Proof.
  revert active st st'. induction sids as [|sid sids IH]; intros active st st' H.
  - cbn in H. unfold ret in H. by simplify_eq.
  - cbn [initialize] in H. unfold bind at 1 in H.
    destruct (call sid (run 2 (2 # 1)) st) as [[ok|e|] st1]; [|done|done].
    unfold bind at 1 in H.
    destruct (initialize sids st1) as [[active1|e|] st2] eqn:Hrest; [|done|done].
    unfold ret in H. simplify_eq. specialize (IH _ _ _ Hrest).
    destruct ok; [by apply sublist_skip|by apply sublist_cons].
Qed.

Lemma main_log (urls : list string) (keys : list Z) (w : World) :
  exists l,
    supervisor_log (trace (main urls keys ([], w)).2.2) =
      supervisor_log (trace w) ++ l
    /\ supervisor_log_ok (seq 0 (length urls)) l.
Proof.
  unfold main. unfold bind at 1.
  pose proof (silent_create_streamers urls ([], w)) as Hc.
  destruct (create_streamers_run urls ([], w)) as (heap & Hrun & _).
  rewrite Hrun in *. cbn [fst snd length] in *.
  unfold bind at 1.
  pose proof (silent_initialize (seq 0 (length urls)) (heap, w)) as Hi.
  destruct (initialize (seq 0 (length urls)) (heap, w))
    as [[active|e|] st1] eqn:Hinit; cbn [fst snd] in *.
  2,3: exists []; rewrite app_nil_r, Hi; split; [done|apply log_ok_nil].
  assert (Hnd : NoDup active).
  { eapply sublist_NoDup; [apply NoDup_seq|by eapply initialize_sublist]. }
  assert (Hsub : active ⊆ seq 0 (length urls)).
  { eapply sublist_subseteq. by eapply initialize_sublist. }
  unfold try_finally, try_except.
  destruct (poll_loop keys active st1) as [r2 st2] eqn:Hloop.
  destruct (poll_loop_log _ _ _ _ _ Hnd Hloop) as (l & Hl & Hok).
  exists l. split.
  - assert (Hend : forall (r : outcome unit) (st : list RTSPstreamer * World),
               glog st = glog st2 ->
               glog (match (release_all (seq 0 (length urls));;
                            in_world (emit EvDestroyAllWindows)) st with
                     | (Ok _, st'') => (r, st'')
                     | (Raised e, st'') => (Raised e, st'')
                     | (Exited, st'') => (Exited, st'')
                     end).2 = glog st2).
    { intros r st Hst.
      assert (Hs : silent (X := list RTSPstreamer)
                     (release_all (seq 0 (length urls));;
                      in_world (emit EvDestroyAllWindows))).
      { apply silent_bind; [apply silent_release_all|]. intros _. silent_tac. }
      specialize (Hs st).
      destruct ((release_all (seq 0 (length urls));;
                 in_world (emit EvDestroyAllWindows)) st) as [[?|?|] ?];
        cbn [fst snd] in *; by rewrite Hs. }
    rewrite <- Hi, <- Hl.
    destruct r2 as [?|e|]; [by apply Hend| |by apply Hend].
    destruct (is_KeyboardInterrupt e); [|by apply Hend].
    apply Hend. unfold in_world, print, emit. cbn [fst snd].
    rewrite supervisor_log_log. cbn. by rewrite app_nil_r.
  - destruct Hok as (Hm & ? & ? & ?). split; [|done].
    eapply Forall_impl; [exact Hm|]. intros e (sid & He & Hin).
    exists sid. split; [done|]. by apply Hsub.
Qed.

End Supervisor.

(** ** One body of the supervisor loop, by what the methods return *)

Section SupervisorBody.

Import Multi.

Lemma bind_call_run {S A B} (sid : nat) (m : Prog (S * World) A)
    (k : A -> Prog (list S * World) B) (heap : list S) (w : World) (s : S) :
  heap !! sid = Some s ->
  bind (call sid m) k (heap, w) =
    match m (s, w) with
    | (Ok a, (s', w')) => k a (<[sid := s']> heap, w')
    | (Raised e, (s', w')) => (Raised e, (<[sid := s']> heap, w'))
    | (Exited, (s', w')) => (Exited, (<[sid := s']> heap, w'))
    end.
Proof.
  intros Hs. unfold bind, call. cbn [fst snd]. rewrite Hs.
  by destruct (m (s, w)) as [[a|e|] [s' w']].
Qed.

Lemma bind_call_run_insert {S A B} (sid : nat) (m : Prog (S * World) A)
    (k : A -> Prog (list S * World) B) (heap : list S) (w : World) (s : S) :
  sid < length heap ->
  bind (call sid m) k (<[sid := s]> heap, w) =
    match m (s, w) with
    | (Ok a, (s', w')) => k a (<[sid := s']> heap, w')
    | (Raised e, (s', w')) => (Raised e, (<[sid := s']> heap, w'))
    | (Exited, (s', w')) => (Exited, (<[sid := s']> heap, w'))
    end.
Proof.
  intros Hlt. rewrite (bind_call_run sid m k _ w s)
    by (by rewrite list_lookup_insert_eq).
  destruct (m (s, w)) as [[a|e|] [s' w']];
    by rewrite list_insert_insert_eq.
Qed.

Lemma bind_emit_run {S B} (e : event) (k : unit -> Prog (S * World) B)
    (x : S) (w : World) :
  bind (in_world (emit e)) k (x, w) = k tt (x, log e w).
Proof. reflexivity. Qed.

Lemma remove_first_keeps (sid x : nat) (l l' : list nat) :
  remove_first sid l = Some l' -> x ∈ l -> x <> sid -> x ∈ l'.
Proof.
  revert l'. induction l as [|y l IH]; intros l' H Hin Hne;
    [by apply elem_of_nil in Hin|].
  cbn in H. case_bool_decide as Hy.
  - simplify_eq. apply elem_of_cons in Hin as [->|Hin]; done.
  - destruct (remove_first sid l) as [l0|]; [|done]. cbn in H. simplify_eq.
    apply elem_of_cons in Hin as [->|Hin]; [by left|].
    right. by apply IH.
Qed.

Lemma window_name_run (s : RTSPstreamer) (w : World) :
  bind get_self (fun self : RTSPstreamer => ret (window_name self)) (s, w) =
    (Ok (window_name s), (s, w)).
Proof. reflexivity. Qed.

(** What the body of [for streamer in active_streamers] does with the
    streamer [sid], by what its [read_next_frame] returns and, after a
    failed read, by what the [run(2, 2)] of the reconnect returns. *)
Lemma poll_body_by_outcome (sid : nat) (active : list nat)
    (heap : list RTSPstreamer) (w : World) (s : RTSPstreamer)
    (ok : bool) (frame : option Frame) :
  heap !! sid = Some s -> sid ∈ active -> NoDup active ->
  fst (read_next_frame (s, w)) = Ok (ok, frame) ->
  let body := poll_body sid active (heap, w) in
  match good_frame ok frame with
  | Some _ =>
      fst body = Ok active
      /\ supervisor_log (trace body.2.2) =
           supervisor_log (trace w) ++ [EvPoll sid true]
  | None =>
      match fst (run 2 (2 # 1) (before_reconnect sid (s, w))) with
      | Ok true =>
          fst body = Ok active
          /\ supervisor_log (trace body.2.2) =
               supervisor_log (trace w)
                 ++ [EvPoll sid false; EvReconnect sid true]
      | Ok false =>
          exists active',
            fst body = Ok active'
            /\ remove_first sid active = Some active'
            /\ (sid ∉ active')
            /\ (forall x, x ∈ active -> x <> sid -> x ∈ active')
            /\ supervisor_log (trace body.2.2) =
                 supervisor_log (trace w) ++ removal_log sid
      | Raised e => fst body = Raised e
      | Exited => fst body = Exited
      end
  end.
Proof.
  intros Hs Hin Hnd Hrd. cbv zeta.
  assert (Hlt : sid < length heap) by (by eapply lookup_lt_Some).
  unfold before_reconnect, poll_body. rewrite (bind_call_run _ _ _ _ _ _ Hs).
  pose proof (silent_read_next_frame (s, w)) as Hsil1.
  destruct (read_next_frame (s, w)) as [r1 [s1 w1]].
  cbn [fst snd] in *. subst r1. cbn [fst snd].
  destruct (good_frame ok frame) as [f|].
  - rewrite bind_emit_run. rewrite bind_call_run_insert by done.
    unfold visualize_frame. run_prog. split; [done|].
    cbn [trace log]. rewrite !supervisor_log_app, Hsil1. cbn.
    by rewrite app_nil_r.
  - rewrite bind_emit_run. rewrite bind_call_run_insert by done.
    rewrite window_name_run. unfold print. rewrite bind_emit_run.
    rewrite bind_call_run_insert by done.
    pose proof (silent_release
                  (s1, log (EvPrint (MsgStreamRetry (window_name s1)))
                         (log (EvPoll sid false) w1))) as Hsil2.
    destruct (release (s1, log (EvPrint (MsgStreamRetry (window_name s1)))
                             (log (EvPoll sid false) w1)))
      as [r2 [s2 w2]] eqn:Hrel.
    assert (r2 = Ok tt) as ->.
    { rewrite multi_release_run in Hrel. by simplify_eq. }
    cbn [fst snd] in *.
    rewrite bind_call_run_insert by done.
    pose proof (silent_run 2 (2 # 1) (s2, w2)) as Hsil3.
    destruct (run 2 (2 # 1) (s2, w2)) as [[b|e|] [s3 w3]]; cbn [fst snd] in *;
      [|done..].
    assert (Hlog : supervisor_log (trace w3) =
                     supervisor_log (trace w) ++ [EvPoll sid false]).
    { rewrite Hsil3, Hsil2. cbn [trace log].
      rewrite !supervisor_log_app, Hsil1. cbn. by rewrite app_nil_r. }
    rewrite bind_emit_run. destruct b; cbn [negb].
    + split; [done|]. cbn [fst snd ret trace log].
      rewrite supervisor_log_app, Hlog. cbn. by rewrite <- app_assoc.
    + destruct (remove_first_elem sid active Hin) as [active' Hrem].
      unfold bind, list_remove. rewrite Hrem.
      exists active'. split; [done|]. split; [done|].
      split; [by apply (remove_first_spec _ _ _ Hrem)|].
      split; [intros x; by apply remove_first_keeps|].
      cbn [fst snd ret in_world emit trace log].
      rewrite !supervisor_log_app, Hlog. cbn. by rewrite <- !app_assoc.
Qed.

(** After a pass the active list holds exactly the streamers it held before
    that were not removed in the pass. *)
Lemma for_active_kept (fuel i : nat) (active active' : list nat)
    (st st' : list RTSPstreamer * World) :
  NoDup active ->
  for_active fuel i active st = (Ok active', st') ->
  exists l,
    supervisor_log (trace st'.2) = supervisor_log (trace st.2) ++ l
    /\ forall x, x ∈ active' <-> (x ∈ active /\ EvRemove x ∉ l).
Proof.
  revert i active st. induction fuel as [|fuel IH]; intros i active st Hnd H.
  { cbn in H. unfold ret in H. simplify_eq. exists [].
    rewrite app_nil_r. split; [done|]. intros x. split; [|by intros []].
    intros Hx. split; [done|apply not_elem_of_nil]. }
  cbn [for_active] in H.
  destruct (active !! i) as [sid|] eqn:Hi.
  2:{ unfold ret in H. simplify_eq. exists [].
      rewrite app_nil_r. split; [done|]. intros x. split; [|by intros []].
      intros Hx. split; [done|apply not_elem_of_nil]. }
  assert (Hin : sid ∈ active) by (by eapply list_elem_of_lookup_2).
  unfold bind in H.
  destruct (poll_body sid active st) as [r1 st1] eqn:Hbody.
  destruct (poll_body_log _ _ _ _ _ Hin Hbody)
    as (l1 & Hl1 & [[Hq Hsame]|(-> & active1 & -> & Hrem)]).
  - destruct r1 as [active1|e|]; [|done..].
    rewrite (Hsame active1 eq_refl) in H.
    destruct (IH _ _ _ Hnd H) as (l2 & Hl2 & Hiff).
    exists (l1 ++ l2). rewrite Hl2, Hl1, app_assoc. split; [done|].
    intros x. rewrite Hiff. split; intros [Hx Hno]; (split; [done|]).
    + intros Hrm. apply elem_of_app in Hrm as [Hrm|Hrm]; [|done].
      by eapply quiet_no_removal.
    + intros Hrm. apply Hno. apply elem_of_app. by right.
  - destruct (remove_first_spec _ _ _ Hrem) as [Hsub Hnd1].
    destruct (Hnd1 Hnd) as [Hnd' Hgone].
    destruct (IH _ _ _ Hnd' H) as (l2 & Hl2 & Hiff).
    exists (removal_log sid ++ l2). rewrite Hl2, Hl1, app_assoc.
    split; [done|]. intros x. rewrite Hiff. split.
    + intros [Hx Hno]. split; [by apply Hsub|].
      intros Hrm. apply elem_of_app in Hrm as [Hrm|Hrm]; [|done].
      apply removal_log_removes in Hrm as ->. done.
    + intros [Hx Hno]. split.
      * apply (remove_first_keeps sid x active); [done..|].
        intros ->. apply Hno. apply elem_of_app. left.
        unfold removal_log. do 2 right. by left.
      * intros Hrm. apply Hno. apply elem_of_app. by right.
Qed.

End SupervisorBody.

(** C6. The supervisor loop of [main] (retry-only variant) removes a source
    that failed and could not be reconnected, once, and leaves it alone
    afterwards.  First, what one body of the loop does with a streamer of
    the active list, by what the streamer's methods return: after a good
    read the list is as before; after a failed read the streamer is
    released and [run(2, 2)] is called, and when that returns [True] the
    list is as before, when it returns [False] the streamer is taken out of
    the list the body hands on (the others stay), and an exception leaves
    the body.  The ghost events say which of these happened.  Second, the
    list a pass hands on holds exactly the streamers it held before that
    were not removed.  Third, for the loop and for the whole of [main], on
    any keys and any decoder behaviour: a reconnect that fails is followed
    at once by the removal; a removal happens only that way; a streamer that
    has been removed is never polled, reconnected or removed again. *)
Theorem supervisor_removes_once :
  (forall (sid : nat) (active : list nat) (heap : list Multi.RTSPstreamer)
          (w : World) (s : Multi.RTSPstreamer) (ok : bool)
          (frame : option Frame),
      heap !! sid = Some s -> sid ∈ active -> NoDup active ->
      fst (Multi.read_next_frame (s, w)) = Ok (ok, frame) ->
      let body := Multi.poll_body sid active (heap, w) in
      match good_frame ok frame with
      | Some _ =>
          fst body = Ok active
          /\ supervisor_log (trace body.2.2) =
               supervisor_log (trace w) ++ [EvPoll sid true]
      | None =>
          match fst (Multi.run 2 (2 # 1) (before_reconnect sid (s, w))) with
          | Ok true =>
              fst body = Ok active
              /\ supervisor_log (trace body.2.2) =
                   supervisor_log (trace w)
                     ++ [EvPoll sid false; EvReconnect sid true]
          | Ok false =>
              exists active',
                fst body = Ok active'
                /\ Multi.remove_first sid active = Some active'
                /\ (sid ∉ active')
                /\ (forall x, x ∈ active -> x <> sid -> x ∈ active')
                /\ supervisor_log (trace body.2.2) =
                     supervisor_log (trace w) ++ removal_log sid
          | Raised e => fst body = Raised e
          | Exited => fst body = Exited
          end
      end)
  /\ (forall (active active' : list nat)
             (st st' : list Multi.RTSPstreamer * World),
        NoDup active ->
        Multi.poll_pass active st = (Ok active', st') ->
        exists l,
          supervisor_log (trace st'.2) = supervisor_log (trace st.2) ++ l
          /\ forall x, x ∈ active' <-> (x ∈ active /\ EvRemove x ∉ l))
  /\ (forall (keys : list Z) (active : list nat)
             (st : list Multi.RTSPstreamer * World),
        NoDup active ->
        exists l,
          supervisor_log (trace (Multi.poll_loop keys active st).2.2) =
            supervisor_log (trace st.2) ++ l
          /\ failed_reconnect_removes l
          /\ removal_only_after_failure l
          /\ never_after_removal l
          /\ forall sid, removals_of sid l <= 1)
  /\ (forall (rtsp_urls : list string) (keys : list Z) (w : World),
        exists l,
          supervisor_log (trace (Multi.main rtsp_urls keys ([], w)).2.2) =
            supervisor_log (trace w) ++ l
          /\ failed_reconnect_removes l
          /\ removal_only_after_failure l
          /\ never_after_removal l
          /\ forall sid, removals_of sid l <= 1).
Proof.
  split; [|split; [|split]].
  - intros sid active heap w s ok frame. apply poll_body_by_outcome.
  - intros active active' st st' Hnd H. by apply (for_active_kept _ _ _ _ _ _ Hnd H).
  - intros keys active st Hnd.
    destruct (Multi.poll_loop keys active st) as [r st'] eqn:Hloop.
    destruct (poll_loop_log _ _ _ _ _ Hnd Hloop) as (l & Hl & _ & Hf & Ho & Hn).
    exists l. do 4 (split; [done|]).
    intros sid. by apply removals_at_most_once.
  - intros urls keys w.
    destruct (main_log urls keys w) as (l & Hl & _ & Hf & Ho & Hn).
    exists l. do 4 (split; [done|]).
    intros sid. by apply removals_at_most_once.
Qed.

Lemma supervisor_removes_once_witness :
  let body := Multi.poll_body 0 [0; 1] two_streamers in
  NoDup [0; 1]
  /\ fst (Multi.run 2 (2 # 1)
            (before_reconnect 0
               (Multi.set_cap (Some handle_0)
                  (Multi.__init__ url_101 "Stream_101"),
                two_streamers.2))) = Ok false
  /\ (exists active',
        fst body = Ok active'
        /\ Multi.remove_first 0 [0; 1] = Some active'
        /\ (0 ∉ active')
        /\ (forall x, x ∈ [0; 1] -> x <> 0 -> x ∈ active')
        /\ supervisor_log (trace body.2.2) =
             supervisor_log (trace two_streamers.2) ++ removal_log 0)
  /\ exists l,
      supervisor_log
        (trace (Multi.poll_loop [0%Z; 113%Z] [0; 1] two_streamers).2.2) =
        supervisor_log (trace two_streamers.2) ++ l
      /\ failed_reconnect_removes l
      /\ removal_only_after_failure l
      /\ never_after_removal l
      /\ forall sid, removals_of sid l <= 1.
Proof.
  intros body.
  assert (Hnd : NoDup [0; 1]) by apply (NoDup_seq 0 2).
  assert (Hrun : fst (Multi.run 2 (2 # 1)
                        (before_reconnect 0
                           (Multi.set_cap (Some handle_0)
                              (Multi.__init__ url_101 "Stream_101"),
                            two_streamers.2))) = Ok false)
    by (vm_compute; reflexivity).
  assert (Hs : two_streamers.1 !! 0 =
                 Some (Multi.set_cap (Some handle_0)
                         (Multi.__init__ url_101 "Stream_101")))
    by (vm_compute; reflexivity).
  assert (Hin : 0 ∈ [0; 1]) by apply list_elem_of_here.
  assert (Hrd : fst (Multi.read_next_frame
                       (Multi.set_cap (Some handle_0)
                          (Multi.__init__ url_101 "Stream_101"),
                        two_streamers.2)) = Ok (false, None))
    by (vm_compute; reflexivity).
  split; [exact Hnd|]. split; [exact Hrun|].
  split.
  - pose proof (proj1 supervisor_removes_once 0 [0; 1] two_streamers.1
                  two_streamers.2 _ false None Hs Hin Hnd Hrd) as H.
    cbv zeta in H. rewrite Hrun in H. exact H.
  - exact (proj1 (proj2 (proj2 supervisor_removes_once))
             [0%Z; 113%Z] [0; 1] two_streamers Hnd).
Defined.

(** ** Handles across connect attempts *)

(** C3, at the input where the code departs from it.  With two attempts
    allowed on [raising_camera], the first attempt builds capture object 0,
    whose read raises: the [except] branch prints, sleeps and goes on, and
    object 0 is never released.  The second attempt builds object 1, whose
    read returns not-ok: that one is released before the sleep.  Both
    [connect_server] methods behave so, and return [False]. *)
Theorem connect_leaks_handle_when_read_raises :
  let multi := Multi.__connect_server 2 (2 # 1)
                 (Multi.__init__ url_101 "Stream_101",
                  world_of [(url_101, raising_camera)]) in
  let way1 := Way1.connect_server 2 (2 # 1)
                (Way1.fresh url_101 "Stream_101_id=1",
                 world_of [(url_101, raising_camera)]) in
  (fst multi = Ok false
   /\ trace multi.2.2 =
        [EvOpen handle_0; EvRead handle_0 ReadRaises;
         EvPrint (MsgException "Stream_101" 1); EvSleep (2 # 1);
         EvOpen handle_1; EvRead handle_1 (ReadReturns false None);
         EvPrint (MsgReadRetry "Stream_101" 2); EvClose handle_1;
         EvSleep (2 # 1)]
   /\ closes_of handle_0 (trace multi.2.2) = 0
   /\ closes_of handle_1 (trace multi.2.2) = 1)
  /\ (fst way1 = Ok false
      /\ trace way1.2.2 =
           [EvOpen handle_0; EvRead handle_0 ReadRaises;
            EvPrint (MsgException "Stream_101_id=1" 1); EvSleep (2 # 1);
            EvOpen handle_1; EvRead handle_1 (ReadReturns false None);
            EvPrint (MsgReadRetry "Stream_101_id=1" 2); EvClose handle_1;
            EvSleep (2 # 1); EvPrint (MsgConnectFailed "Stream_101_id=1")]
      /\ closes_of handle_0 (trace way1.2.2) = 0
      /\ closes_of handle_1 (trace way1.2.2) = 1).
Proof. vm_compute. repeat split. Qed.

(** ** Start-up of the threaded variant *)

Section Way1Startup.

Import Way1.

Lemma connect_attempts_url (n i : nat) (t : Q) (s : RTSPStreamer) (w : World) :
  rtsp_url (connect_attempts n i t (s, w)).2.1 = rtsp_url s.
Proof.
  revert i s w. induction n as [|n IH]; intros i s w; [done|].
  rewrite connect_attempts_step.
  assert (Hretry : forall w1,
             rtsp_url (after_sleep t (connect_attempts n (S i) t) (s, w1)).2.1 =
               rtsp_url s).
  { intros w1. destruct (Qle_bool 0 t) eqn:Ht.
    - rewrite after_sleep_ok by done. apply IH.
    - by rewrite after_sleep_negative. }
  destruct (open_and_read (rtsp_url s) w) as [[[c [ok fr]]|e|] w1]; [| |done].
  - destruct (good_frame ok fr) as [f|]; [|apply Hretry].
    run_prog. unfold publish, time_time. run_prog.
    by destruct (bool_decide (first_start_time s = None)).
  - destruct (is_Exception e); [apply Hretry|done].
Qed.

(** [connect_server] called on the object [sid] of the store. *)
Lemma call_connect_server (sid : nat) (s : RTSPStreamer)
    (heap : list RTSPStreamer) (w : World) :
  heap !! sid = Some s ->
  exists b s' w' suf,
    call sid (connect_server 2 (2 # 1)) (heap, w) =
      (Ok b, (<[sid := s']> heap, w'))
    /\ rtsp_url s' = rtsp_url s
    /\ trace w' = trace w ++ suf
    /\ exists e, e ∈ suf /\ is_open_attempt (rtsp_url s) e = true.
Proof.
  intros Hs. unfold call. cbn [fst snd]. rewrite Hs.
  pose proof (connect_attempts_url 2 0 (2 # 1) s w) as Hurl.
  unfold connect_server. change (Z.to_nat 2) with 2.
  destruct (connect_attempts_returns 2 0 (2 # 1) s w two_seconds_nonneg)
    as (b & s' & w' & suf & Hrun & Ht & _ & _ & _ & Hacc).
  rewrite Hrun in *. exists b, s', w', suf. do 3 (split; [done|]).
  destruct Hacc as (_ & _ & _ & _ & _ & Hfirst).
  destruct Hfirst as (e & rest & -> & He); [done|].
  exists e. split; [by left|done].
Qed.

Lemma connect_all_attempts (sids : list nat) (heap : list RTSPStreamer)
    (w : World) :
  (forall sid, sid ∈ sids -> sid < length heap) ->
  exists active heap' w' suf,
    connect_all sids (heap, w) = (Ok active, (heap', w'))
    /\ sublist active sids
    /\ trace w' = trace w ++ suf
    /\ (forall i, rtsp_url <$> heap' !! i = rtsp_url <$> heap !! i)
    /\ forall sid s, sid ∈ sids -> heap !! sid = Some s ->
         exists e, e ∈ suf /\ is_open_attempt (rtsp_url s) e = true.
Proof.
  revert heap w. induction sids as [|sid sids IH]; intros heap w Hvalid.
  - exists [], heap, w, []. rewrite app_nil_r. do 4 (split; [done|]).
    intros sid s Hin. by apply elem_of_nil in Hin.
  - destruct (lookup_lt_is_Some_2 heap sid) as [s Hs];
      [apply Hvalid; by left|].
    destruct (call_connect_server sid s heap w Hs)
      as (b & s' & w1 & suf1 & Hrun & Hurl & Ht1 & e1 & He1 & Hopen1).
    assert (Hurls : forall i, rtsp_url <$> <[sid := s']> heap !! i =
                              rtsp_url <$> heap !! i).
    { intros i. destruct (decide (i = sid)) as [->|Hne].
      - rewrite list_lookup_insert_eq by (by eapply lookup_lt_Some).
        rewrite Hs. cbn. by rewrite Hurl.
      - by rewrite list_lookup_insert_ne. }
    destruct (IH (<[sid := s']> heap) w1)
      as (active & heap' & w' & suf2 & Hrest & Hsub & Ht2 & Hurls2 & Hall).
    { intros sid' Hin. rewrite length_insert. apply Hvalid. by right. }
    exists (if b then sid :: active else active), heap', w', (suf1 ++ suf2).
    split.
    { cbn [connect_all]. unfold bind at 1. rewrite Hrun.
      unfold bind at 1. rewrite Hrest. reflexivity. }
    split; [destruct b; [by apply sublist_skip|by apply sublist_cons]|].
    split; [by rewrite Ht2, Ht1, app_assoc|].
    split; [intros i; by rewrite Hurls2, Hurls|].
    intros sid0 s0 Hin Hs0.
    destruct (decide (sid0 = sid)) as [->|Hne].
    + simplify_eq. exists e1. split; [|done]. apply elem_of_app. by left.
    + apply elem_of_cons in Hin as [->|Hin]; [done|].
      pose proof (Hurls sid0) as Hu0. rewrite Hs0 in Hu0.
      destruct (<[sid := s']> heap !! sid0) as [s1|] eqn:Hs1; [|done].
      cbn in Hu0. simplify_eq.
      destruct (Hall sid0 s1 Hin Hs1) as (e & He & Hopen).
      exists e. split; [apply elem_of_app; by right|]. by rewrite <- Hu0.
Qed.

Lemma way1_create_streamers_cons (idx : nat) (u : string)
    (urls : list string) (heap : list RTSPStreamer) (w : World) :
  create_streamers idx (u :: urls) (heap, w) =
    let window :=
      ("Stream_" ++ last_segment u ++ "_id=" ++ decimal idx)%string in
    match create_streamers (S idx) urls
            (heap ++ [fresh u window], log (EvNamedWindow window) w) with
    | (Ok sids, st) => (Ok (length heap :: sids), st)
    | (Raised e, st) => (Raised e, st)
    | (Exited, st) => (Exited, st)
    end.
Proof. reflexivity. Qed.

Lemma way1_create_streamers_run (idx : nat) (urls : list string)
    (heap : list RTSPStreamer) (w : World) :
  exists heap' w' suf,
    create_streamers idx urls (heap, w) =
      (Ok (seq (length heap) (length urls)), (heap', w'))
    /\ rtsp_url <$> heap' = (rtsp_url <$> heap) ++ urls
    /\ trace w' = trace w ++ suf.
Proof.
  revert idx heap w. induction urls as [|u urls IH]; intros idx heap w.
  - exists heap, w, []. by rewrite !app_nil_r.
  - rewrite way1_create_streamers_cons. cbv zeta.
    destruct (IH (S idx)
                (heap ++ [fresh u ("Stream_" ++ last_segment u ++ "_id=" ++
                                   decimal idx)%string])
                (log (EvNamedWindow ("Stream_" ++ last_segment u ++ "_id=" ++
                                     decimal idx)%string) w))
      as (heap' & w' & suf & -> & Hurls & Ht).
    eexists heap', w', (_ :: suf).
    rewrite length_app. cbn [length].
    replace (length heap + 1) with (S (length heap)) by lia.
    split; [reflexivity|]. split.
    + rewrite Hurls, fmap_app. cbn. by rewrite <- app_assoc.
    + rewrite Ht. cbn. by rewrite <- app_assoc.
Qed.

End Way1Startup.

(** ** Failures of one source *)


(** ** An empty list of sources *)

Section EmptyConfiguration.

Lemma with_trace_log (e : event) (t : list event) (w : World) :
  log e (with_trace t w) = with_trace (t ++ [e]) w.
Proof. reflexivity. Qed.

Lemma log_with_trace (e : event) (w : World) :
  log e w = with_trace (trace w ++ [e]) w.
Proof. reflexivity. Qed.

Lemma multi_idle_loop (keys : list Z) (heap : list Multi.RTSPstreamer)
    (w : World) :
  try_except (Multi.poll_loop keys []) is_KeyboardInterrupt
    (fun _ => in_world (print MsgInterrupt)) (heap, w) =
    (Ok tt, (heap, with_trace (trace w ++ idle_trace keys) w)).
Proof.
  revert w. induction keys as [|key keys IH]; intros w; [reflexivity|].
  unfold try_except in *. cbn [Multi.poll_loop idle_trace].
  unfold bind at 1. cbn [Multi.poll_pass length Multi.for_active].
  unfold ret at 1. unfold bind at 1, in_world at 1, emit at 1. cbn [fst snd].
  destruct (is_quit_key key).
  - unfold in_world, print, emit. cbn [fst snd].
    rewrite !log_with_trace. cbn [trace with_trace].
    by rewrite <- app_assoc.
  - specialize (IH (log (EvWaitKey key) w)).
    destruct (Multi.poll_loop keys [] (heap, log (EvWaitKey key) w))
      as [[[]|e|] st1]; rewrite IH; cbn [trace log with_trace];
      by rewrite <- app_assoc.
Qed.

Lemma way1_idle_loop (keys : list Z) (start duration : Q)
    (heap : list Way1.RTSPStreamer) (w : World) :
  exists r w' suf,
    Way1.process_loop keys start duration [] (heap, w) = (r, (heap, w'))
    /\ (r = Ok tt \/ r = Raised KeyboardInterrupt)
    /\ trace w' = trace w ++ suf
    /\ attempt_count suf = 0.
Proof.
  revert w. induction keys as [|key keys IH]; intros w.
  - cbn [Way1.process_loop]. unfold bind at 1, in_world at 1, time_time at 1.
    cbn [fst snd].
    destruct (Qle_bool duration (clock w (ticks w) - start)).
    + exists (Ok tt), (bump_ticks w), []. rewrite app_nil_r.
      split; [done|]. split; [by left|done].
    + exists (Raised KeyboardInterrupt), (bump_ticks w), [].
      rewrite app_nil_r. split; [done|]. split; [by right|done].
  - cbn [Way1.process_loop]. unfold bind at 1, in_world at 1, time_time at 1.
    cbn [fst snd].
    destruct (Qle_bool duration (clock w (ticks w) - start)).
    + exists (Ok tt), (bump_ticks w), []. rewrite app_nil_r.
      split; [done|]. split; [by left|done].
    + cbn [Way1.for_each]. unfold bind at 1, ret at 1.
      unfold bind at 1, in_world at 1, emit at 1. cbn [fst snd].
      destruct (is_quit_key key).
      * eexists (Ok tt), _, [EvWaitKey key; EvPrint MsgQuitKey].
        split; [reflexivity|]. split; [by left|].
        split; [cbn; by rewrite <- app_assoc|done].
      * destruct (IH (log (EvWaitKey key) (bump_ticks w)))
          as (r & w' & suf & -> & Hr & Ht & Hc).
        exists r, w', (EvWaitKey key :: suf).
        split; [done|]. split; [done|]. split.
        -- rewrite Ht. cbn. by rewrite <- app_assoc.
        -- unfold attempt_count in *. by rewrite count_events_cons.
Qed.

(** C8, as the code has it.  With an empty list of sources neither [main]
    exits: no streamer is created and no connection is attempted, the poll
    loop is entered with an empty active list and idles, one [waitKey] per
    pass, until the quit key, the interrupt or (threaded variant) the end
    of the duration; then [main] cleans up and returns normally. *)
Theorem empty_configuration_idles :
  (forall (keys : list Z) (w : World),
      Multi.main [] keys ([], w) =
        (Ok tt,
         ([], with_trace
                (trace w ++ idle_trace keys ++ [EvDestroyAllWindows]) w)))
  /\ (forall (keys : list Z) (w : World),
        exists w' suf,
          Way1.main [] keys ([], w) = (Ok tt, ([], w'))
          /\ trace w' =
               trace w ++ [EvPrint MsgThreadCount; EvPrint MsgThreadList] ++ suf
          /\ attempt_count suf = 0).
Proof.
  split.
  - intros keys w. unfold Multi.main.
    cbn [Multi.create_streamers]. unfold bind at 1, ret at 1.
    cbn [Multi.initialize]. unfold bind at 1, ret at 1.
    unfold try_finally. rewrite multi_idle_loop.
    cbn [Multi.release_all]. unfold bind, ret, in_world, emit.
    cbn [fst snd]. rewrite with_trace_log. by rewrite <- app_assoc.
  - intros keys w. unfold Way1.main.
    cbn [Way1.create_streamers]. unfold bind at 1, ret at 1.
    cbn [Way1.connect_all]. unfold bind at 1, ret at 1.
    unfold try_finally, try_except, Way1.process_streamers.
    unfold bind at 1, in_world at 1, print at 1, emit at 1. cbn [fst snd].
    unfold bind at 1, in_world at 1, print at 1, emit at 1. cbn [fst snd].
    unfold bind at 1, in_world at 1, time_time at 1. cbn [fst snd].
    unfold bind at 1.
    destruct (way1_idle_loop keys
                (clock (log (EvPrint MsgThreadList) (log (EvPrint MsgThreadCount) w))
                   (ticks (log (EvPrint MsgThreadList)
                             (log (EvPrint MsgThreadCount) w))))
                (300 # 1) []
                (bump_ticks (log (EvPrint MsgThreadList)
                               (log (EvPrint MsgThreadCount) w))))
      as (r & w1 & suf & -> & [-> | ->] & Ht & Hc).
    + unfold in_world at 1, print at 1, emit at 1. cbn [fst snd].
      cbn [Way1.for_each]. unfold bind, ret, in_world, time_time, print, emit.
      cbn [fst snd].
      eexists _, (suf ++ [EvPrint MsgDurationOver; EvPrint MsgReportHeader;
                          EvDestroyAllWindows]).
      split; [reflexivity|]. split.
      * cbn. rewrite Ht. cbn. by rewrite <- !app_assoc.
      * unfold attempt_count in *. by rewrite count_events_app, Hc.
    + cbn [is_KeyboardInterrupt].
      unfold in_world at 1, print at 1, emit at 1. cbn [fst snd].
      cbn [Way1.for_each]. unfold bind, ret, in_world, time_time, print, emit.
      cbn [fst snd].
      eexists _, (suf ++ [EvPrint MsgInterrupt; EvPrint MsgReportHeader;
                          EvDestroyAllWindows]).
      split; [reflexivity|]. split.
      * cbn. rewrite Ht. cbn. by rewrite <- !app_assoc.
      * unfold attempt_count in *. by rewrite count_events_app, Hc.
Qed.

(** C8 as stated fails: on an empty list of sources and the keys
    [0, 0, 113] the retry-only [main] does not exit at start-up; it goes
    through three passes of its poll loop and ends on the quit key. *)
Lemma empty_configuration_enters_poll_loop :
  let r := Multi.main [] [0%Z; 0%Z; 113%Z] ([], world_of []) in
  fst r = Ok tt
  /\ trace r.2.2 =
       [EvWaitKey 0; EvWaitKey 0; EvWaitKey 113; EvPrint MsgQuitKey;
        EvDestroyAllWindows].
Proof. vm_compute. repeat split. Qed.

End EmptyConfiguration.

(** ** The frame slot under both threads *)

Section SlotAtomicity.

Import SlotProtocol.

Variables (seed : option Frame * option Q) (reads : list read_outcome).

Lemma whole_more (pub : list (Frame * Q)) (x : Frame * Q)
    (slot : option Frame * option Q) :
  whole seed pub slot -> whole seed (pub ++ [x]) slot.
Proof.
  intros [->|(f & t & -> & Hin)]; [by left|].
  right. exists f, t. split; [done|]. apply elem_of_app. by left.
Qed.

Lemma protocol_inv_start (clk : nat -> Q) (t0 : nat) :
  protocol_inv seed reads (start seed reads clk t0).
Proof.
  unfold protocol_inv, start. cbn.
  split; [done|]. split; [done|]. split; [left; by destruct seed|].
  split; [done|]. split; [done|]. split; [done|].
  split; [intros f t Hin; by apply elem_of_nil in Hin|done].
Qed.

Lemma protocol_inv_capture (c : Config) :
  protocol_inv seed reads c -> protocol_inv seed reads (capture_step c).
Proof.
  intros (Hc & Hp & Hslot & Hcopy & Hobs & Hloc & Hpub & Hdec).
  unfold protocol_inv, capture_step.
  destruct (cpc c) as [| |f|f|f| | |] eqn:Hpc; cbn.
  - (* CTest *)
    destruct (stopped c); cbn; repeat split; try done.
  - (* CRead *)
    assert (Htl : forall r, r ∈ tail (decoder c) -> r ∈ reads).
    { intros r Hr. apply Hdec. destruct (decoder c); [done|]. by right. }
    destruct (decoder c) as [|[|[|] [f|]] rest] eqn:Hd; cbn;
      repeat split; try done.
    intros f' ->. apply Hdec. rewrite ?Hd. by left.
  - (* CAcquire *)
    destruct (lock c) as [who|] eqn:Hl.
    + unfold protocol_inv. rewrite ?Hpc, ?Hl.
      repeat split; try done.
    + cbn. repeat split; try done.
      destruct (ppc c); done.
  - (* CSetFrame *)
    repeat split; try done.
    destruct (ppc c); first [done|congruence].
  - (* CSetTime *)
    repeat split; try done.
    + right. exists f, (now c (tick c)). rewrite Hslot. split; [done|].
      apply elem_of_app. right. by left.
    + destruct (ppc c); first [done|congruence].
    + eapply Forall_impl; [exact Hobs|]. intros slot. apply whole_more.
    + intros f' t Hin. apply elem_of_app in Hin as [Hin|Hin]; [by eapply Hpub|].
      apply list_elem_of_singleton in Hin. simplify_eq. by apply Hloc.
  - (* CRelease *)
    repeat split; try done.
    destruct (ppc c); first [done|congruence].
  - (* CCount *)
    repeat split; try done.
  - (* CDone *)
    unfold protocol_inv. rewrite Hpc. repeat split; try done.
Qed.

Lemma protocol_inv_poll (c : Config) :
  protocol_inv seed reads c -> protocol_inv seed reads (poll_step c).
Proof.
  intros (Hc & Hp & Hslot & Hcopy & Hobs & Hloc & Hpub & Hdec).
  unfold protocol_inv, poll_step.
  destruct (ppc c) as [| |f|f t] eqn:Hpc; cbn.
  - (* PAcquire *)
    destruct (lock c) as [who|] eqn:Hl.
    + unfold protocol_inv. rewrite ?Hpc, ?Hl.
      repeat split; try done.
    + cbn. repeat split; try done.
      destruct (cpc c); done.
  - repeat split; try done.
  - repeat split; try done.
  - (* PRelease *)
    destruct Hcopy as [-> ->].
    assert (Hw : whole seed (published c) (latest_frame c, latest_timestamp c)).
    { destruct (cpc c); first [done|congruence]. }
    repeat split; try done.
    + destruct (cpc c); cbn in *; first [done|congruence].
    + apply Forall_app. split; [done|]. by constructor.
Qed.

Lemma protocol_inv_stop (c : Config) :
  protocol_inv seed reads c -> protocol_inv seed reads (stop_step c).
Proof. done. Qed.

Lemma protocol_inv_run (schedule : list action) (c : Config) :
  protocol_inv seed reads c -> protocol_inv seed reads (run schedule c).
Proof.
  revert c. induction schedule as [|a schedule IH]; intros c Hinv; [done|].
  apply IH. destruct a as [[|]|]; cbn.
  - by apply protocol_inv_capture.
  - by apply protocol_inv_poll.
  - by apply protocol_inv_stop.
Qed.

End SlotAtomicity.

(** C9. Whatever the scheduler does with the capture thread, the poll loop
    and the stop request, and whatever the decoder answers, every pair
    [(frame, frame_time)] that the poll loop takes out of the slot under the
    lock is whole: it is the pair [connect_server] seeded the slot with, or
    a frame together with the timestamp that the same iteration of the
    capture loop wrote with it; and every published frame is, as a whole,
    one of the frames a single read of the decoder returned.  The poll loop
    never sees the frame of one capture with the timestamp of another. *)
Theorem slot_reads_are_whole :
  forall (seed : option Frame * option Q) (reads : list read_outcome)
         (clk : nat -> Q) (t0 : nat) (schedule : list SlotProtocol.action),
    let c := SlotProtocol.run schedule (SlotProtocol.start seed reads clk t0) in
    Forall (SlotProtocol.whole seed (SlotProtocol.published c))
      (SlotProtocol.observed c)
    /\ forall f t, (f, t) ∈ SlotProtocol.published c ->
                   SlotProtocol.decoded reads f.
Proof.
  intros seed reads clk t0 schedule c.
  destruct (protocol_inv_run seed reads schedule _
              (protocol_inv_start seed reads clk t0))
    as (_ & _ & _ & _ & Hobs & _ & Hpub & _).
  by split.
Qed.

Lemma slot_reads_are_whole_witness :
  let c := SlotProtocol.run sample_schedule
             (SlotProtocol.start sample_seed sample_reads steady_clock 2) in
  SlotProtocol.observed c =
    [sample_seed; (Some frame_b, Some (2 # 1))]
  /\ (frame_b, 2 # 1) ∈ SlotProtocol.published c
  /\ SlotProtocol.decoded sample_reads frame_b.
Proof.
  intros c.
  assert (Hpub : (frame_b, 2 # 1) ∈ SlotProtocol.published c).
  { vm_compute. apply list_elem_of_here. }
  split; [vm_compute; reflexivity|]. split; [exact Hpub|].
  exact (proj2 (slot_reads_are_whole sample_seed sample_reads steady_clock 2
                  sample_schedule) frame_b (2 # 1) Hpub).
Defined.

(** * Further properties of the code *)

(** ** [connect_server]: attempts, sleeps and capture objects *)



(** X2. With [try_times] zero or negative the loop body never runs:
    [__connect_server] returns [False] without calling the decoder and
    without sleeping, and leaves the streamer and the world as they are; the
    threaded [connect_server] only prints its failure message. *)
Theorem connect_server_no_attempts :
  forall (try_times : Z) (try_interval : Q),
    (try_times <= 0)%Z ->
    (forall (self : Multi.RTSPstreamer) (w : World),
        Multi.__connect_server try_times try_interval (self, w) =
          (Ok false, (self, w)))
    /\ (forall (self : Way1.RTSPStreamer) (w : World),
          Way1.connect_server try_times try_interval (self, w) =
            (Ok false,
             (self, log (EvPrint (MsgConnectFailed (Way1.window_name self))) w))).
Proof.
  intros n t Hn.
  unfold Multi.__connect_server, Way1.connect_server.
  replace (Z.to_nat n) with 0 by lia. by split.
Qed.

Lemma connect_server_no_attempts_witness :
  (-3 <= 0)%Z
  /\ Multi.__connect_server (-3) (2 # 1)
       (Multi.__init__ url_101 "Stream_101", two_cameras) =
       (Ok false, (Multi.__init__ url_101 "Stream_101", two_cameras)).
Proof.
  assert (H : (-3 <= 0)%Z) by lia.
  split; [exact H|].
  exact (proj1 (connect_server_no_attempts (-3) (2 # 1) H) _ _).
Defined.

(** ** [run] and the handle it leaves behind *)

Ltac run_prog_in H :=
  cbv beta iota delta
    [bind ret raise sys_exit in_world get_self set_self emit print sleep
     cap_release try_except try_finally fst snd] in H.

Lemma multi_run_false (n : Z) (t : Q) (s s' : Multi.RTSPstreamer)
    (w w' : World) :
  Multi.run n t (s, w) = (Ok false, (s', w')) ->
  (s' = s
   /\ exists pre,
       trace w' = pre ++ [EvPrint (MsgConnectFailed (Multi.window_name s))])
  \/ (exists c pre,
        s' = Multi.set_cap (Some c) s
        /\ trace w' =
             pre ++ [EvPrint (MsgReadFailed (Multi.window_name s)); EvClose c]).
Proof.
  intros H. unfold Multi.run, Multi.__connect_server in H.
  unfold bind at 1 in H.
  pose proof (multi_connect_outcome (Z.to_nat n) 0 t s w) as Hc. cbv zeta in Hc.
  destruct (Multi.connect_attempts (Z.to_nat n) 0 t (s, w)) as [r1 [s1 w1]].
  cbn [fst snd] in Hc.
  destruct Hc as [[-> ->]|[(-> & c & f0 & pre0 & -> & _ & _)|(-> & _)]];
    cbn [negb] in H; [| |done].
  - run_prog_in H. simplify_eq.
    left. split; [done|]. by exists (trace w1).
  - unfold bind at 1, Multi.self_cap_read at 1 in H.
    unfold bind at 1, get_self at 1 in H. cbn [fst snd Multi.cap Multi.set_cap] in H.
    unfold in_world at 1 in H. cbn [fst snd] in H.
    destruct (cap_read_cases c w1)
      as [(ok & fr & w2 & Hr & _ & Ht2)|(w2 & Hr & _ & Ht2)];
      rewrite Hr in H; [|done].
    cbn [fst snd] in H.
    destruct (good_frame ok fr) as [f|].
    + unfold Multi.visualize_frame in H. run_prog_in H. done.
    + unfold Multi.self_cap_release in H. run_prog_in H.
      cbn [Multi.cap Multi.set_cap Multi.window_name] in H.
      simplify_eq. right. exists c, (trace w2). split; [done|].
      cbn. by rewrite <- app_assoc.
Qed.

(** X3. When [run] returns [False] because the read that follows a
    successful connect failed, it has released the capture object but still
    holds it in [self.cap]: the [release()] that [main] calls afterwards
    releases the same object a second time, with nothing in between, and only
    then clears [self.cap]. *)
Theorem run_failure_releases_twice :
  forall (try_times : Z) (try_interval : Q) (self self' : Multi.RTSPstreamer)
         (w w' : World) (c : handle),
    Multi.cap self = None ->
    Multi.run try_times try_interval (self, w) = (Ok false, (self', w')) ->
    Multi.cap self' = Some c ->
    exists pre,
      trace w' = pre ++ [EvClose c]
      /\ trace (Multi.release (self', w')).2.2 = pre ++ [EvClose c; EvClose c]
      /\ Multi.cap (Multi.release (self', w')).2.1 = None.
Proof.
  intros n t s s' w w' c Hnone Hrun Hcap.
  destruct (multi_run_false _ _ _ _ _ _ Hrun)
    as [[-> _]|(c' & pre & -> & Ht)]; [congruence|].
  cbn in Hcap. simplify_eq.
  exists (pre ++ [EvPrint (MsgReadFailed (Multi.window_name s))]).
  rewrite multi_release_run. cbn. rewrite Ht, <- !app_assoc. by cbn.
Qed.

Lemma run_failure_releases_twice_witness :
  let self := Multi.__init__ url_101 "Stream_101" in
  let w := world_of [(url_101, one_frame_camera)] in
  let r := Multi.run 2 (2 # 1) (self, w) in
  Multi.cap self = None
  /\ r = (Ok false, r.2)
  /\ Multi.cap r.2.1 = Some handle_0
  /\ exists pre,
      trace r.2.2 = pre ++ [EvClose handle_0]
      /\ trace (Multi.release r.2).2.2 = pre ++ [EvClose handle_0; EvClose handle_0]
      /\ Multi.cap (Multi.release r.2).2.1 = None.
Proof.
  intros self w r.
  assert (Hrun : r = (Ok false, (r.2.1, r.2.2))) by (vm_compute; reflexivity).
  assert (Hcap : Multi.cap r.2.1 = Some handle_0) by (vm_compute; reflexivity).
  split; [reflexivity|]. split; [vm_compute; reflexivity|]. split; [exact Hcap|].
  destruct (run_failure_releases_twice 2 (2 # 1) self r.2.1 w r.2.2 handle_0
              eq_refl Hrun Hcap) as (pre & H1 & H2 & H3).
  exists pre. destruct r as [o [s1 w1]]. by cbn in *.
Defined.

(** C5, at the input where the code departs from it.  [main] of the
    retry-only variant on one source whose camera opens and delivers a
    single frame: [run] connects (the validating read takes the frame), its
    own read fails, and it releases the capture object without clearing
    [self.cap] (line 72).  The streamer is now in the failed state and still
    holds the released object, so the [release()] of the [finally] block
    releases that object a second time: one object built, two releases of
    it.  The same shows on the methods alone: after that [run], two calls of
    [release()] bring the releases of the object to two. *)
Theorem release_closes_released_handle :
  let w := world_of [(url_101, one_frame_camera)] in
  let r := Multi.main [url_101] [113%Z] ([], w) in
  let r1 := Multi.run 2 (2 # 1) (Multi.__init__ url_101 "Stream_101", w) in
  let r2 := Multi.release_times 2 r1.2 in
  (fst r = Ok tt
   /\ trace r.2.2 =
        [EvOpen handle_0;
         EvRead handle_0 (ReadReturns true (Some frame_a));
         EvRead handle_0 (ReadReturns false None);
         EvPrint (MsgReadFailed "Stream_101");
         EvClose handle_0;
         EvWaitKey 113; EvPrint MsgQuitKey;
         EvClose handle_0;
         EvDestroyAllWindows]
   /\ open_count (trace r.2.2) = 1
   /\ closes_of handle_0 (trace r.2.2) = 2)
  /\ (fst r1 = Ok false
      /\ Multi.cap r1.2.1 = Some handle_0
      /\ closes_of handle_0 (trace r1.2.2) = 1
      /\ fst r2 = Ok tt
      /\ Multi.cap r2.2.1 = None
      /\ closes_of handle_0 (trace r2.2.2) = 2).
Proof. vm_compute. repeat split. Qed.

(** ** What [connect_server] leaves in the streamer *)


(** X5. [first_start_time] is written once: when it is set, no later
    [connect_server], capture turn or [release] changes it, so the FPS of a
    streamer is always measured from its first successful connect. *)
Theorem first_start_time_set_once :
  forall (ops : list Way1.op) (st : Way1.RTSPStreamer * World) (t0 : Q),
    Way1.first_start_time st.1 = Some t0 ->
    Way1.first_start_time (Way1.exec_ops ops st).1 = Some t0.
Proof.
  induction ops as [|o ops IH]; intros [s w] t0 Hset; [done|].
  rewrite exec_ops_cons. apply IH. clear IH.
  destruct o as [n t| |]; cbn [Way1.exec_op fst snd].
  - unfold Way1.connect_server.
    destruct (way1_connect_outcome (Z.to_nat n) 0 t s w)
      as [[_ ->]|[(_ & c & f & pre & _ & _ & _ & _ & _ & _ & _ & Hkeep & _)
                 |(_ & -> & _)]];
      [done|by apply Hkeep|done].
  - unfold Way1.capture_step. cbn [fst snd].
    destruct (Way1.thread s) as [[| |]|]; try done.
    destruct (Way1.stopped s); [done|].
    destruct (Way1.cap s) as [c|] eqn:Hc.
    + rewrite (capture_iteration_run s w c Hc).
      by destruct (next_read w (hurl c)) as [|[|] [f|]].
    + unfold Way1.capture_iteration. run_prog. by rewrite Hc.
  - by rewrite way1_release_run.
Qed.

Lemma first_start_time_set_once_witness :
  Way1.first_start_time connected_streamer.1 = Some 0%Q
  /\ Way1.first_start_time
       (Way1.exec_ops
          [Way1.OpCapture; Way1.OpRelease; Way1.OpConnect 2 (2 # 1);
           Way1.OpCapture]
          connected_streamer).1 = Some 0%Q.
Proof.
  assert (H : Way1.first_start_time connected_streamer.1 = Some 0%Q)
    by reflexivity.
  split; [exact H|].
  exact (first_start_time_set_once _ connected_streamer 0%Q H).
Defined.

(** ** Window names: [url.split('/')[-1]] *)

Lemma append_cons (c : ascii) (s r : string) :
  String.append (String c s) r = String c (String.append s r).
Proof. reflexivity. Qed.

Lemma append_nil_l (r : string) : String.append EmptyString r = r.
Proof. reflexivity. Qed.

Lemma append_nil_r (s : string) : String.append s EmptyString = s.
Proof.
  induction s as [|c s IH]; [done|]. by rewrite append_cons, IH.
Qed.

Lemma append_snoc (s r : string) (c : ascii) :
  String.append (String.append s (String c EmptyString)) r =
    String.append s (String c r).
Proof.
  induction s as [|d s IH]; [done|]. by rewrite !append_cons, IH.
Qed.

Lemma has_slash_append (s r : string) :
  has_slash (String.append s r) = has_slash s || has_slash r.
Proof.
  induction s as [|c s IH]; [done|].
  rewrite append_cons. cbn [has_slash]. rewrite IH. by rewrite orb_assoc.
Qed.

Lemma last_segment_from_plain (acc s : string) :
  has_slash s = false -> last_segment_from acc s = String.append acc s.
Proof.
  revert acc. induction s as [|c s IH]; intros acc H.
  - cbn [last_segment_from]. by rewrite append_nil_r.
  - cbn [last_segment_from has_slash] in *.
    apply orb_false_iff in H as [Hc Hs]. rewrite Hc.
    rewrite IH by done. apply append_snoc.
Qed.

Lemma last_segment_from_slash (acc a b : string) :
  last_segment_from acc (String.append a (String "/" b)) =
    last_segment_from EmptyString b.
Proof.
  revert acc. induction a as [|c a IH]; intros acc; [done|].
  rewrite append_cons. cbn [last_segment_from].
  destruct (Ascii.eqb c "/"); apply IH.
Qed.

Lemma last_segment_from_no_slash (acc s : string) :
  has_slash acc = false -> has_slash (last_segment_from acc s) = false.
Proof.
  revert acc. induction s as [|c s IH]; intros acc H; [done|].
  cbn [last_segment_from]. destruct (Ascii.eqb c "/") eqn:Hc; [by apply IH|].
  apply IH. rewrite has_slash_append, H. cbn [has_slash]. by rewrite Hc.
Qed.

(** X6. The part of the window name taken from the URL is what follows its
    last slash: it never holds a slash; for a URL [a/b] where [b] has no
    slash it is [b]; and a URL without any slash is taken whole. *)
Theorem last_segment_spec :
  (forall url : string, has_slash (last_segment url) = false)
  /\ (forall a b : string,
        has_slash b = false ->
        last_segment (String.append a (String "/" b)) = b)
  /\ (forall url : string, has_slash url = false -> last_segment url = url).
Proof.
  unfold last_segment. split; [|split].
  - intros url. by apply last_segment_from_no_slash.
  - intros a b Hb. rewrite last_segment_from_slash.
    by rewrite last_segment_from_plain, append_nil_l.
  - intros url H. by rewrite last_segment_from_plain, append_nil_l.
Qed.

Lemma last_segment_spec_witness :
  has_slash "101" = false
  /\ last_segment "rtsp://admin:pw@192.168.200.132:554/Streaming/Channels/101" =
       "101"
  /\ last_segment "101" = "101".
Proof.
  assert (H : has_slash "101" = false) by reflexivity.
  split; [exact H|]. split.
  - exact (proj1 (proj2 last_segment_spec)
             "rtsp://admin:pw@192.168.200.132:554/Streaming/Channels" "101" H).
  - exact (proj2 (proj2 last_segment_spec) "101" H).
Defined.

(** ** The minimal variant *)

Lemma way2_stop_run (s : Way2.VideoStream) (w : World) :
  Way2.stop (s, w) =
    (Ok tt, (Way2.set_stopped true s, log (EvClose (Way2.cap s)) w)).
Proof. reflexivity. Qed.

(** X7. [stop()] of the minimal variant has no guard: every call sets the
    stop flag and releases the capture object again, so [n] calls release
    the same object [n] times (unlike [release()] of the other variants,
    which releases once). *)
Theorem stop_releases_every_time :
  forall (n : nat) (s : Way2.VideoStream) (w : World),
    let r := stop_times n (s, w) in
    fst r = Ok tt
    /\ Way2.cap r.2.1 = Way2.cap s
    /\ trace r.2.2 = trace w ++ replicate n (EvClose (Way2.cap s))
    /\ closes_of (Way2.cap s) (trace r.2.2) =
         closes_of (Way2.cap s) (trace w) + n.
Proof.
  induction n as [|n IH]; intros s w.
  - cbn. rewrite app_nil_r. repeat split. lia.
  - cbv zeta in *.
    change (stop_times (S n) (s, w))
      with (stop_times n (Way2.set_stopped true s, log (EvClose (Way2.cap s)) w)).
    destruct (IH (Way2.set_stopped true s) (log (EvClose (Way2.cap s)) w))
      as (Hok & Hcap & Ht & Hc).
    cbn [Way2.cap Way2.set_stopped] in *.
    split; [done|]. split; [done|]. split.
    + rewrite Ht. cbn. by rewrite <- app_assoc.
    + rewrite Hc. cbn [trace log]. unfold closes_of.
      rewrite count_events_app, count_events_cons. cbn [is_close_of].
      rewrite bool_decide_true by done. cbn. lia.
Qed.

Lemma way2_init_cases (u : string) (w : World) :
  (exists c w1,
      Way2.__init__ u w =
        (Ok {| Way2.url := u; Way2.cap := c; Way2.frame := None;
               Way2.stopped := false |}, w1)
      /\ hopen c = true /\ hurl c = u
      /\ trace w1 = trace w ++ [EvOpen c; EvSpawn u])
  \/ (exists c w1,
        Way2.__init__ u w = (Exited, w1)
        /\ hopen c = false /\ hurl c = u
        /\ trace w1 = trace w ++ [EvOpen c; EvPrint (MsgOpenFailed u)])
  \/ (exists w1,
        Way2.__init__ u w = (Raised DecoderError, w1)
        /\ trace w1 = trace w ++ [EvOpenRaised u]).
Proof.
  assert (Hrun : Way2.__init__ u w =
            match VideoCapture u w with
            | (Ok c, w1) =>
                if negb (hopen c) then
                  (Exited, log (EvPrint (MsgOpenFailed u)) w1)
                else
                  (Ok {| Way2.url := u; Way2.cap := c; Way2.frame := None;
                         Way2.stopped := false |}, log (EvSpawn u) w1)
            | (Raised e, w1) => (Raised e, w1)
            | (Exited, w1) => (Exited, w1)
            end).
  { unfold Way2.__init__, bind. destruct (VideoCapture u w) as [[c| |] w1]; [|done|done].
    by destruct (hopen c). }
  rewrite Hrun. clear Hrun.
  destruct (VideoCapture_cases u w) as [(c & w1 & -> & Hu & Ht)|(w1 & -> & Ht)].
  - destruct (hopen c) eqn:Ho; cbn [negb].
    + left. exists c, (log (EvSpawn u) w1). run_prog.
      do 3 (split; [done|]). cbn. by rewrite Ht, <- app_assoc.
    + right. left. exists c, (log (EvPrint (MsgOpenFailed u)) w1). run_prog.
      do 3 (split; [done|]). cbn. by rewrite Ht, <- app_assoc.
  - right. right. by exists w1.
Qed.

Lemma way2_create_streams_cons (u : string) (urls : list string)
    (heap : list Way2.VideoStream) (w : World) :
  Way2.create_streams (u :: urls) (heap, w) =
    match Way2.__init__ u w with
    | (Ok o, w1) =>
        match Way2.create_streams urls (heap ++ [o], w1) with
        | (Ok sids, st') => (Ok (length heap :: sids), st')
        | (Raised e, st') => (Raised e, st')
        | (Exited, st') => (Exited, st')
        end
    | (Raised e, w1) => (Raised e, (heap, w1))
    | (Exited, w1) => (Exited, (heap, w1))
    end.
Proof.
  cbn [Way2.create_streams]. unfold bind at 1, in_world at 1. cbn [fst snd].
  by destruct (Way2.__init__ u w) as [[o|e|] w1].
Qed.

(** The shape of what [create_streams] did, by the way it ended. *)
Lemma way2_create_streams_shape (urls : list string)
    (heap heap' : list Way2.VideoStream) (w w' : World)
    (o : outcome (list nat)) :
  Way2.create_streams urls (heap, w) = (o, (heap', w')) ->
  exists suf,
    trace w' = trace w ++ suf
    /\ attempt_count suf <= length urls
    /\ match o with
       | Ok sids =>
           sids = seq (length heap) (length urls)
           /\ attempt_count suf = length urls
           /\ exists created,
               heap' = heap ++ created
               /\ Way2.url <$> created = urls
               /\ Forall (fun s => hopen (Way2.cap s) = true
                                   /\ Way2.frame s = None
                                   /\ Way2.stopped s = false) created
       | Exited =>
           exists pre c,
             suf = pre ++ [EvOpen c; EvPrint (MsgOpenFailed (hurl c))]
             /\ hopen c = false
       | Raised e =>
           e = DecoderError /\ exists pre u, suf = pre ++ [EvOpenRaised u]
       end.
Proof.
  revert heap heap' w w' o.
  induction urls as [|u urls IH]; intros heap heap' w w' o H.
  - cbn in H. unfold ret in H. simplify_eq. exists [].
    rewrite !app_nil_r. split; [done|]. split; [cbn; lia|].
    do 2 (split; [done|]). exists []. by rewrite app_nil_r.
  - rewrite way2_create_streams_cons in H.
    destruct (way2_init_cases u w)
      as [(c & w1 & Hi & Ho & Hu & Ht)|[(c & w1 & Hi & Ho & Hu & Ht)|(w1 & Hi & Ht)]];
      rewrite Hi in H.
    + clear Hu.
      set (s0 := {| Way2.url := u; Way2.cap := c; Way2.frame := None;
                    Way2.stopped := false |}) in *.
      destruct (Way2.create_streams urls (heap ++ [s0], w1))
        as [o1 [heap1 w2]] eqn:Hrest.
      destruct (IH _ _ _ _ _ Hrest) as (suf & Hsuf & Hle & Hres).
      exists ([EvOpen c; EvSpawn u] ++ suf).
      unfold attempt_count in *. rewrite count_events_app.
      destruct o1 as [sids|e|]; simplify_eq.
      * split; [by rewrite Hsuf, Ht, <- app_assoc|].
        split; [cbn; lia|].
        destruct Hres as (-> & Hall & created & -> & Hurls & Hf).
        rewrite length_app. cbn [length].
        replace (length heap + 1) with (S (length heap)) by lia.
        split; [done|]. split; [cbn; lia|].
        exists (s0 :: created). split; [by rewrite <- app_assoc|].
        split; [cbn; by rewrite Hurls|]. by constructor.
      * split; [by rewrite Hsuf, Ht, <- app_assoc|].
        split; [cbn; lia|].
        destruct Hres as (-> & pre & u' & ->). split; [done|].
        exists ([EvOpen c; EvSpawn u] ++ pre), u'. by rewrite <- app_assoc.
      * split; [by rewrite Hsuf, Ht, <- app_assoc|].
        split; [cbn; lia|].
        destruct Hres as (pre & c' & -> & Hc').
        exists ([EvOpen c; EvSpawn u] ++ pre), c'. by rewrite <- app_assoc.
    + simplify_eq. exists [EvOpen c; EvPrint (MsgOpenFailed (hurl c))].
      split; [done|]. split; [cbn; lia|]. by exists [], c.
    + simplify_eq. exists [EvOpenRaised u].
      split; [done|]. split; [cbn; lia|]. split; [done|]. by exists [], u.
Qed.

(** X8. Building the streams of the minimal variant goes through the URLs in
    order and stops at the first one that does not open.  Either every URL
    was opened: then one stream per URL is appended to the store, each with
    an opened capture object, an empty slot and its thread started.  Or the
    process exits: then the last things done are the open of a capture
    object that is not opened and the message, and the URLs after it were
    never tried.  Or the constructor of the capture raised. *)
Theorem create_streams_stops_at_first_failure :
  forall (rtsp_urls : list string) (st : list Way2.VideoStream * World),
    let r := Way2.create_streams rtsp_urls st in
    exists suf,
      trace r.2.2 = trace st.2 ++ suf
      /\ attempt_count suf <= length rtsp_urls
      /\ match fst r with
         | Ok sids =>
             sids = seq (length st.1) (length rtsp_urls)
             /\ attempt_count suf = length rtsp_urls
             /\ exists created,
                 r.2.1 = st.1 ++ created
                 /\ Way2.url <$> created = rtsp_urls
                 /\ Forall (fun s => hopen (Way2.cap s) = true
                                     /\ Way2.frame s = None
                                     /\ Way2.stopped s = false) created
         | Exited =>
             exists pre c,
               suf = pre ++ [EvOpen c; EvPrint (MsgOpenFailed (hurl c))]
               /\ hopen c = false
         | Raised e =>
             e = DecoderError
             /\ exists pre u, suf = pre ++ [EvOpenRaised u]
         end.
Proof.
  intros urls [heap w]. cbv zeta.
  destruct (Way2.create_streams urls (heap, w)) as [o [heap' w']] eqn:Hrun.
  exact (way2_create_streams_shape _ _ _ _ _ _ Hrun).
Qed.

(** ** Programs that call no decoder and write no field *)

Section Onlooker.

Lemma decoder_untouched_refl (w : World) : decoder_untouched w w.
Proof. repeat split. exists []. by rewrite app_nil_r. Qed.

Lemma decoder_untouched_trans (w1 w2 w3 : World) :
  decoder_untouched w1 w2 -> decoder_untouched w2 w3 -> decoder_untouched w1 w3.
Proof.
  intros (Hc1 & Hn1 & s1 & Ht1 & Hd1) (Hc2 & Hn2 & s2 & Ht2 & Hd2).
  split; [congruence|]. split; [congruence|].
  exists (s1 ++ s2). split; [by rewrite Ht2, Ht1, app_assoc|].
  rewrite count_events_app. lia.
Qed.

Lemma decoder_untouched_log (e : event) (w : World) :
  is_decoder_event e = false -> decoder_untouched w (log e w).
Proof.
  intros He. repeat split. exists [e]. split; [done|].
  rewrite count_events_cons, He. done.
Qed.

Context {X : Type}.

Lemma onlooker_ret {A} (a : A) : onlooker (X := X) (ret a).
Proof. intros st. split; [done|apply decoder_untouched_refl]. Qed.

Lemma onlooker_raise {A} (e : exn) : onlooker (X := X) (A := A) (raise e).
Proof. intros st. split; [done|apply decoder_untouched_refl]. Qed.

Lemma onlooker_emit (e : event) :
  is_decoder_event e = false -> onlooker (X := X) (in_world (emit e)).
Proof. intros He st. split; [done|]. by apply decoder_untouched_log. Qed.

Lemma onlooker_time : onlooker (X := X) (in_world time_time).
Proof. intros st. split; [done|]. repeat split. exists []. by rewrite app_nil_r. Qed.

End Onlooker.

(** ** The display loop draws on the frames it shows *)

Section Painter.

Import Way1.

Lemma drawn_over_refl (f : Frame) : drawn_over f f.
Proof. by split. Qed.

Lemma drawn_over_trans (f g h : Frame) :
  drawn_over f g -> drawn_over g h -> drawn_over f h.
Proof.
  intros [H1 H2] [H3 H4]. split; [congruence|]. by etrans.
Qed.

Lemma drawn_over_put_text (txt : overlay_text) (f : Frame) :
  drawn_over f (put_text txt f).
Proof. split; [done|]. cbn. by apply prefix_app_r. Qed.

#[local] Instance only_drawn_on_refl : Reflexive only_drawn_on.
Proof.
  intros s. split; [done|].
  destruct (latest_frame s); [apply drawn_over_refl|done].
Qed.

#[local] Instance only_drawn_on_trans : Transitive only_drawn_on.
Proof.
  intros s1 s2 s3 [H1 H2] [H3 H4]. split; [congruence|].
  destruct (latest_frame s1), (latest_frame s2), (latest_frame s3);
    try done.
  by eapply drawn_over_trans.
Qed.

Lemma only_drawn_on_put (s : RTSPStreamer) (f f' : Frame) :
  latest_frame s = Some f -> drawn_over f f' ->
  only_drawn_on s (set_latest_frame (Some f') s).
Proof. intros Hf Hd. split; [done|]. by rewrite Hf. Qed.

Lemma only_drawn_on_paired (s s' : RTSPStreamer) :
  only_drawn_on s s' -> slot_paired s -> slot_paired s'.
Proof.
  intros [Hsame Hframe] [Hnone|Hts].
  - left. rewrite Hnone in Hframe. by destruct (latest_frame s').
  - right.
    assert (latest_timestamp s' = latest_timestamp s) as ->; [|done].
    change (latest_timestamp (set_latest_frame None s') =
              latest_timestamp (set_latest_frame None s)).
    by rewrite Hsame.
Qed.

Lemma drawn_store_insert (heap : list RTSPStreamer) (sid : nat)
    (s s' : RTSPStreamer) :
  heap !! sid = Some s -> only_drawn_on s s' ->
  Forall2 only_drawn_on heap (<[sid := s']> heap).
Proof.
  intros Hs Hd. apply Forall2_lookup. intros i.
  destruct (decide (i = sid)) as [->|Hne].
  - rewrite list_lookup_insert_eq by (by eapply lookup_lt_Some).
    rewrite Hs. by constructor.
  - rewrite list_lookup_insert_ne by done.
    destruct (heap !! i); by constructor.
Qed.

Lemma onlooker_painter {A} (m : Main A) : onlooker m -> painter m.
Proof. intros Hm st. destruct (Hm st) as [-> H]. by split. Qed.

Lemma painter_ret {A} (a : A) : painter (ret a).
Proof. apply onlooker_painter, onlooker_ret. Qed.

Lemma painter_raise {A} (e : exn) : painter (A := A) (raise e).
Proof. apply onlooker_painter, onlooker_raise. Qed.

Lemma painter_emit (e : event) :
  is_decoder_event e = false -> painter (in_world (emit e)).
Proof. intros He. by apply onlooker_painter, onlooker_emit. Qed.

Lemma painter_time : painter (in_world time_time).
Proof. apply onlooker_painter, onlooker_time. Qed.

Lemma painter_bind {A B} (m : Main A) (k : A -> Main B) :
  painter m -> (forall a, painter (k a)) -> painter (bind m k).
Proof.
  intros Hm Hk st. unfold bind. destruct (Hm st) as [H1 H2].
  destruct (m st) as [[a|e|] st1]; cbn [fst snd] in *; [|done|done].
  destruct (Hk a st1) as [H3 H4]. split; [by etrans|].
  by eapply decoder_untouched_trans.
Qed.

Lemma bind_call_get_self {A} (sid : nat) (s : RTSPStreamer)
    (k : RTSPStreamer -> Main A) (heap : list RTSPStreamer) (w : World) :
  heap !! sid = Some s ->
  bind (call sid get_self) k (heap, w) = k s (heap, w).
Proof.
  intros Hs. unfold bind, call, get_self. cbn [fst snd]. rewrite Hs.
  by rewrite list_insert_id.
Qed.

Lemma bind_time {A} (k : Q -> Main A) (heap : list RTSPStreamer) (w : World) :
  bind (in_world time_time) k (heap, w) =
    k (clock w (ticks w)) (heap, bump_ticks w).
Proof. reflexivity. Qed.

Lemma bind_in_world_emit {A} (e : event) (k : unit -> Main A)
    (heap : list RTSPStreamer) (w : World) :
  bind (in_world (emit e)) k (heap, w) = k tt (heap, log e w).
Proof. reflexivity. Qed.

Lemma bind_putText {A} (sid : nat) (s : RTSPStreamer) (frame : Frame)
    (txt : overlay_text) (k : Frame -> Main A) (heap : list RTSPStreamer)
    (w : World) :
  heap !! sid = Some s ->
  bind (putText sid frame txt) k (heap, w) =
    k (put_text txt frame)
      (<[sid := set_latest_frame (Some (put_text txt frame)) s]> heap, w).
Proof.
  intros Hs. unfold putText, bind, call, set_self, ret. cbn [fst snd].
  by rewrite Hs.
Qed.

Lemma bind_call_get_self_insert {A} (sid : nat) (s : RTSPStreamer)
    (k : RTSPStreamer -> Main A) (heap : list RTSPStreamer) (w : World) :
  sid < length heap ->
  bind (call sid get_self) k (<[sid := s]> heap, w) =
    k s (<[sid := s]> heap, w).
Proof.
  intros Hlt. apply bind_call_get_self. by rewrite list_lookup_insert_eq.
Qed.

Lemma bind_putText_insert {A} (sid : nat) (s : RTSPStreamer) (frame : Frame)
    (txt : overlay_text) (k : Frame -> Main A) (heap : list RTSPStreamer)
    (w : World) :
  sid < length heap ->
  bind (putText sid frame txt) k (<[sid := s]> heap, w) =
    k (put_text txt frame)
      (<[sid := set_latest_frame (Some (put_text txt frame)) s]> heap, w).
Proof.
  intros Hlt. rewrite (bind_putText sid s)
    by (by rewrite list_lookup_insert_eq).
  by rewrite list_insert_insert_eq.
Qed.

Lemma elapsed_since_run (first_start : option Q)
    (heap : list RTSPStreamer) (w : World) :
  exists e w',
    elapsed_since first_start (heap, w) = (Ok e, (heap, w'))
    /\ (w' = w \/ w' = bump_ticks w).
Proof.
  unfold elapsed_since. destruct first_start as [t0|];
    [|eexists _, _; split; [reflexivity|by left]].
  destruct (Qeq_bool t0 0); eexists _, _; (split; [reflexivity|]);
    [by left|by right].
Qed.

Lemma decoder_untouched_bump (w : World) : decoder_untouched w (bump_ticks w).
Proof. repeat split. exists []. by rewrite app_nil_r. Qed.

(** One body of the display loop, on a streamer of the store: it replaces
    nothing but draws on the array in the slot.  With a frame and its
    timestamp in the slot, it completes, the four texts of this pass are
    added to those the array already carries, and that array is shown. *)
Lemma show_latest_run (sid : nat) (s : RTSPStreamer)
    (heap : list RTSPStreamer) (w : World) :
  heap !! sid = Some s ->
  exists r s' w',
    show_latest sid (heap, w) = (r, (<[sid := s']> heap, w'))
    /\ only_drawn_on s s'
    /\ decoder_untouched w w'
    /\ (latest_frame s = None -> r = Ok tt /\ s' = s)
    /\ (forall f t,
          latest_frame s = Some f -> latest_timestamp s = Some t ->
          exists fps now timestamp f',
            r = Ok tt
            /\ f' = {| pixels := pixels f;
                       drawn := drawn f ++
                         pass_texts fps (now - t)%Q (window_name s)
                           (frame_count s) timestamp |}
            /\ s' = set_latest_frame (Some f') s
            /\ trace w' = trace w ++ [EvShow (window_name s) f']).
Proof.
  intros Hs. unfold show_latest.
  rewrite (bind_call_get_self _ _ _ _ _ Hs). unfold read_slot.
  assert (Hlt : sid < length heap) by (by eapply lookup_lt_Some).
  destruct (latest_frame s) as [f|] eqn:Hf.
  2:{ exists (Ok tt), s, (log (EvPrint (MsgNoFrame (window_name s))) w).
      rewrite list_insert_id by done. split; [reflexivity|].
      split; [reflexivity|]. split; [by apply decoder_untouched_log|].
      split; [done|]. intros ? ? ?. done. }
  rewrite bind_time.
  destruct (latest_timestamp s) as [t|] eqn:Hts.
  2:{ exists (Raised TypeError), s, (bump_ticks w).
      rewrite list_insert_id by done. split; [reflexivity|].
      split; [reflexivity|]. split; [apply decoder_untouched_bump|].
      split; [done|]. intros ? ? ? ?. done. }
  rewrite (bind_call_get_self _ _ _ _ _ Hs). unfold bind at 1.
  destruct (elapsed_since_run (first_start_time s) heap (bump_ticks w))
    as (e & w1 & -> & Hw1).
  rewrite (bind_call_get_self _ _ _ _ _ Hs).
  rewrite (bind_putText _ _ _ _ _ _ _ Hs). cbv beta.
  rewrite bind_putText_insert by done. cbv beta. rewrite bind_time.
  rewrite bind_call_get_self_insert by done.
  rewrite bind_putText_insert by done. cbv beta.
  rewrite bind_putText_insert by done. cbv beta.
  unfold call. cbn [fst snd]. rewrite list_lookup_insert_eq by done.
  unfold visualize_frame. run_prog. rewrite list_insert_insert_eq.
  cbn [set_latest_frame rtsp_url window_name cap first_start_time frame_count
       latest_frame latest_timestamp stopped thread].
  match goal with
  | |- context [EvShow _ ?f4] =>
      exists (Ok tt), (set_latest_frame (Some f4) s); eexists
  end.
  split; [reflexivity|].
  split.
  { apply (only_drawn_on_put s f); [done|]. split; [done|]. cbn.
    rewrite <- !app_assoc. by apply prefix_app_r. }
  split.
  { eapply decoder_untouched_trans; [apply decoder_untouched_bump|].
    eapply decoder_untouched_trans;
      [|by apply decoder_untouched_log].
    eapply decoder_untouched_trans; [|apply decoder_untouched_bump].
    destruct Hw1 as [-> | ->];
      [apply decoder_untouched_refl|apply decoder_untouched_bump]. }
  split; [done|].
  intros f0 t0 ? ?. simplify_eq.
  eexists _, _, _, _. split; [done|]. split; [reflexivity|].
  split.
  { unfold put_text, pass_texts. cbn. by rewrite <- !app_assoc. }
  assert (Htr : trace w1 = trace w) by (by destruct Hw1 as [-> | ->]).
  cbn [trace log bump_ticks]. rewrite Htr. do 3 f_equal.
  unfold put_text, pass_texts. cbn. by rewrite <- !app_assoc.
Qed.

Lemma painter_show_latest (sid : nat) : painter (show_latest sid).
Proof.
  intros [heap w]. cbn [fst snd].
  destruct (heap !! sid) as [s|] eqn:Hs.
  - destruct (show_latest_run sid s heap w Hs)
      as (r & s' & w' & -> & Hd & Hw & _). cbn [fst snd].
    split; [by eapply drawn_store_insert|done].
  - assert (show_latest sid (heap, w) = (Raised AttributeError, (heap, w)))
      as ->.
    { unfold show_latest. unfold bind at 1, call at 1. cbn [fst snd].
      by rewrite Hs. }
    split; [done|apply decoder_untouched_refl].
Qed.

Lemma painter_for_each (l : list nat) (body : nat -> Main unit) :
  (forall x, painter (body x)) -> painter (for_each l body).
Proof.
  intros Hb. induction l as [|x l IH]; cbn [for_each]; [apply painter_ret|].
  apply painter_bind; [apply Hb|]. intros _. apply IH.
Qed.

Lemma painter_process_loop (keys : list Z) (start duration : Q)
    (active : list nat) :
  painter (process_loop keys start duration active).
Proof.
  induction keys as [|key keys IH]; cbn [process_loop].
  - apply painter_bind; [apply painter_time|]. intros now.
    destruct (Qle_bool duration (now - start)); [apply painter_ret|].
    apply painter_bind;
      [apply painter_for_each, painter_show_latest|].
    intros _. apply painter_raise.
  - apply painter_bind; [apply painter_time|]. intros now.
    destruct (Qle_bool duration (now - start)); [apply painter_ret|].
    apply painter_bind;
      [apply painter_for_each, painter_show_latest|].
    intros _. apply painter_bind; [by apply painter_emit|]. intros _.
    destruct (is_quit_key key); [by apply painter_emit|apply IH].
Qed.

Lemma painter_process_streamers (keys : list Z) (active : list nat)
    (n : Z) (t d : Q) :
  painter (process_streamers keys active n t d).
Proof.
  unfold process_streamers, print.
  apply painter_bind; [by apply painter_emit|]. intros _.
  apply painter_bind; [by apply painter_emit|]. intros _.
  apply painter_bind; [apply painter_time|]. intros start.
  apply painter_bind; [apply painter_process_loop|]. intros _.
  by apply painter_emit.
Qed.

End Painter.

(** X9. [process_streamers] of the threaded variant shows and draws, and
    nothing else.  Whatever the keys, the clock, the active list and the
    state of the streamers, and however it ends, it assigns no field of any
    streamer (handles, counters, timestamps, flags and threads are as
    before) and it never calls the decoder (no open, read or release); what
    it does change is the content of the arrays in the slots, on which
    [cv2.putText] draws in place: their decoded bytes stay and texts are
    added.  For a streamer whose slot holds a frame with its timestamp, one
    body of the loop adds the four texts of that pass to the texts the array
    already carries and shows that array: as long as the capture thread does
    not replace the frame, the texts of every pass pile up on it.  Failure
    detection, reconnects and removals, which the retry-only variant does in
    its poll loop, do not exist here. *)
Theorem process_streamers_only_draws :
  (forall (keys : list Z) (active : list nat) (try_times : Z)
          (try_interval duration : Q) (st : list Way1.RTSPStreamer * World),
      let r := Way1.process_streamers keys active try_times try_interval
                 duration st in
      Forall2 only_drawn_on st.1 r.2.1
      /\ cameras r.2.2 = cameras st.2
      /\ next_id r.2.2 = next_id st.2
      /\ exists suf, trace r.2.2 = trace st.2 ++ suf
                     /\ count_events is_decoder_event suf = 0)
  /\ (forall (sid : nat) (heap : list Way1.RTSPStreamer) (w : World)
             (s : Way1.RTSPStreamer) (f : Frame) (t : Q),
        heap !! sid = Some s ->
        Way1.latest_frame s = Some f ->
        Way1.latest_timestamp s = Some t ->
        let r := Way1.show_latest sid (heap, w) in
        exists fps now timestamp f',
          fst r = Ok tt
          /\ f' = {| pixels := pixels f;
                     drawn := drawn f ++
                       pass_texts fps (now - t)%Q (Way1.window_name s)
                         (Way1.frame_count s) timestamp |}
          /\ r.2.1 = <[sid := Way1.set_latest_frame (Some f') s]> heap
          /\ trace r.2.2 = trace w ++ [EvShow (Way1.window_name s) f']).
Proof.
  split.
  - intros keys active n t d st. cbv zeta.
    destruct (painter_process_streamers keys active n t d st)
      as (H1 & H2 & H3 & H4). done.
  - intros sid heap w s f t Hs Hf Ht. cbv zeta.
    destruct (show_latest_run sid s heap w Hs)
      as (r & s' & w' & -> & _ & _ & _ & Hdraw).
    destruct (Hdraw f t Hf Ht) as (fps & now & ts & f' & -> & Hf' & -> & Htr).
    by exists fps, now, ts, f'.
Qed.

Lemma process_streamers_only_draws_witness :
  let st := connected_streamer in
  let r := Way1.show_latest 0 ([st.1], st.2) in
  [st.1] !! 0 = Some st.1
  /\ Way1.latest_frame st.1 = Some frame_a
  /\ Way1.latest_timestamp st.1 = Some 1%Q
  /\ exists fps now timestamp f',
      fst r = Ok tt
      /\ f' = {| pixels := pixels frame_a;
                 drawn := drawn frame_a ++
                   pass_texts fps (now - 1)%Q (Way1.window_name st.1)
                     (Way1.frame_count st.1) timestamp |}
      /\ r.2.1 = <[0 := Way1.set_latest_frame (Some f') st.1]> [st.1]
      /\ trace r.2.2 = trace st.2 ++ [EvShow (Way1.window_name st.1) f'].
Proof.
  intros st r.
  assert (Hf : Way1.latest_frame st.1 = Some frame_a) by (vm_compute; reflexivity).
  assert (Ht : Way1.latest_timestamp st.1 = Some 1%Q) by (vm_compute; reflexivity).
  split; [reflexivity|]. split; [exact Hf|]. split; [exact Ht|].
  exact (proj2 process_streamers_only_draws 0 [st.1] st.2 st.1 frame_a 1%Q
           eq_refl Hf Ht).
Defined.

(** ** The counter and the lock under both threads *)

Lemma counter_lag_step (a : SlotProtocol.action) (c : SlotProtocol.Config) :
  length (SlotProtocol.published c) =
    SlotProtocol.frame_count c + in_flight (SlotProtocol.cpc c) ->
  length (SlotProtocol.published (SlotProtocol.act a c)) =
    SlotProtocol.frame_count (SlotProtocol.act a c)
    + in_flight (SlotProtocol.cpc (SlotProtocol.act a c)).
Proof.
  intros H. destruct a as [[|]|]; cbn [SlotProtocol.act]; [| |done].
  - unfold SlotProtocol.capture_step.
    destruct (SlotProtocol.cpc c) as [| |f|f|f| | |] eqn:Hpc.
    + destruct (SlotProtocol.stopped c); cbn in *; lia.
    + destruct (SlotProtocol.decoder c) as [|[|[|] [f|]] rest]; cbn in *; lia.
    + destruct (SlotProtocol.lock c); cbn in *; rewrite ?Hpc; cbn; lia.
    + cbn in *. lia.
    + cbn in *. rewrite length_app. cbn. lia.
    + cbn in *. lia.
    + cbn in *. lia.
    + rewrite Hpc. cbn in *. lia.
  - unfold SlotProtocol.poll_step.
    destruct (SlotProtocol.ppc c); [|done|done|done].
    destruct (SlotProtocol.lock c); done.
Qed.

Lemma counter_lag_run (schedule : list SlotProtocol.action)
    (c : SlotProtocol.Config) :
  length (SlotProtocol.published c) =
    SlotProtocol.frame_count c + in_flight (SlotProtocol.cpc c) ->
  length (SlotProtocol.published (SlotProtocol.run schedule c)) =
    SlotProtocol.frame_count (SlotProtocol.run schedule c)
    + in_flight (SlotProtocol.cpc (SlotProtocol.run schedule c)).
Proof.
  revert c. induction schedule as [|a schedule IH]; intros c H; [done|].
  apply IH. by apply counter_lag_step.
Qed.

(** X10. Under any schedule of the two threads, the counter [frame_count]
    never runs ahead of the frames written to the slot and lags behind them
    by at most one: it is increased after the lock is given back, so a
    reader can see a new frame in the slot while the counter still has its
    old value, never the other way round.  And the two [with self.lock]
    blocks exclude each other: the capture thread is never between its two
    assignments while the poll loop is between its two reads. *)
Theorem counter_lags_by_at_most_one :
  forall (seed : option Frame * option Q) (reads : list read_outcome)
         (clk : nat -> Q) (t0 : nat) (schedule : list SlotProtocol.action),
    let c := SlotProtocol.run schedule (SlotProtocol.start seed reads clk t0) in
    length (SlotProtocol.published c) =
      SlotProtocol.frame_count c + in_flight (SlotProtocol.cpc c)
    /\ SlotProtocol.frame_count c <= length (SlotProtocol.published c)
         <= SlotProtocol.frame_count c + 1
    /\ capture_inside (SlotProtocol.cpc c) && poll_inside (SlotProtocol.ppc c)
       = false.
Proof.
  intros seed reads clk t0 schedule c.
  assert (Hlag : length (SlotProtocol.published c) =
                   SlotProtocol.frame_count c + in_flight (SlotProtocol.cpc c)).
  { by apply counter_lag_run. }
  split; [done|]. split.
  - rewrite Hlag. destruct (SlotProtocol.cpc c); cbn; lia.
  - destruct (protocol_inv_run seed reads schedule _
                (protocol_inv_start seed reads clk t0)) as (Hc & Hp & _).
    fold c in Hc, Hp.
    destruct (SlotProtocol.cpc c), (SlotProtocol.ppc c); cbn in *;
      first [done|congruence].
Qed.

(** ** The FPS figure *)



(** ** The clean-up of [main] *)

Section Cleanup.

Import Multi.

Lemma size_ret {A} (a : A) : keeps_store_size (S := RTSPstreamer) (ret a).
Proof. by intros st. Qed.

Lemma size_raise {A} (e : exn) :
  keeps_store_size (S := RTSPstreamer) (A := A) (raise e).
Proof. by intros st. Qed.

Lemma size_bind {A B} (m : Main A) (k : A -> Main B) :
  keeps_store_size m -> (forall a, keeps_store_size (k a)) ->
  keeps_store_size (bind m k).
Proof.
  intros Hm Hk st. unfold bind. specialize (Hm st).
  destruct (m st) as [[a|e|] st1]; cbn [fst snd] in *; [|done|done].
  by rewrite Hk.
Qed.

Lemma size_in_world {A} (m : Prog World A) :
  keeps_store_size (S := RTSPstreamer) (in_world m).
Proof. intros st. unfold in_world. by destruct (m st.2). Qed.

Lemma size_call {A} (sid : nat) (m : Method A) : keeps_store_size (call sid m).
Proof.
  intros [heap w]. unfold call. cbn [fst snd].
  destruct (heap !! sid) as [self|]; [|done].
  destruct (m (self, w)) as [r [s1 w1]]. cbn. apply length_insert.
Qed.

Lemma size_list_remove (sid : nat) (l : list nat) :
  keeps_store_size (S := RTSPstreamer) (list_remove sid l).
Proof. intros st. unfold list_remove. by destruct (remove_first sid l). Qed.

Ltac size_tac :=
  repeat (first
            [ apply size_ret
            | apply size_raise
            | apply size_in_world
            | apply size_call
            | apply size_list_remove
            | apply size_bind; [|intros ?] ]
          || match goal with
             | |- keeps_store_size (match ?x with _ => _ end) => destruct x
             | |- keeps_store_size (if ?x then _ else _) => destruct x
             end).

Lemma size_poll_body (sid : nat) (active : list nat) :
  keeps_store_size (poll_body sid active).
Proof. unfold poll_body. size_tac. Qed.

Lemma size_for_active (fuel i : nat) (active : list nat) :
  keeps_store_size (for_active fuel i active).
Proof.
  revert i active. induction fuel as [|fuel IH]; intros i active;
    cbn [for_active]; [apply size_ret|].
  destruct (active !! i); [|apply size_ret].
  apply size_bind; [apply size_poll_body|]. intros active'. apply IH.
Qed.

Lemma size_poll_loop (keys : list Z) (active : list nat) :
  keeps_store_size (poll_loop keys active).
Proof.
  revert active. induction keys as [|key keys IH]; intros active;
    cbn [poll_loop].
  - apply size_bind; [apply size_for_active|]. intros ?. apply size_raise.
  - apply size_bind; [apply size_for_active|]. intros active'.
    apply size_bind; [apply size_in_world|]. intros _.
    destruct (is_quit_key key); [apply size_in_world|apply IH].
Qed.

Lemma size_initialize (sids : list nat) : keeps_store_size (initialize sids).
Proof.
  induction sids as [|sid sids IH]; cbn [initialize]; [apply size_ret|].
  apply size_bind; [apply size_call|]. intros ok.
  apply size_bind; [apply IH|]. intros active. apply size_ret.
Qed.

(** [release_all] on valid references: it always completes, and afterwards
    every streamer it was given holds no handle. *)
Lemma release_all_clears (sids : list nat) (heap : list RTSPstreamer)
    (w : World) :
  (forall sid, sid ∈ sids -> sid < length heap) ->
  exists heap' w',
    release_all sids (heap, w) = (Ok tt, (heap', w'))
    /\ length heap' = length heap
    /\ (forall i s', heap' !! i = Some s' ->
          cap s' = None \/ ((i ∉ sids) /\ heap !! i = Some s')).
Proof.
  revert heap w. induction sids as [|sid sids IH]; intros heap w Hvalid.
  - exists heap, w. split; [done|]. split; [done|].
    intros i s' Hi. right. split; [|done]. apply not_elem_of_nil.
  - destruct (lookup_lt_is_Some_2 heap sid) as [s Hs]; [apply Hvalid; by left|].
    cbn [release_all]. unfold bind at 1, call at 1. cbn [fst snd].
    rewrite Hs, multi_release_run.
    destruct (IH (<[sid := multi_released s]> heap)
                (with_trace (trace w ++ close_of (cap s)) w))
      as (heap' & w' & -> & Hlen & Hall).
    { intros sid' Hin. rewrite length_insert. apply Hvalid. by right. }
    exists heap', w'. split; [done|].
    split; [by rewrite Hlen, length_insert|].
    intros i s' Hi. destruct (Hall i s' Hi) as [Hnone|[Hnot Hold]]; [by left|].
    destruct (decide (i = sid)) as [->|Hne].
    + rewrite list_lookup_insert_eq in Hold by (by eapply lookup_lt_Some).
      simplify_eq. by left.
    + rewrite list_lookup_insert_ne in Hold by done.
      right. split; [|done]. intros Hin.
      apply elem_of_cons in Hin as [->|Hin]; done.
Qed.

(** X12. The [finally] block of [main] does its job whatever the poll loop
    did.  Once start-up has returned (streamers created, initial [run] done),
    [main] ends with every streamer it created holding no handle: for every
    sequence of keys and every decoder behaviour, also when the poll loop was
    ended by the interrupt or by an exception out of a decoder read. *)
Theorem main_releases_every_streamer :
  forall (rtsp_urls : list string) (keys : list Z) (w : World)
         (active : list nat) (st1 : list RTSPstreamer * World),
    bind (create_streamers rtsp_urls) initialize ([], w) = (Ok active, st1) ->
    let r := main rtsp_urls keys ([], w) in
    length r.2.1 = length rtsp_urls
    /\ Forall (fun s => cap s = None) r.2.1.
Proof.
  intros urls keys w active st1 Hstart. cbv zeta.
  cut (exists o heap' w',
          main urls keys ([], w) = (o, (heap', w'))
          /\ length heap' = length urls
          /\ Forall (fun s => cap s = None) heap').
  { intros (o & heap' & w' & -> & Hlen & Hall). done. }
  unfold main.
  unfold bind at 1 in Hstart. unfold bind at 1.
  destruct (create_streamers_run urls ([], w)) as (heap & Hrun & Hlen).
  rewrite Hrun in *. cbn [fst snd length] in *.
  pose proof (size_initialize (seq 0 (length urls)) (heap, w)) as Hsz.
  unfold bind at 1. rewrite Hstart in *. cbn [fst snd] in Hsz.
  unfold try_finally.
  set (body := try_except (poll_loop keys active) is_KeyboardInterrupt
                 (fun _ => in_world (print MsgInterrupt))).
  assert (Hbody : length (body st1).2.1 = length urls).
  { subst body. unfold try_except.
    pose proof (size_poll_loop keys active st1) as Hl.
    destruct (poll_loop keys active st1) as [[?|e|] st2]; cbn [fst snd] in *;
      [lia| |lia].
    destruct (is_KeyboardInterrupt e); cbn; [|lia].
    unfold in_world. cbn. lia. }
  destruct (body st1) as [r2 [heap2 w2]]. cbn [fst snd] in Hbody.
  unfold bind at 1.
  destruct (release_all_clears (seq 0 (length urls)) heap2 w2)
    as (heap' & w' & -> & Hlen' & Hall).
  { intros sid Hin. apply elem_of_seq in Hin. lia. }
  unfold in_world, emit. cbn [fst snd].
  eexists _, heap', _. split; [reflexivity|].
  split; [lia|]. apply Forall_forall. intros s Hin.
  apply list_elem_of_lookup in Hin as [i Hi].
  destruct (Hall i s Hi) as [Hnone|[Hnot _]]; [done|].
  exfalso. apply Hnot. apply elem_of_seq. apply lookup_lt_Some in Hi. lia.
Qed.

End Cleanup.

Lemma main_releases_every_streamer_witness :
  let w := two_cameras in
  bind (Multi.create_streamers [url_101; url_201]) Multi.initialize ([], w) =
    (Ok [0; 1], two_streamers)
  /\ length (Multi.main [url_101; url_201] [0%Z; 113%Z] ([], w)).2.1 = 2
  /\ Forall (fun s => Multi.cap s = None)
       (Multi.main [url_101; url_201] [0%Z; 113%Z] ([], w)).2.1.
Proof.
  intros w.
  assert (H : bind (Multi.create_streamers [url_101; url_201]) Multi.initialize
                ([], w) = (Ok [0; 1], two_streamers))
    by (vm_compute; reflexivity).
  split; [exact H|].
  exact (main_releases_every_streamer [url_101; url_201] [0%Z; 113%Z] w
           [0; 1] two_streamers H).
Defined.

(** ** What a successful [run] has done *)

(** X13. A [run] that returns [True] has taken two frames from the capture
    object it connected and shown only the second: the frame of the
    validating read in [__connect_server] is dropped, the next read on the
    same object follows at once and its frame is the one displayed in the
    streamer's window; the streamer keeps that capture object. *)
Theorem run_shows_second_frame :
  forall (try_times : Z) (try_interval : Q) (self self' : Multi.RTSPstreamer)
         (w w' : World),
    Multi.run try_times try_interval (self, w) = (Ok true, (self', w')) ->
    exists c f0 f pre,
      self' = Multi.set_cap (Some c) self
      /\ hurl c = Multi.rtsp_url self
      /\ trace w' =
           pre ++ [EvOpen c; EvRead c (ReadReturns true (Some f0));
                   EvRead c (ReadReturns true (Some f));
                   EvShow (Multi.window_name self) f].
Proof.
  intros n t s s' w w' H. unfold Multi.run, Multi.__connect_server in H.
  unfold bind at 1 in H.
  pose proof (multi_connect_outcome (Z.to_nat n) 0 t s w) as Hc. cbv zeta in Hc.
  destruct (Multi.connect_attempts (Z.to_nat n) 0 t (s, w)) as [r1 [s1 w1]].
  cbn [fst snd] in Hc.
  destruct Hc as [[-> ->]|[(-> & c & f0 & pre & -> & Hu & Ht)|(-> & _)]];
    [| |done].
  - run_prog_in H. done.
  - cbn [negb] in H.
    unfold bind at 1, Multi.self_cap_read at 1 in H.
    unfold bind at 1, get_self at 1 in H.
    cbn [fst snd Multi.cap Multi.set_cap] in H.
    unfold in_world at 1 in H. cbn [fst snd] in H.
    destruct (cap_read_cases c w1)
      as [(ok & fr & w2 & Hr & _ & Ht2)|(w2 & Hr & _ & Ht2)];
      rewrite Hr in H; [|done].
    cbn [fst snd] in H.
    destruct (good_frame ok fr) as [f|] eqn:Hgood.
    + assert (ok = true /\ fr = Some f) as [-> ->].
      { unfold good_frame, read_failed in Hgood.
        destruct ok, fr; cbn in Hgood; by simplify_eq. }
      unfold Multi.visualize_frame in H. run_prog_in H.
      cbn [Multi.window_name Multi.set_cap] in H. simplify_eq.
      exists c, f0, f, pre. split; [done|]. split; [done|].
      cbn. rewrite Ht2, Ht, <- !app_assoc. by cbn.
    + unfold Multi.self_cap_release in H. run_prog_in H. done.
Qed.

Lemma run_shows_second_frame_witness :
  let self := Multi.__init__ url_201 "Stream_201" in
  let w := world_of [(url_201, steady_camera)] in
  let r := Multi.run 2 (2 # 1) (self, w) in
  r = (Ok true, r.2)
  /\ exists c f0 f pre,
      r.2.1 = Multi.set_cap (Some c) self
      /\ hurl c = Multi.rtsp_url self
      /\ trace r.2.2 =
           pre ++ [EvOpen c; EvRead c (ReadReturns true (Some f0));
                   EvRead c (ReadReturns true (Some f));
                   EvShow (Multi.window_name self) f].
Proof.
  intros self w r.
  assert (Hrun : r = (Ok true, (r.2.1, r.2.2))) by (vm_compute; reflexivity).
  split; [vm_compute; reflexivity|].
  exact (run_shows_second_frame 2 (2 # 1) self r.2.1 w r.2.2 Hrun).
Defined.

(** ** Removing from the list that the pass iterates *)

Section SkippedStreamer.

Import Multi.

Local Abbreviation slog st := (supervisor_log (trace (snd st))).

Lemma about_elem (P : nat -> Prop) (l : list event) (e : event) (s : nat) :
  about P l -> e ∈ l -> ghost_sid e = Some s -> P s.
Proof.
  intros Hab Hin Hs. unfold about in Hab. rewrite Forall_forall in Hab.
  destruct (Hab e Hin) as (s' & Hs' & HP). congruence.
Qed.

Lemma body_log_about (sid : nat) (l : list event) :
  quiet_body_log sid l \/ l = removal_log sid ->
  about (fun s => s = sid) l.
Proof.
  intros [[-> | [-> | [-> | ->]]] | ->]; unfold about, removal_log;
    repeat constructor; by exists sid.
Qed.

Lemma elem_of_drop_S (x : nat) (n : nat) (l : list nat) :
  x ∈ drop (S n) l -> x ∈ drop n l.
Proof.
  intros Hin. destruct (l !! n) as [y|] eqn:Hn.
  - rewrite (drop_S _ _ _ Hn). by right.
  - rewrite drop_ge in Hin; [by apply elem_of_nil in Hin|].
    apply lookup_ge_None in Hn. lia.
Qed.

Lemma elem_of_drop_lookup (x : nat) (n : nat) (l : list nat) :
  l !! n = Some x -> x ∈ drop n l.
Proof. intros Hn. rewrite (drop_S _ _ _ Hn). by left. Qed.

Lemma not_elem_of_drop (x : nat) (j n : nat) (l : list nat) :
  NoDup l -> l !! j = Some x -> j < n -> x ∉ drop n l.
Proof.
  intros Hnd Hj Hlt Hin. apply list_elem_of_lookup in Hin as [k Hk].
  rewrite lookup_drop in Hk.
  pose proof (NoDup_lookup _ _ _ _ Hnd Hj Hk). lia.
Qed.

(** [remove] at the position of the iterator: what lies beyond the next
    index afterwards is what lay two places further before. *)
Lemma remove_first_drop (sid : nat) (l l' : list nat) (i : nat) :
  remove_first sid l = Some l' -> l !! i = Some sid ->
  drop (S i) l' = drop (S (S i)) l.
Proof.
  revert l' i. induction l as [|x l IH]; intros l' i H Hi; [done|].
  cbn in H. case_bool_decide as Hx.
  - by simplify_eq.
  - destruct i as [|i]; [cbn in Hi; by simplify_eq|].
    destruct (remove_first sid l) as [l0|] eqn:Hr; [|done].
    cbn in H, Hi. simplify_eq. cbn. by apply IH.
Qed.

Lemma remove_first_delete (sid : nat) (l l' : list nat) (i : nat) :
  NoDup l -> remove_first sid l = Some l' -> l !! i = Some sid ->
  l' = delete i l.
Proof.
  revert l' i. induction l as [|x l IH]; intros l' i Hnd H Hi; [done|].
  cbn in H. case_bool_decide as Hx.
  - simplify_eq.
    assert (i = 0) as -> by (by eapply (NoDup_lookup _ i 0 _ Hnd)).
    done.
  - destruct i as [|i]; [cbn in Hi; by simplify_eq|].
    destruct (remove_first sid l) as [l0|] eqn:Hr; [|done].
    cbn in H, Hi. simplify_eq. cbn. f_equal.
    apply NoDup_cons in Hnd as [_ Hnd]. by apply IH.
Qed.

(** From index [i] on, a pass only deals with streamers that stand at index
    [i] or later in the list. *)
Lemma for_active_from (fuel i : nat) (active : list nat)
    (st st' : list RTSPstreamer * World) (r : outcome (list nat)) :
  for_active fuel i active st = (r, st') ->
  exists l, slog st' = slog st ++ l /\ about (fun s => s ∈ drop i active) l.
Proof.
  unfold about.
  revert i active st. induction fuel as [|fuel IH]; intros i active st H.
  - cbn in H. unfold ret in H. simplify_eq. exists [].
    rewrite app_nil_r. by split.
  - cbn [for_active] in H.
    destruct (active !! i) as [sid|] eqn:Hi.
    2:{ unfold ret in H. simplify_eq. exists []. rewrite app_nil_r. by split. }
    assert (Hin : sid ∈ active) by (by eapply list_elem_of_lookup_2).
    unfold bind in H.
    destruct (poll_body sid active st) as [r1 st1] eqn:Hbody.
    destruct (poll_body_log _ _ _ _ _ Hin Hbody)
      as (l1 & Hl1 & Hcases).
    assert (Hab1 : Forall (fun e => exists s : nat,
                      ghost_sid e = Some s /\ s ∈ drop i active) l1).
    { eapply Forall_impl; [apply (body_log_about sid)|].
      - destruct Hcases as [[Hq _]|[-> _]]; [by left|by right].
      - intros e (s & Hs & ->). exists sid. split; [done|].
        by apply elem_of_drop_lookup. }
    destruct Hcases as [[Hq Hsame]|(-> & active1 & -> & Hrem)].
    + destruct r1 as [active1|e|]; [|simplify_eq; by exists l1..].
      rewrite (Hsame active1 eq_refl) in H.
      destruct (IH _ _ _ H) as (l2 & Hl2 & Hab2).
      exists (l1 ++ l2). rewrite Hl2, Hl1, app_assoc. split; [done|].
      apply Forall_app. split; [done|].
      eapply Forall_impl; [exact Hab2|].
      intros e (s & Hs & Hs'). exists s. split; [done|].
      by apply elem_of_drop_S.
    + destruct (IH _ _ _ H) as (l2 & Hl2 & Hab2).
      exists (removal_log sid ++ l2). rewrite Hl2, Hl1, app_assoc.
      split; [done|]. apply Forall_app. split; [done|].
      eapply Forall_impl; [exact Hab2|].
      intros e (s & Hs & Hs'). exists s. split; [done|].
      rewrite (remove_first_drop _ _ _ _ Hrem Hi) in Hs'.
      by do 2 apply elem_of_drop_S.
Qed.

Lemma for_active_skips (fuel i j : nat) (active : list nat) (sid next : nat)
    (st st' : list RTSPstreamer * World) (r : outcome (list nat)) :
  NoDup active ->
  active !! j = Some sid -> active !! S j = Some next ->
  for_active fuel i active st = (r, st') ->
  exists l,
    slog st' = slog st ++ l
    /\ (EvRemove sid ∈ l -> forall b, EvPoll next b ∉ l).
Proof.
  revert i j active st.
  induction fuel as [|fuel IH]; intros i j active st Hnd Hj Hn H.
  { cbn in H. unfold ret in H. simplify_eq. exists [].
    rewrite app_nil_r. split; [done|]. intros Hin. by apply elem_of_nil in Hin. }
  destruct (decide (j < i)) as [Hlt|Hge].
  { destruct (for_active_from _ _ _ _ _ _ H) as (l & Hl & Hab).
    exists l. split; [done|]. intros Hrm. exfalso.
    apply (not_elem_of_drop sid j i active Hnd Hj Hlt).
    by apply (about_elem _ l (EvRemove sid) sid Hab Hrm). }
  cbn [for_active] in H.
  destruct (active !! i) as [x|] eqn:Hi.
  2:{ unfold ret in H. simplify_eq. exists []. rewrite app_nil_r.
      split; [done|]. intros Hin. by apply elem_of_nil in Hin. }
  assert (Hin : x ∈ active) by (by eapply list_elem_of_lookup_2).
  unfold bind in H.
  destruct (poll_body x active st) as [r1 st1] eqn:Hbody.
  destruct (poll_body_log _ _ _ _ _ Hin Hbody) as (l1 & Hl1 & Hcases).
  assert (Hab1 : about (fun s => s = x) l1).
  { apply body_log_about.
    destruct Hcases as [[Hq _]|[-> _]]; [by left|by right]. }
  assert (Hsn : sid <> next).
  { intros ->. pose proof (NoDup_lookup _ _ _ _ Hnd Hj Hn). lia. }
  destruct (decide (i = j)) as [->|Hne].
  - (* the iterator stands on [sid] *)
    assert (x = sid) as -> by congruence.
    assert (Hno1 : forall b, EvPoll next b ∉ l1).
    { intros b Hp. apply Hsn. symmetry.
      by apply (about_elem _ l1 (EvPoll next b) next Hab1 Hp). }
    destruct Hcases as [[Hq Hsame]|(-> & active1 & -> & Hrem)].
    + destruct r1 as [active1|e|].
      * rewrite (Hsame active1 eq_refl) in H.
        destruct (for_active_from _ _ _ _ _ _ H) as (l2 & Hl2 & Hab2).
        exists (l1 ++ l2). rewrite Hl2, Hl1, app_assoc. split; [done|].
        intros Hrm. exfalso.
        apply elem_of_app in Hrm as [Hrm|Hrm];
          [by eapply quiet_no_removal|].
        apply (not_elem_of_drop sid j (S j) active Hnd Hj); [lia|].
        by apply (about_elem _ l2 (EvRemove sid) sid Hab2 Hrm).
      * simplify_eq. exists l1. split; [done|]. intros Hrm. exfalso.
        by eapply quiet_no_removal.
      * simplify_eq. exists l1. split; [done|]. intros Hrm. exfalso.
        by eapply quiet_no_removal.
    + destruct (for_active_from _ _ _ _ _ _ H) as (l2 & Hl2 & Hab2).
      exists (removal_log sid ++ l2). rewrite Hl2, Hl1, app_assoc.
      split; [done|]. intros _ b Hp.
      apply elem_of_app in Hp as [Hp|Hp]; [by apply (Hno1 b)|].
      pose proof (about_elem _ l2 (EvPoll next b) next Hab2 Hp eq_refl) as Hd.
      cbn beta in Hd. rewrite (remove_first_drop _ _ _ _ Hrem Hi) in Hd.
      apply (not_elem_of_drop next (S j) (S (S j)) active Hnd Hn); [lia|done].
  - (* the iterator has not reached [sid] yet *)
    assert (Hij : i < j) by lia.
    assert (Hxs : x <> sid).
    { intros ->. pose proof (NoDup_lookup _ _ _ _ Hnd Hj Hi). lia. }
    assert (Hxn : x <> next).
    { intros ->. pose proof (NoDup_lookup _ _ _ _ Hnd Hn Hi). lia. }
    assert (Hrm1 : EvRemove sid ∉ l1).
    { intros Hrm. apply Hxs. symmetry.
      by apply (about_elem _ l1 (EvRemove sid) sid Hab1 Hrm). }
    assert (Hno1 : forall b, EvPoll next b ∉ l1).
    { intros b Hp. apply Hxn. symmetry.
      by apply (about_elem _ l1 (EvPoll next b) next Hab1 Hp). }
    destruct Hcases as [[Hq Hsame]|(-> & active1 & -> & Hrem)].
    + destruct r1 as [active1|e|]; [|simplify_eq; by exists l1..].
      rewrite (Hsame active1 eq_refl) in H.
      destruct (IH _ _ _ _ Hnd Hj Hn H) as (l2 & Hl2 & Hskip).
      exists (l1 ++ l2). rewrite Hl2, Hl1, app_assoc. split; [done|].
      intros Hrm b Hp.
      apply elem_of_app in Hrm as [Hrm|Hrm]; [done|].
      apply elem_of_app in Hp as [Hp|Hp]; [by apply (Hno1 b)|].
      by apply (Hskip Hrm b).
    + pose proof (remove_first_delete _ _ _ _ Hnd Hrem Hi) as ->.
      destruct (remove_first_spec _ _ _ Hrem) as [_ Hnd1].
      destruct (Hnd1 Hnd) as [Hnd' _].
      destruct j as [|j']; [lia|].
      assert (Hj' : delete i active !! j' = Some sid).
      { rewrite list_lookup_delete_ge by lia. done. }
      assert (Hn' : delete i active !! S j' = Some next).
      { rewrite list_lookup_delete_ge by lia. done. }
      destruct (IH _ _ _ _ Hnd' Hj' Hn' H) as (l2 & Hl2 & Hskip).
      exists (removal_log x ++ l2). rewrite Hl2, Hl1, app_assoc.
      split; [done|]. intros Hrm b Hp.
      apply elem_of_app in Hrm as [Hrm|Hrm]; [done|].
      apply elem_of_app in Hp as [Hp|Hp]; [by apply (Hno1 b)|].
      by apply (Hskip Hrm b).
Qed.

(** X14. Removing a streamer from [active_streamers] inside the [for] loop
    over that list makes the loop skip a streamer.  In a pass over a list of
    distinct streamers, when the streamer at some position is removed (its
    reconnect failed), the streamer that stood right after it is not polled
    in that pass: it moves into the freed position, which the iterator has
    already left. *)
Theorem removal_skips_next_streamer :
  forall (active : list nat) (j sid next : nat)
         (st st' : list Multi.RTSPstreamer * World) (r : outcome (list nat)),
    NoDup active ->
    active !! j = Some sid -> active !! S j = Some next ->
    Multi.poll_pass active st = (r, st') ->
    exists l,
      supervisor_log (trace st'.2) = supervisor_log (trace st.2) ++ l
      /\ (EvRemove sid ∈ l -> forall b, EvPoll next b ∉ l).
Proof.
  intros active j sid next st st' r Hnd Hj Hn H.
  by apply (for_active_skips _ _ _ _ _ _ _ _ _ Hnd Hj Hn H).
Qed.

End SkippedStreamer.

Lemma removal_skips_next_streamer_witness :
  NoDup [0; 1]
  /\ [0; 1] !! 0 = Some 0
  /\ [0; 1] !! 1 = Some 1
  /\ exists l,
      supervisor_log (trace (Multi.poll_pass [0; 1] two_streamers).2.2) =
        supervisor_log (trace two_streamers.2) ++ l
      /\ (EvRemove 0 ∈ l -> forall b, EvPoll 1 b ∉ l).
Proof.
  assert (Hnd : NoDup [0; 1]) by apply (NoDup_seq 0 2).
  split; [exact Hnd|]. split; [reflexivity|]. split; [reflexivity|].
  exact (removal_skips_next_streamer [0; 1] 0 0 1 two_streamers
           (Multi.poll_pass [0; 1] two_streamers).2
           (Multi.poll_pass [0; 1] two_streamers).1
           Hnd eq_refl eq_refl
           (surjective_pairing (Multi.poll_pass [0; 1] two_streamers))).
Defined.

(** ** The threaded [main] from start to end *)

Section ThreadedMain.

Import Way1.

Lemma connect_server_keeps_paired (n : Z) (t : Q) (s : RTSPStreamer)
    (w : World) :
  slot_paired s -> slot_paired (connect_server n t (s, w)).2.1.
Proof.
  intros Hp. unfold connect_server.
  destruct (way1_connect_outcome (Z.to_nat n) 0 t s w)
    as [[_ ->]|[(_ & c & f & pre & _ & _ & Hts & _)|(_ & -> & _)]];
    [done|by right|done].
Qed.

Lemma create_streamers_paired (idx : nat) (urls : list string)
    (heap : list RTSPStreamer) (w : World) :
  Forall slot_paired heap ->
  Forall slot_paired (create_streamers idx urls (heap, w)).2.1.
Proof.
  revert idx heap w. induction urls as [|u urls IH]; intros idx heap w Hall;
    [done|].
  rewrite way1_create_streamers_cons. cbv zeta.
  match goal with
  | |- context [create_streamers (S idx) urls (?h, ?w1)] =>
      pose proof (IH (S idx) h w1) as Hrec;
      destruct (create_streamers (S idx) urls (h, w1)) as [[sids|e|] st]
  end; cbn [fst snd] in *; apply Hrec;
    (apply Forall_app; split; [done|]); repeat constructor; by left.
Qed.

Lemma connect_all_paired (sids : list nat) (heap : list RTSPStreamer)
    (w : World) (r : outcome (list nat)) (st' : list RTSPStreamer * World) :
  Forall slot_paired heap ->
  connect_all sids (heap, w) = (r, st') ->
  length st'.1 = length heap /\ Forall slot_paired st'.1.
Proof.
  revert heap w r st'.
  induction sids as [|sid sids IH]; intros heap w r st' Hall H.
  { cbn in H. unfold ret in H. by simplify_eq. }
  cbn [connect_all] in H. unfold bind at 1 in H.
  assert (Hcall : length (call sid (connect_server 2 (2 # 1)) (heap, w)).2.1 =
                    length heap
                  /\ Forall slot_paired
                       (call sid (connect_server 2 (2 # 1)) (heap, w)).2.1).
  { unfold call. cbn [fst snd]. destruct (heap !! sid) as [s|] eqn:Hs; [|done].
    pose proof (connect_server_keeps_paired 2 (2 # 1) s w) as Hk.
    destruct (connect_server 2 (2 # 1) (s, w)) as [r1 [s1 w1]].
    cbn [fst snd] in *.
    split; [apply length_insert|]. apply Forall_insert; [done|].
    apply Hk. rewrite Forall_forall in Hall. apply Hall.
    by eapply list_elem_of_lookup_2. }
  destruct (call sid (connect_server 2 (2 # 1)) (heap, w))
    as [[ok|e|] [heap1 w1]]; cbn [fst snd] in *; [|by simplify_eq..].
  destruct Hcall as [Hlen Hall1]. unfold bind at 1 in H.
  destruct (connect_all sids (heap1, w1)) as [[active|e|] [heap2 w2]] eqn:Hrec;
    destruct (IH _ _ _ _ Hall1 Hrec) as [Hlen2 Hall2];
    unfold ret in H; simplify_eq; cbn [fst snd] in *; (split; [lia|done]).
Qed.

(** With paired slots the body of the display loop always completes, and
    the slots stay paired. *)
Lemma show_latest_returns (sid : nat) (heap : list RTSPStreamer) (w : World) :
  Forall slot_paired heap -> sid < length heap ->
  exists heap' w',
    show_latest sid (heap, w) = (Ok tt, (heap', w'))
    /\ length heap' = length heap
    /\ Forall slot_paired heap'.
Proof.
  intros Hall Hlt.
  destruct (lookup_lt_is_Some_2 heap sid Hlt) as [s Hs].
  assert (Hp : slot_paired s).
  { rewrite Forall_forall in Hall. apply Hall. by eapply list_elem_of_lookup_2. }
  destruct (show_latest_run sid s heap w Hs)
    as (r & s' & w' & Hrun & Hd & _ & Hnone & Hsome).
  assert (r = Ok tt) as ->.
  { destruct (latest_frame s) as [f|] eqn:Hf; [|by apply Hnone].
    destruct Hp as [Hp|[t Ht]]; [congruence|].
    by destruct (Hsome f t eq_refl Ht) as (? & ? & ? & ? & -> & _). }
  exists (<[sid := s']> heap), w'. split; [done|].
  split; [apply length_insert|].
  apply Forall_insert; [done|]. by eapply only_drawn_on_paired.
Qed.

Lemma for_each_show_returns (active : list nat) (heap : list RTSPStreamer)
    (w : World) :
  Forall slot_paired heap ->
  (forall sid, sid ∈ active -> sid < length heap) ->
  exists heap' w',
    for_each active show_latest (heap, w) = (Ok tt, (heap', w'))
    /\ length heap' = length heap
    /\ Forall slot_paired heap'.
Proof.
  revert heap w. induction active as [|sid active IH]; intros heap w Hall Hvalid;
    [by eexists _, _|].
  cbn [for_each]. unfold bind at 1.
  destruct (show_latest_returns sid heap w Hall) as (heap1 & w1 & -> & Hlen & Hall1);
    [apply Hvalid; by left|].
  destruct (IH heap1 w1 Hall1) as (heap2 & w2 & -> & Hlen2 & Hall2).
  { intros sid' Hin. rewrite Hlen. apply Hvalid. by right. }
  exists heap2, w2. split; [done|]. split; [lia|done].
Qed.

Lemma process_loop_returns (keys : list Z) (start duration : Q)
    (active : list nat) (heap : list RTSPStreamer) (w : World) :
  Forall slot_paired heap ->
  (forall sid, sid ∈ active -> sid < length heap) ->
  exists r heap' w',
    process_loop keys start duration active (heap, w) = (r, (heap', w'))
    /\ (r = Ok tt \/ r = Raised KeyboardInterrupt)
    /\ length heap' = length heap
    /\ Forall slot_paired heap'.
Proof.
  revert heap w.
  induction keys as [|key keys IH]; intros heap w Hall Hvalid;
    cbn [process_loop]; rewrite bind_time;
    (destruct (Qle_bool duration (clock w (ticks w) - start));
     [eexists _, _, _; split; [reflexivity|]; split; [by left|done]|]);
    unfold bind at 1;
    destruct (for_each_show_returns active heap (bump_ticks w) Hall Hvalid)
      as (heap1 & w1 & -> & Hlen & Hall1).
  - eexists _, _, _. split; [reflexivity|]. split; [by right|done].
  - rewrite bind_in_world_emit.
    destruct (is_quit_key key).
    + eexists _, _, _. split; [reflexivity|]. split; [by left|done].
    + destruct (IH heap1 (log (EvWaitKey key) w1) Hall1)
        as (r & heap2 & w2 & -> & Hr & Hlen2 & Hall2).
      { intros sid Hin. rewrite Hlen. by apply Hvalid. }
      exists r, heap2, w2. split; [done|]. split; [done|]. split; [lia|done].
Qed.

Lemma process_streamers_returns (keys : list Z) (active : list nat)
    (n : Z) (t d : Q) (heap : list RTSPStreamer) (w : World) :
  Forall slot_paired heap ->
  (forall sid, sid ∈ active -> sid < length heap) ->
  exists heap' w',
    try_except (process_streamers keys active n t d) is_KeyboardInterrupt
      (fun _ => in_world (print MsgInterrupt)) (heap, w) = (Ok tt, (heap', w'))
    /\ length heap' = length heap.
Proof.
  intros Hall Hvalid. unfold try_except, process_streamers, print.
  rewrite !bind_in_world_emit, bind_time. unfold bind at 1.
  match goal with
  | |- context [process_loop keys ?s d active (heap, ?w1)] =>
      destruct (process_loop_returns keys s d active heap w1 Hall Hvalid)
        as (r & heap' & w2 & -> & [-> | ->] & Hlen & _)
  end; by eexists _, _.
Qed.

Lemma report_returns (end_time : Q) (sid : nat) (s : RTSPStreamer)
    (heap : list RTSPStreamer) (w : World) :
  heap !! sid = Some s ->
  exists w', report end_time sid (heap, w) = (Ok tt, (heap, w')).
Proof.
  intros Hs. unfold report. rewrite (bind_call_get_self _ _ _ _ _ Hs).
  destruct (first_start_time s) as [t0|]; [|by eexists].
  destruct (Qeq_bool t0 0); by eexists.
Qed.

Lemma for_each_report_returns (end_time : Q) (sids : list nat)
    (heap : list RTSPStreamer) (w : World) :
  (forall sid, sid ∈ sids -> sid < length heap) ->
  exists w', for_each sids (report end_time) (heap, w) = (Ok tt, (heap, w')).
Proof.
  revert w. induction sids as [|sid sids IH]; intros w Hvalid; [by eexists|].
  cbn [for_each]. unfold bind at 1.
  destruct (lookup_lt_is_Some_2 heap sid) as [s Hs]; [apply Hvalid; by left|].
  destruct (report_returns end_time sid s heap w Hs) as (w1 & ->).
  apply IH. intros sid' Hin. apply Hvalid. by right.
Qed.

Lemma for_each_release_stops (sids : list nat) (heap : list RTSPStreamer)
    (w : World) :
  (forall sid, sid ∈ sids -> sid < length heap) ->
  exists heap' w',
    for_each sids (fun sid => call sid release) (heap, w) =
      (Ok tt, (heap', w'))
    /\ length heap' = length heap
    /\ (forall i s', heap' !! i = Some s' ->
          (cap s' = None /\ stopped s' = true)
          \/ ((i ∉ sids) /\ heap !! i = Some s')).
Proof.
  revert heap w. induction sids as [|sid sids IH]; intros heap w Hvalid.
  - exists heap, w. split; [done|]. split; [done|].
    intros i s' Hi. right. split; [|done]. apply not_elem_of_nil.
  - destruct (lookup_lt_is_Some_2 heap sid) as [s Hs]; [apply Hvalid; by left|].
    cbn [for_each]. unfold bind at 1, call at 1. cbn [fst snd].
    rewrite Hs, way1_release_run.
    match goal with
    | |- context [for_each sids _ (?h, ?w1)] =>
        destruct (IH h w1) as (heap' & w' & -> & Hlen & Hall)
    end.
    { intros sid' Hin. rewrite length_insert. apply Hvalid. by right. }
    exists heap', w'. split; [done|].
    split; [by rewrite Hlen, length_insert|].
    intros i s' Hi. destruct (Hall i s' Hi) as [Hnone|[Hnot Hold]]; [by left|].
    destruct (decide (i = sid)) as [->|Hne].
    + rewrite list_lookup_insert_eq in Hold by (by eapply lookup_lt_Some).
      simplify_eq. by left.
    + rewrite list_lookup_insert_ne in Hold by done.
      right. split; [|done]. intros Hin.
      apply elem_of_cons in Hin as [->|Hin]; done.
Qed.

Lemma threaded_main_run (urls : list string) (keys : list Z) (w : World) :
  exists heap' w',
    main urls keys ([], w) = (Ok tt, (heap', w'))
    /\ length heap' = length urls
    /\ Forall (fun s => cap s = None /\ stopped s = true) heap'.
Proof.
  unfold main. unfold bind at 1.
  pose proof (create_streamers_paired 1 urls [] w (Forall_nil_2 _)) as Hp0.
  destruct (way1_create_streamers_run 1 urls [] w)
    as (heap0 & w0 & suf0 & Hrun & Hurls & _).
  rewrite Hrun in *. cbn [fst snd length] in *.
  assert (Hlen0 : length heap0 = length urls).
  { by rewrite <- (length_fmap rtsp_url heap0), Hurls. }
  assert (Hvalid0 : forall sid, sid ∈ seq 0 (length urls) -> sid < length heap0).
  { intros sid Hin. apply elem_of_seq in Hin. lia. }
  unfold bind at 1.
  destruct (connect_all_attempts (seq 0 (length urls)) heap0 w0 Hvalid0)
    as (active & heap1 & w1 & suf1 & Hconn & Hsub & _).
  destruct (connect_all_paired _ _ _ _ _ Hp0 Hconn) as [Hlen1 Hp1].
  rewrite Hconn. cbn [fst snd] in *.
  assert (Hvalid1 : forall sid, sid ∈ active -> sid < length heap1).
  { intros sid Hin. rewrite Hlen1. apply Hvalid0.
    by apply (sublist_subseteq _ _ Hsub). }
  unfold try_finally.
  destruct (process_streamers_returns keys active 2 (2 # 1) (300 # 1)
              heap1 w1 Hp1 Hvalid1) as (heap2 & w2 & -> & Hlen2).
  rewrite bind_time. unfold print. rewrite bind_in_world_emit.
  unfold bind at 1.
  assert (Hvalid2 : forall sid, sid ∈ seq 0 (length urls) -> sid < length heap2).
  { intros sid Hin. rewrite Hlen2, Hlen1. by apply Hvalid0. }
  match goal with
  | |- context [for_each _ (report ?t) (heap2, ?w3)] =>
      destruct (for_each_report_returns t (seq 0 (length urls)) heap2 w3 Hvalid2)
        as (w4 & ->)
  end.
  unfold bind at 1.
  destruct (for_each_release_stops (seq 0 (length urls)) heap2 w4 Hvalid2)
    as (heap' & w' & -> & Hlen' & Hall).
  unfold in_world, emit. cbn [fst snd].
  eexists heap', _. split; [reflexivity|].
  split; [lia|]. apply Forall_forall. intros s Hin.
  apply list_elem_of_lookup in Hin as [i Hi].
  destruct (Hall i s Hi) as [Hnone|[Hnot _]]; [done|].
  exfalso. apply Hnot. apply elem_of_seq. apply lookup_lt_Some in Hi. lia.
Qed.


(** X15. The threaded [main] always runs to its end.  For every list of
    URLs, every decoder behaviour and every sequence of keys (the user
    interrupts when it is over), [main] returns normally: start-up cannot
    fail, the display loop ends by the duration, the quit key or the
    interrupt, which is caught, and the [finally] block completes.  At the
    end every streamer that was created has its stop flag set and holds no
    capture object. *)
Theorem threaded_main_returns_clean :
  forall (rtsp_urls : list string) (keys : list Z) (w : World),
    let r := main rtsp_urls keys ([], w) in
    fst r = Ok tt
    /\ length r.2.1 = length rtsp_urls
    /\ Forall (fun s => cap s = None /\ stopped s = true) r.2.1.
Proof.
  intros urls keys w. cbv zeta.
  destruct (threaded_main_run urls keys w) as (heap' & w' & -> & Hlen & Hall).
  done.
Qed.

End ThreadedMain.

(** ** What can end the retry-only [main] *)

Section Contained.

Context {X : Type}.





Lemma contained_weaken {A} (I : X -> Prop) (Q Q' : A -> Prop)
    (m : Prog (X * World) A) :
  (forall a, Q a -> Q' a) -> contained I Q m -> contained I Q' m.
Proof.
  intros HQ Hm x w Hx.
  destruct (Hm x w Hx) as (r & x1 & w1 & suf1 & E1 & Hx1 & Ht1 & Hr).
  exists r, x1, w1, suf1. do 3 (split; [done|]).
  destruct r; [by apply HQ|done..].
Qed.



End Contained.


Section MultiMain.

Import Multi.






Local Abbreviation sized n :=
  (fun heap : list RTSPstreamer => length heap = n).







End MultiMain.

(** ** Failures of one source, over the whole run *)



(** A read that raises outside a connect attempt is caught nowhere in the
    retry-only variant.  Here the first source connects and the read in
    [run] raises: [main] ends with that exception during start-up, and the
    second source is never opened. *)
Lemma uncaught_read_exception_ends_main :
  let w := world_of [(url_101, late_raising_camera); (url_201, steady_camera)] in
  let r := Multi.main [url_101; url_201] [113%Z] ([], w) in
  fst r = Raised DecoderError
  /\ trace r.2.2 =
       [EvOpen handle_0;
        EvRead handle_0 (ReadReturns true (Some frame_a));
        EvRead handle_0 ReadRaises]
  /\ count_events (is_open_attempt url_201) (trace r.2.2) = 0.
Proof. vm_compute. repeat split. Qed.

(** ** A negative retry interval *)



